(** * SyncTeX decoder of LaTeX-Workshop: [src/components/synctexjs.ts]

    A shallow embedding of the parser [parseSyncTex], of the bounding-box
    reduction [getCoveringRectangle] and of the two queries
    [syncTexJsForward] and [syncTexJsBackward], followed by the properties
    established about them.

    Modelling conventions.
    - A JavaScript [number] that holds a length is a rational ([Q]); the
      arithmetic of the source is performed exactly, without the rounding
      of IEEE doubles.  Numbers that hold a line, a page or a file number
      are naturals ([N]), taken to be exact as well.
    - A JavaScript object used as a dictionary is a [JSObject]: the list of
      its own properties in creation order, together with the enumeration
      order of [Object.keys] (integer-like keys first, ascending, then the
      remaining keys in creation order).  Properties inherited from
      [Object.prototype] are left out: no file is named [toString].
    - The blocks that the parser allocates live in a store and are
      designated by their position in it, since the source shares them
      between [currentElement], [hBlocks] and the [blocks] of their parent.
    - An exception is an [Err] result.  [SyncTexJsError] is the error class
      of the module; [TypeError] is what the runtime raises when a property
      of [undefined] is read or [undefined] is enumerated.
    - The string handed to the parser is a [string] of 8-bit characters.
    - Reading the synchronisation file from the disk, which the two queries
      start with, is left out: they take the parsed object, or the text. *)

From Stdlib Require Import List String Ascii Bool NArith ZArith QArith Lia Lqa.
From Stdlib Require Import DecimalString DecimalN Sorted Permutation.
From Stdlib Require Import Qround Qpower SpecFloat.
Import ListNotations.

Set Implicit Arguments.

(** ** Results and exceptions *)

Inductive Error : Type :=
| SyncTexJsError (message : string)
| TypeError.

Inductive Result (A : Type) : Type :=
| Ok (a : A)
| Err (e : Error).

Arguments Ok {A} a.
Arguments Err {A} e.

Definition bind {A B : Type} (r : Result A) (k : A -> Result B) : Result B :=
  match r with
  | Ok a => k a
  | Err e => Err e
  end.

Notation "x <- r ;; k" := (bind r (fun x => k))
  (at level 61, r at next level, right associativity).

(** Reading through a value that may be [undefined]. *)
Definition defined {A : Type} (o : option A) : Result A :=
  match o with
  | Some a => Ok a
  | None => Err TypeError
  end.

(** ** Comparisons of lengths *)

Definition Qltb (a b : Q) : bool :=
  match (a ?= b)%Q with Lt => true | _ => false end.

Definition Qleb (a b : Q) : bool :=
  match (a ?= b)%Q with Gt => false | _ => true end.

(** [Math.max] on two arguments. *)
Definition mathMax (a b : Q) : Q := if Qltb a b then b else a.

(** ** Sorting by a numeric rank

    Insertion sort, stable: it models both [Array.prototype.sort] with the
    comparator [(a, b) => a - b] and the ascending order in which
    integer-like property keys are enumerated. *)

Section Sorting.
Variable A : Type.
Variable rank : A -> N.

Fixpoint insert_by (x : A) (l : list A) : list A :=
  match l with
  | [] => [x]
  | y :: l' => if (rank x <=? rank y)%N then x :: l else y :: insert_by x l'
  end.

Definition sort_by (l : list A) : list A := fold_right insert_by [] l.

(** The order that sorting establishes. *)
Definition byRank (a b : A) : Prop := (rank a <= rank b)%N.
End Sorting.

Definition sortNumbers (l : list N) : list N := sort_by (fun n => n) l.

(** ** JavaScript objects used as dictionaries *)

(** A property key.  [array_index k] is [Some i] when the key is the
    canonical decimal form of an integer [i < 2^32 - 1]: those keys are
    enumerated first, in ascending order. *)
Class JSKey (K : Type) : Type := {
  key_eqb : K -> K -> bool;
  key_eqb_eq : forall a b, key_eqb a b = true <-> a = b;
  array_index : K -> option N
}.

Definition maxArrayIndex : N := 4294967295.

Definition isDigit (c : ascii) : bool :=
  let n := N_of_ascii c in ((48 <=? n) && (n <=? 57))%N.

Definition digitValue (c : ascii) : N := (N_of_ascii c - 48)%N.

Fixpoint digitsValue (acc : N) (s : string) : N :=
  match s with
  | EmptyString => acc
  | String c s' => digitsValue (10 * acc + digitValue c)%N s'
  end.

Fixpoint allDigits (s : string) : bool :=
  match s with
  | EmptyString => true
  | String c s' => isDigit c && allDigits s'
  end.

(** [parseInt] and [Number] on a non-empty string of decimal digits.  The
    number is the one that is written; the source returns the nearest
    double, which is the same number below [2^53]. *)
Definition parseInt (s : string) : N := digitsValue 0 s.

Definition canonicalNumeric (s : string) : bool :=
  match s with
  | EmptyString => false
  | String "0" EmptyString => true
  | String "0" _ => false
  | String _ _ => allDigits s
  end.

Definition stringIndex (s : string) : option N :=
  if canonicalNumeric s && (parseInt s <? maxArrayIndex)%N
  then Some (parseInt s) else None.

Definition numberIndex (n : N) : option N :=
  if (n <? maxArrayIndex)%N then Some n else None.

#[export] Instance JSKey_string : JSKey string := {
  key_eqb := String.eqb;
  key_eqb_eq := String.eqb_eq;
  array_index := stringIndex
}.

#[export] Instance JSKey_N : JSKey N := {
  key_eqb := N.eqb;
  key_eqb_eq := N.eqb_eq;
  array_index := numberIndex
}.

(** The own properties of an object, oldest first. *)
Definition JSObject (K V : Type) : Type := list (K * V).

Section Objects.
Context {K V : Type} `{JSKey K}.

(** [o[k]], [None] standing for [undefined]. *)
Fixpoint get (k : K) (o : JSObject K V) : option V :=
  match o with
  | [] => None
  | (k', v) :: o' => if key_eqb k k' then Some v else get k o'
  end.

(** [o[k] = v]: an existing property keeps its place, a new one is
    created last. *)
Fixpoint set (k : K) (v : V) (o : JSObject K V) : JSObject K V :=
  match o with
  | [] => [(k, v)]
  | (k', v') :: o' =>
      if key_eqb k k' then (k', v) :: o' else (k', v') :: set k v o'
  end.

Definition isIndexKey (k : K) : bool :=
  match array_index k with Some _ => true | None => false end.

Definition indexRank (k : K) : N :=
  match array_index k with Some i => i | None => 0%N end.

(** Property keys in creation order. *)
Definition insertionKeys (o : JSObject K V) : list K := map fst o.

(** [Object.keys(o)]: the own property keys in the order of the
    language (OrdinaryOwnPropertyKeys), array indexes in ascending numeric
    order, then the other keys in the order of their creation. *)
Definition keys (o : JSObject K V) : list K :=
  sort_by indexRank (filter isIndexKey (insertionKeys o))
  ++ filter (fun k => negb (isIndexKey k)) (insertionKeys o).
End Objects.

(** ** Data model *)

Module File.
Record t : Type := { path : string }.
End File.

Module Page.
Record t : Type := {
  page : N;
  blocks : list nat;
  type : string
}.
End Page.

(** A reference to the object that encloses a block: the page itself, or a
    block designated by its position in the store of allocated blocks. *)
Inductive Ref : Type :=
| RefPage (p : Page.t)
| RefBlock (id : nat).

Module Block.
Record t : Type := {
  type : string;
  parent : Ref;
  fileNumber : N;
  file : option File.t;
  line : N;
  left : Q;
  bottom : Q;
  width : option Q;
  height : Q;
  depth : option Z;
  blocks : option (list nat);
  elements : option (list nat);
  page : N
}.
End Block.

Definition isBlock (r : Ref) : bool :=
  match r with
  | RefBlock _ => true
  | RefPage _ => false
  end.

Definition Files : Type := JSObject string File.t.
Definition Pages : Type := JSObject string Page.t.
Definition PageBlocks : Type := JSObject N (list Block.t).
Definition LinePageBlocks : Type := JSObject N PageBlocks.
Definition BlockNumberLine : Type := JSObject string LinePageBlocks.

Module Offset.
Record t : Type := { x : Q; y : Q }.
End Offset.

Module PdfSyncObject.
Record t : Type := {
  offset : Offset.t;
  version : string;
  files : Files;
  pages : Pages;
  blockNumberLine : BlockNumberLine;
  hBlocks : list nat;
  numberPages : N;
  store : list Block.t
}.
End PdfSyncObject.

Module SyncTeXRecordForward.
Record t : Type := { page : N; x : Q; y : Q }.
End SyncTeXRecordForward.

Module SyncTeXRecordBackward.
Record t : Type := { input : string; line : N; column : N }.
End SyncTeXRecordBackward.

(** ** getCoveringRectangle *)

Module Rect.
Record t : Type := { top : Q; bottom : Q; left : Q; right : Q }.
End Rect.

Definition sentinel : Q := 20000000000000000 # 1.

Definition coverInit : Rect.t :=
  {| Rect.top := sentinel; Rect.bottom := 0; Rect.left := sentinel; Rect.right := 0 |}.

(** One turn of the loop of [getCoveringRectangle]. *)
Definition coverStep (c : Rect.t) (b : Block.t) : Rect.t :=
  let cBottom :=
    if Qltb (Rect.bottom c) (Block.bottom b) then Block.bottom b else Rect.bottom c in
  let top := (Block.bottom b - Block.height b)%Q in
  let cTop := if Qltb top (Rect.top c) then top else Rect.top c in
  let cLeft :=
    if Qltb (Block.left b) (Rect.left c) then Block.left b else Rect.left c in
  let cRight :=
    match Block.width b with
    | Some w =>
        let right := (Block.left b + w)%Q in
        if Qltb (Rect.right c) right then right else Rect.right c
    | None => Rect.right c
    end in
  {| Rect.top := cTop; Rect.bottom := cBottom; Rect.left := cLeft; Rect.right := cRight |}.

Definition getCoveringRectangle (blocks : list Block.t) : Rect.t :=
  fold_left coverStep blocks coverInit.

(** ** syncTexJsForward *)

(** [Array.prototype.findIndex]: the position of the first element that
    satisfies [p], or [-1]. *)
Fixpoint findIndexFrom {A : Type} (p : A -> bool) (l : list A) (i : Z) : Z :=
  match l with
  | [] => (-1)%Z
  | a :: l' => if p a then i else findIndexFrom p l' (i + 1)%Z
  end.

Definition findIndex {A : Type} (p : A -> bool) (l : list A) : Z :=
  findIndexFrom p l 0%Z.

(** [l[i]], [None] standing for [undefined] (any position outside of the
    array, negative ones included). *)
Definition at_ {A : Type} (l : list A) (i : Z) : option A :=
  if (i <? 0)%Z then None else nth_error l (Z.to_nat i).

Definition num (n : N) : Q := inject_Z (Z.of_N n).

(** The three statements
    [pageBlocks = linePageBlocks[l]; page = Object.keys(pageBlocks)[0];
     blocks = pageBlocks[Number(page)]]
    followed by the iteration over [blocks] that [getCoveringRectangle]
    starts with.  With [l] undefined, [pageBlocks] is undefined and
    [Object.keys] raises; with no key at all, [blocks] is undefined and the
    iteration raises. *)
Definition firstPageBlocks (linePageBlocks : LinePageBlocks) (l : option N)
  : Result (list Block.t) :=
  l' <- defined l ;;
  pageBlocks <- defined (get l' linePageBlocks) ;;
  page <- defined (hd_error (keys pageBlocks)) ;;
  defined (get page pageBlocks).

(** [syncTexJsForward] on the parsed object.  The call of
    [parseSyncTexForPdf] that opens the function in the source reads the
    file and parses it, and raises what the parser raises: it is composed
    with this function in [forwardOnText].  The sums and the interpolation
    are exact here; the source rounds each operation to a double, which
    [syncTexJsForward64] does. *)
Definition syncTexJsForward (line : N) (filePath : string)
    (pdfSyncObject : PdfSyncObject.t) : Result SyncTeXRecordForward.t :=
  let offset := PdfSyncObject.offset pdfSyncObject in
  linePageBlocks <- defined (get filePath (PdfSyncObject.blockNumberLine pdfSyncObject)) ;;
  let lineNums := sortNumbers (keys linePageBlocks) in
  let i := findIndex (fun x => (line <=? x)%N) lineNums in
  if (i =? 0)%Z
     || match at_ lineNums i with Some l => (l =? line)%N | None => false end
  then
    blocks <- firstPageBlocks linePageBlocks (at_ lineNums i) ;;
    let c := getCoveringRectangle blocks in
    b <- defined (hd_error blocks) ;;
    Ok {| SyncTeXRecordForward.page := Block.page b;
          SyncTeXRecordForward.x := (Rect.left c + Offset.x offset)%Q;
          SyncTeXRecordForward.y := (Rect.bottom c + Offset.y offset)%Q |}
  else
    blocks0 <- firstPageBlocks linePageBlocks (at_ lineNums (i - 1)) ;;
    let c0 := getCoveringRectangle blocks0 in
    blocks1 <- firstPageBlocks linePageBlocks (at_ lineNums i) ;;
    let c1 := getCoveringRectangle blocks1 in
    (* [line0] and [line1] are defined once their buckets have been read *)
    line0 <- defined (at_ lineNums (i - 1)) ;;
    line1 <- defined (at_ lineNums i) ;;
    let bottom :=
      (Rect.bottom c0 * (num line1 - num line) / (num line1 - num line0)
       + Rect.bottom c1 * (num line - num line0) / (num line1 - num line0))%Q in
    b <- defined (hd_error blocks1) ;;
    Ok {| SyncTeXRecordForward.page := Block.page b;
          SyncTeXRecordForward.x := (Rect.left c1 + Offset.x offset)%Q;
          SyncTeXRecordForward.y := (bottom + Offset.y offset)%Q |}.

(** ** syncTexJsBackward *)

Module Candidate.
Record t : Type := { input : string; line : N; distance : Q }.
End Candidate.

(** The state of a loop whose body may [return] or raise. *)
Inductive Loop (R S : Type) : Type :=
| Returned (r : R)
| Running (s : S)
| Thrown (e : Error).

Arguments Returned {R S} r.
Arguments Running {R S} s.
Arguments Thrown {R S} e.

Definition BackwardLoop : Type := Loop SyncTeXRecordBackward.t Candidate.t.

(** The test of the [if] inside the innermost loop. *)
Definition insideBox (box : Rect.t) (x0 y0 : Q) : bool :=
  Qleb (Rect.bottom box) y0 && Qleb y0 (Rect.top box)
  && Qleb (Rect.left box) x0 && Qleb x0 (Rect.right box).

Definition boxDistance (box : Rect.t) (x0 y0 : Q) : Q :=
  mathMax (mathMax (mathMax (Rect.bottom box - y0) (y0 - Rect.top box))
                   (Rect.left box - x0))
          (x0 - Rect.right box).

Section BackwardScan.
Variables (page : N) (x0 y0 : Q).

(** Body of [for (const pageNum of pageNums)]. *)
Definition visitPage (fileName : string) (lineNum : N) (pageBlocks : PageBlocks)
    (pageNum : N) (record : Candidate.t) : BackwardLoop :=
  if (page =? pageNum)%N then
    match get pageNum pageBlocks with
    | None => Thrown TypeError
    | Some blocks =>
        let box := getCoveringRectangle blocks in
        if insideBox box x0 y0 then
          Returned {| SyncTeXRecordBackward.input := fileName;
                      SyncTeXRecordBackward.line := lineNum;
                      SyncTeXRecordBackward.column := 0 |}
        else
          let dist := boxDistance box x0 y0 in
          if Qltb dist (Candidate.distance record) then
            Running {| Candidate.input := fileName;
                       Candidate.line := lineNum;
                       Candidate.distance := dist |}
          else Running record
    end
  else Running record.

Fixpoint pageLoop (fileName : string) (lineNum : N) (pageBlocks : PageBlocks)
    (pageNums : list N) (record : Candidate.t) : BackwardLoop :=
  match pageNums with
  | [] => Running record
  | pageNum :: rest =>
      match visitPage fileName lineNum pageBlocks pageNum record with
      | Running record' => pageLoop fileName lineNum pageBlocks rest record'
      | stop => stop
      end
  end.

(** Body of [for (const lineNum of lineNums)]. *)
Definition visitLine (fileName : string) (linePageBlocks : LinePageBlocks)
    (lineNum : N) (record : Candidate.t) : BackwardLoop :=
  match get lineNum linePageBlocks with
  | None => Thrown TypeError
  | Some pageBlocks =>
      pageLoop fileName lineNum pageBlocks (keys pageBlocks) record
  end.

Fixpoint lineLoop (fileName : string) (linePageBlocks : LinePageBlocks)
    (lineNums : list N) (record : Candidate.t) : BackwardLoop :=
  match lineNums with
  | [] => Running record
  | lineNum :: rest =>
      match visitLine fileName linePageBlocks lineNum record with
      | Running record' => lineLoop fileName linePageBlocks rest record'
      | stop => stop
      end
  end.

(** Body of [for (const fileName of fileNames)]. *)
Definition visitFile (blockNumberLine : BlockNumberLine) (fileName : string)
    (record : Candidate.t) : BackwardLoop :=
  match get fileName blockNumberLine with
  | None => Thrown TypeError
  | Some linePageBlocks =>
      let lineNums := keys linePageBlocks in
      if (List.length lineNums =? 0)%nat then Running record
      else lineLoop fileName linePageBlocks lineNums record
  end.

Fixpoint fileLoop (blockNumberLine : BlockNumberLine) (fileNames : list string)
    (record : Candidate.t) : BackwardLoop :=
  match fileNames with
  | [] => Running record
  | fileName :: rest =>
      match visitFile blockNumberLine fileName record with
      | Running record' => fileLoop blockNumberLine rest record'
      | stop => stop
      end
  end.
End BackwardScan.

Definition initialCandidate : Candidate.t :=
  {| Candidate.input := EmptyString; Candidate.line := 0; Candidate.distance := sentinel |}.

Definition noEntryMessage : string :=
  "no entry of tex file found in the synctex file.".

Definition noLineMessage : string := "cannot find any line to jump to.".

Definition syncTexJsBackward (page : N) (x y : Q)
    (pdfSyncObject : PdfSyncObject.t) : Result SyncTeXRecordBackward.t :=
  let x0 := (x - Offset.x (PdfSyncObject.offset pdfSyncObject))%Q in
  let y0 := (y - Offset.y (PdfSyncObject.offset pdfSyncObject))%Q in
  let fileNames := keys (PdfSyncObject.blockNumberLine pdfSyncObject) in
  if (List.length fileNames =? 0)%nat then Err (SyncTexJsError noEntryMessage)
  else
    match fileLoop page x0 y0 (PdfSyncObject.blockNumberLine pdfSyncObject)
                   fileNames initialCandidate with
    | Returned r => Ok r
    | Thrown e => Err e
    | Running record =>
        if String.eqb (Candidate.input record) EmptyString
        then Err (SyncTexJsError noLineMessage)
        else Ok {| SyncTeXRecordBackward.input := Candidate.input record;
                   SyncTeXRecordBackward.line := Candidate.line record;
                   SyncTeXRecordBackward.column := 0 |}
    end.

(** ** The line patterns of parseSyncTex

    Each regular expression of the source is a matcher that is tried at one
    position of the line; [search] tries the positions from left to right,
    as an unanchored regular expression does.  None of the expressions has
    two ways of matching at a given position (a run of digits is always
    followed by a character that is not a digit), so each matcher takes the
    longest run of digits and never has to come back on it. *)

Definition optBind {A B : Type} (o : option A) (k : A -> option B) : option B :=
  match o with
  | Some a => k a
  | None => None
  end.

Notation "' p <-? o ;; k" := (optBind o (fun p => k))
  (at level 61, p pattern, o at next level, right associativity).

Definition Matcher (A : Type) : Type := string -> option (A * string).

(** The longest prefix made of digits, and what follows it. *)
Fixpoint spanDigits (s : string) : string * string :=
  match s with
  | EmptyString => (EmptyString, EmptyString)
  | String c s' =>
      if isDigit c
      then let (d, r) := spanDigits s' in (String c d, r)
      else (EmptyString, s)
  end.

(** [[0-9]+] *)
Definition digits : Matcher string := fun s =>
  match spanDigits s with
  | (EmptyString, _) => None
  | (d, r) => Some (d, r)
  end.

(** A literal text. *)
Fixpoint lit (p : string) : Matcher unit := fun s =>
  match p with
  | EmptyString => Some (tt, s)
  | String c p' =>
      match s with
      | String c' s' => if Ascii.eqb c c' then lit p' s' else None
      | EmptyString => None
      end
  end.

(** [-?], which never fails. *)
Definition optMinus (s : string) : bool * string :=
  match s with
  | String "-" s' => (true, s')
  | _ => (false, s)
  end.

(** [(-?[0-9]+)]: the captured text keeps its sign. *)
Definition signedDigits : Matcher string := fun s =>
  let (neg, s') := optMinus s in
  ' (d, r) <-? digits s' ;;
  Some (if neg then String "-" d else d, r).

(** [-?([0-9]+)]: the sign is matched but left out of the capture. *)
Definition unsignedCapture : Matcher string := fun s =>
  digits (snd (optMinus s)).

(** [Number] and [parseInt] on a captured text of the form [-?[0-9]+]. *)
Definition signedValue (s : string) : Z :=
  match s with
  | String "-" d => (- Z.of_N (parseInt d))%Z
  | _ => Z.of_N (parseInt s)
  end.

(** A line terminator is not matched by [.]. *)
Definition isLineTerminator (c : ascii) : bool :=
  let n := N_of_ascii c in ((n =? 10) || (n =? 13))%N.

(** [(.+)] *)
Fixpoint spanDot (s : string) : string * string :=
  match s with
  | EmptyString => (EmptyString, EmptyString)
  | String c s' =>
      if isLineTerminator c then (EmptyString, s)
      else let (d, r) := spanDot s' in (String c d, r)
  end.

Definition dots : Matcher string := fun s =>
  match spanDot s with
  | (EmptyString, _) => None
  | (d, r) => Some (d, r)
  end.

(** [$] *)
Definition atEnd {A : Type} (a : A) (s : string) : option A :=
  match s with
  | EmptyString => Some a
  | String _ _ => None
  end.

(** [String.prototype.match] with an unanchored expression: the match that
    starts leftmost. *)
Fixpoint search {A : Type} (m : string -> option A) (s : string) : option A :=
  match m s with
  | Some a => Some a
  | None =>
      match s with
      | EmptyString => None
      | String _ s' => search m s'
      end
  end.

(** [/Input:([0-9]+):(.+)/] *)
Definition inputPattern (s : string) : option (string * string) :=
  ' (_, s) <-? lit "Input:" s ;;
  ' (m1, s) <-? digits s ;;
  ' (_, s) <-? lit ":" s ;;
  ' (m2, _) <-? dots s ;;
  Some (m1, m2).

(** [/(X|Y) Offset:([0-9]+)/] *)
Definition offsetPattern (s : string) : option (ascii * string) :=
  match s with
  | String c s =>
      if Ascii.eqb c "X" || Ascii.eqb c "Y" then
        ' (_, s) <-? lit " Offset:" s ;;
        ' (m2, _) <-? digits s ;;
        Some (c, m2)
      else None
  | EmptyString => None
  end.

(** [/\{([0-9]+)$/] *)
Definition openPagePattern (s : string) : option string :=
  ' (_, s) <-? lit "{" s ;;
  ' (m1, s) <-? digits s ;;
  atEnd m1 s.

(** [/\}([0-9]+)$/] *)
Definition closePagePattern (s : string) : option string :=
  ' (_, s) <-? lit "}" s ;;
  ' (m1, s) <-? digits s ;;
  atEnd m1 s.

Module BlockMatch.
Record t : Type := {
  m1 : string; m2 : string; m3 : string; m4 : string;
  m5 : string; m6 : string; m7 : string
}.
End BlockMatch.

(** The common shape of the two expressions that open a block, after the
    bracket: [([0-9]+),([0-9]+):(-?[0-9]+),(-?[0-9]+):(-?[0-9]+),(-?[0-9]+),(-?[0-9]+)] *)
Definition blockPattern (open : string) (s : string) : option BlockMatch.t :=
  ' (_, s) <-? lit open s ;;
  ' (m1, s) <-? digits s ;;
  ' (_, s) <-? lit "," s ;;
  ' (m2, s) <-? digits s ;;
  ' (_, s) <-? lit ":" s ;;
  ' (m3, s) <-? signedDigits s ;;
  ' (_, s) <-? lit "," s ;;
  ' (m4, s) <-? signedDigits s ;;
  ' (_, s) <-? lit ":" s ;;
  ' (m5, s) <-? signedDigits s ;;
  ' (_, s) <-? lit "," s ;;
  ' (m6, s) <-? signedDigits s ;;
  ' (_, s) <-? lit "," s ;;
  ' (m7, _) <-? signedDigits s ;;
  Some {| BlockMatch.m1 := m1; BlockMatch.m2 := m2; BlockMatch.m3 := m3;
          BlockMatch.m4 := m4; BlockMatch.m5 := m5; BlockMatch.m6 := m6;
          BlockMatch.m7 := m7 |}.

Definition verticalBlockPattern : string -> option BlockMatch.t := blockPattern "[".
Definition horizontalBlockPattern : string -> option BlockMatch.t := blockPattern "(".

(** [/\]$/] and [/\)$/] *)
Definition closeverticalBlockPattern (s : string) : option unit :=
  ' (_, s) <-? lit "]" s ;; atEnd tt s.

Definition closehorizontalBlockPattern (s : string) : option unit :=
  ' (_, s) <-? lit ")" s ;; atEnd tt s.

Module ElementMatch.
Record t : Type := {
  m1 : ascii; m2 : string; m3 : string; m4 : string; m5 : string;
  m7 : option string
}.
End ElementMatch.

(** The optional group [(:?-?([0-9]+))?]: what it captures, if it takes
    part in the match. *)
Definition widthGroup (s : string) : option string :=
  let s := match s with String ":" s' => s' | _ => s end in
  ' (m7, _) <-? unsignedCapture s ;;
  Some m7.

(** [/(.)([0-9]+),([0-9]+):-?([0-9]+),-?([0-9]+)(:?-?([0-9]+))?/] *)
Definition elementBlockPattern (s : string) : option ElementMatch.t :=
  match s with
  | EmptyString => None
  | String c s =>
      if isLineTerminator c then None
      else
        ' (m2, s) <-? digits s ;;
        ' (_, s) <-? lit "," s ;;
        ' (m3, s) <-? digits s ;;
        ' (_, s) <-? lit ":" s ;;
        ' (m4, s) <-? unsignedCapture s ;;
        ' (_, s) <-? lit "," s ;;
        ' (m5, s) <-? unsignedCapture s ;;
        Some {| ElementMatch.m1 := c; ElementMatch.m2 := m2; ElementMatch.m3 := m3;
                ElementMatch.m4 := m4; ElementMatch.m5 := m5;
                ElementMatch.m7 := widthGroup s |}
  end.

(** ** parseSyncTex *)

Definition unit_ : Q := 6578176 # 100.

(** The text of a number used as a property key. *)
Definition numberKey (n : N) : string := NilEmpty.string_of_uint (N.to_uint n).

Definition toLowerCase (c : ascii) : ascii :=
  let n := N_of_ascii c in
  if ((65 <=? n) && (n <=? 90))%N then ascii_of_N (n + 32) else c.

(** The variables of [parseSyncTex] that the loop over the lines reads and
    writes, with the store of the blocks allocated so far.  A block is
    designated by its position in the store, so that the block which is
    [currentElement], the one recorded in [hBlocks] and the one pushed on its
    parent's [blocks] are one object. *)
Module State.
Record t : Type := {
  numberPages : N;
  currentPage : option Page.t;
  currentElement : option Ref;
  blockNumberLine : BlockNumberLine;
  hBlocks : list nat;
  files : Files;
  pages : Pages;
  offset : Offset.t;
  store : list Block.t
}.

Definition initial : t :=
  {| numberPages := 0; currentPage := None; currentElement := None;
     blockNumberLine := []; hBlocks := []; files := []; pages := [];
     offset := {| Offset.x := 0; Offset.y := 0 |}; store := [] |}.
End State.

Definition vBlockMessage : string :=
  "Error: parse error at line ${i}. A new V block is not allowed here.".
Definition hBlockMessage : string :=
  "Error: parse error at line ${i}. A new H block is not allowed here.".
Definition elementMessage : string :=
  "Error: parse error at line ${i}. A new element is not allowed here.".
Definition neverMessage : string := "never occur.".

(** Writing a block of the store. *)
Fixpoint update (id : nat) (f : Block.t -> Block.t) (store : list Block.t)
  : list Block.t :=
  match store, id with
  | [], _ => []
  | b :: store', O => f b :: store'
  | b :: store', S id' => b :: update id' f store'
  end.

Definition pushBlock (child : nat) (b : Block.t) : Block.t :=
  {| Block.type := Block.type b; Block.parent := Block.parent b;
     Block.fileNumber := Block.fileNumber b; Block.file := Block.file b;
     Block.line := Block.line b; Block.left := Block.left b;
     Block.bottom := Block.bottom b; Block.width := Block.width b;
     Block.height := Block.height b; Block.depth := Block.depth b;
     Block.blocks := option_map (fun l => l ++ [child]) (Block.blocks b);
     Block.elements := Block.elements b; Block.page := Block.page b |}.

Definition pushElement (child : nat) (b : Block.t) : Block.t :=
  {| Block.type := Block.type b; Block.parent := Block.parent b;
     Block.fileNumber := Block.fileNumber b; Block.file := Block.file b;
     Block.line := Block.line b; Block.left := Block.left b;
     Block.bottom := Block.bottom b; Block.width := Block.width b;
     Block.height := Block.height b; Block.depth := Block.depth b;
     Block.blocks := Block.blocks b;
     Block.elements := option_map (fun l => l ++ [child]) (Block.elements b);
     Block.page := Block.page b |}.

Section Handlers.
Variable st : State.t.

(** [files[match[1]] = { path: match[2] }] *)
Definition onInput (m1 m2 : string) : State.t :=
  {| State.numberPages := State.numberPages st;
     State.currentPage := State.currentPage st;
     State.currentElement := State.currentElement st;
     State.blockNumberLine := State.blockNumberLine st;
     State.hBlocks := State.hBlocks st;
     State.files := set m1 {| File.path := m2 |} (State.files st);
     State.pages := State.pages st;
     State.offset := State.offset st;
     State.store := State.store st |}.

Definition withOffset (o : Offset.t) : State.t :=
  {| State.numberPages := State.numberPages st;
     State.currentPage := State.currentPage st;
     State.currentElement := State.currentElement st;
     State.blockNumberLine := State.blockNumberLine st;
     State.hBlocks := State.hBlocks st;
     State.files := State.files st;
     State.pages := State.pages st;
     State.offset := o;
     State.store := State.store st |}.

Definition onOffset (m1 : ascii) (m2 : string) : Result State.t :=
  let v := (num (parseInt m2) / unit_)%Q in
  if Ascii.eqb (toLowerCase m1) "x" then
    Ok (withOffset {| Offset.x := v; Offset.y := Offset.y (State.offset st) |})
  else if Ascii.eqb (toLowerCase m1) "y" then
    Ok (withOffset {| Offset.x := Offset.x (State.offset st); Offset.y := v |})
  else Err (SyncTexJsError neverMessage).

Definition onOpenPage (m1 : string) : State.t :=
  let currentPage :=
    {| Page.page := parseInt m1; Page.blocks := []; Page.type := "page" |} in
  {| State.numberPages :=
       if (State.numberPages st <? Page.page currentPage)%N
       then Page.page currentPage else State.numberPages st;
     State.currentPage := Some currentPage;
     State.currentElement := Some (RefPage currentPage);
     State.blockNumberLine := State.blockNumberLine st;
     State.hBlocks := State.hBlocks st;
     State.files := State.files st;
     State.pages := State.pages st;
     State.offset := State.offset st;
     State.store := State.store st |}.

Definition onClosePage (m1 : string) (currentPage : Page.t) : State.t :=
  {| State.numberPages := State.numberPages st;
     State.currentPage := None;
     State.currentElement := State.currentElement st;
     State.blockNumberLine := State.blockNumberLine st;
     State.hBlocks := State.hBlocks st;
     State.files := State.files st;
     State.pages := set m1 currentPage (State.pages st);
     State.offset := State.offset st;
     State.store := State.store st |}.

(** The block that an opening line describes. *)
Definition newBlock (type : string) (depth : bool) (m : BlockMatch.t)
    (parent : Ref) (page : N) : Block.t :=
  {| Block.type := type;
     Block.parent := parent;
     Block.fileNumber := parseInt (BlockMatch.m1 m);
     Block.file := get (BlockMatch.m1 m) (State.files st);
     Block.line := parseInt (BlockMatch.m2 m);
     Block.left := (inject_Z (signedValue (BlockMatch.m3 m)) / unit_)%Q;
     Block.bottom := (inject_Z (signedValue (BlockMatch.m4 m)) / unit_)%Q;
     Block.width := Some (inject_Z (signedValue (BlockMatch.m5 m)) / unit_)%Q;
     Block.height := (inject_Z (signedValue (BlockMatch.m6 m)) / unit_)%Q;
     Block.depth := if depth then Some (signedValue (BlockMatch.m7 m)) else None;
     Block.blocks := Some [];
     Block.elements := Some [];
     Block.page := page |}.

(** A new block becomes the current element; a horizontal one is also
    pushed on [hBlocks]. *)
Definition onOpenBlock (horizontal : bool) (m : BlockMatch.t) : Result State.t :=
  match State.currentPage st, State.currentElement st with
  | Some currentPage, Some currentElement =>
      let id := List.length (State.store st) in
      let block :=
        newBlock (if horizontal then "horizontal" else "vertical")
                 (negb horizontal) m currentElement (Page.page currentPage) in
      Ok {| State.numberPages := State.numberPages st;
            State.currentPage := State.currentPage st;
            State.currentElement := Some (RefBlock id);
            State.blockNumberLine := State.blockNumberLine st;
            State.hBlocks :=
              if horizontal then State.hBlocks st ++ [id] else State.hBlocks st;
            State.files := State.files st;
            State.pages := State.pages st;
            State.offset := State.offset st;
            State.store := State.store st ++ [block] |}
  | _, _ =>
      Err (SyncTexJsError (if horizontal then hBlockMessage else vBlockMessage))
  end.

(** The guard of the two closing branches: the current element is a block,
    its parent is a block, and that parent has a list of blocks.  *)
Definition closable : option (nat * nat) :=
  match State.currentElement st with
  | Some (RefBlock id) =>
      match nth_error (State.store st) id with
      | Some b =>
          match Block.parent b with
          | RefBlock pid =>
              match nth_error (State.store st) pid with
              | Some p =>
                  match Block.blocks p with
                  | Some _ => Some (id, pid)
                  | None => None
                  end
              | None => None
              end
          | RefPage _ => None
          end
      | None => None
      end
  | _ => None
  end.

Definition onCloseBlock : State.t :=
  match closable with
  | Some (id, pid) =>
      {| State.numberPages := State.numberPages st;
         State.currentPage := State.currentPage st;
         State.currentElement := Some (RefBlock pid);
         State.blockNumberLine := State.blockNumberLine st;
         State.hBlocks := State.hBlocks st;
         State.files := State.files st;
         State.pages := State.pages st;
         State.offset := State.offset st;
         State.store := update pid (pushBlock id) (State.store st) |}
  | None => st
  end.
End Handlers.

Definition orEmpty {K V : Type} (o : option (JSObject K V)) : JSObject K V :=
  match o with
  | Some v => v
  | None => []
  end.

(** A new element: it is entered in [blockNumberLine] under the path of its
    file, its line and its page, then pushed on the elements of the current
    block.  Reading the path of a file that was never declared raises.
    The lookups are among the own properties of the objects: the properties
    that the objects of the source inherit from [Object.prototype] are not
    modelled, so the definition follows the source on the texts whose file
    paths are none of the inherited names ([plainPaths]). *)
Definition onElement (st : State.t) (m : ElementMatch.t) : Result State.t :=
  match State.currentPage st, State.currentElement st with
  | Some currentPage, Some (RefBlock id) =>
      current <- defined (nth_error (State.store st) id) ;;
      let fileNumber := parseInt (ElementMatch.m2 m) in
      let lineNumber := parseInt (ElementMatch.m3 m) in
      let elem :=
        {| Block.type := String (ElementMatch.m1 m) EmptyString;
           Block.parent := RefBlock id;
           Block.fileNumber := fileNumber;
           Block.file := get (numberKey fileNumber) (State.files st);
           Block.line := lineNumber;
           Block.left := (num (parseInt (ElementMatch.m4 m)) / unit_)%Q;
           Block.bottom := (num (parseInt (ElementMatch.m5 m)) / unit_)%Q;
           Block.width :=
             option_map (fun m7 => (num (parseInt m7) / unit_)%Q) (ElementMatch.m7 m);
           Block.height := Block.height current;
           Block.depth := None;
           Block.blocks := None;
           Block.elements := None;
           Block.page := Page.page currentPage |} in
      file <- defined (Block.file elem) ;;
      let path := File.path file in
      let linePageBlocks := orEmpty (get path (State.blockNumberLine st)) in
      let pageBlocks := orEmpty (get lineNumber linePageBlocks) in
      let blocks :=
        match get (Block.page elem) pageBlocks with
        | Some l => l
        | None => []
        end in
      let elemId := List.length (State.store st) in
      Ok {| State.numberPages := State.numberPages st;
            State.currentPage := State.currentPage st;
            State.currentElement := State.currentElement st;
            State.blockNumberLine :=
              set path
                (set lineNumber
                   (set (Block.page elem) (blocks ++ [elem]) pageBlocks)
                   linePageBlocks)
                (State.blockNumberLine st);
            State.hBlocks := State.hBlocks st;
            State.files := State.files st;
            State.pages := State.pages st;
            State.offset := State.offset st;
            State.store := update id (pushElement elemId) (State.store st ++ [elem]) |}
  | _, _ => Err (SyncTexJsError elementMessage)
  end.

(** One turn of the loop over the lines: the patterns are tried in the order
    of the source, and the first branch that is taken ends the turn. *)
Definition parseLine (st : State.t) (line : string) : Result State.t :=
  match search inputPattern line with
  | Some (m1, m2) => Ok (onInput st m1 m2)
  | None =>
  match search offsetPattern line with
  | Some (m1, m2) => onOffset st m1 m2
  | None =>
  match search openPagePattern line with
  | Some m1 => Ok (onOpenPage st m1)
  | None =>
  match search closePagePattern line, State.currentPage st with
  | Some m1, Some currentPage => Ok (onClosePage st m1 currentPage)
  | _, _ =>
  match search verticalBlockPattern line with
  | Some m => onOpenBlock st false m
  | None =>
  match search closeverticalBlockPattern line with
  | Some _ => Ok (onCloseBlock st)
  | None =>
  match search horizontalBlockPattern line with
  | Some m => onOpenBlock st true m
  | None =>
  match search closehorizontalBlockPattern line with
  | Some _ => Ok (onCloseBlock st)
  | None =>
  match search elementBlockPattern line with
  | Some m => onElement st m
  | None => Ok st
  end end end end end end end end end.

Fixpoint parseLines (st : State.t) (lines : list string) : Result State.t :=
  match lines with
  | [] => Ok st
  | line :: rest => st' <- parseLine st line ;; parseLines st' rest
  end.

Definition newline : ascii := ascii_of_N 10.

(** [pdfsyncBody.split('\n')]: never empty. *)
Fixpoint split (s : string) : list string :=
  match s with
  | EmptyString => [EmptyString]
  | String c s' =>
      if Ascii.eqb c newline then EmptyString :: split s'
      else
        match split s' with
        | l :: ls => String c l :: ls
        | [] => [String c EmptyString]
        end
  end.

(** [s.replace(pattern, '')] with a text as pattern: its first occurrence is
    taken out. *)
Fixpoint removeFirst (pattern s : string) : string :=
  match lit pattern s with
  | Some (_, rest) => rest
  | None =>
      match s with
      | EmptyString => EmptyString
      | String c s' => String c (removeFirst pattern s')
      end
  end.

(** The body is a string here, so the test [pdfsyncBody === undefined] of
    the source never holds. *)
Definition parseSyncTex (pdfsyncBody : string) : Result PdfSyncObject.t :=
  let lineArray := split pdfsyncBody in
  let version := removeFirst "SyncTeX Version:" (hd EmptyString lineArray) in
  st <- parseLines State.initial (tl lineArray) ;;
  Ok {| PdfSyncObject.offset := State.offset st;
        PdfSyncObject.version := version;
        PdfSyncObject.files := State.files st;
        PdfSyncObject.pages := State.pages st;
        PdfSyncObject.blockNumberLine := State.blockNumberLine st;
        PdfSyncObject.hBlocks := State.hBlocks st;
        PdfSyncObject.numberPages := State.numberPages st;
        PdfSyncObject.store := State.store st |}.

(** The two queries as the module exports them, on the text of the
    synchronisation file rather than on its path: the file is parsed anew
    for each query. *)
Definition forwardOnText (line : N) (filePath : string) (text : string)
  : Result SyncTeXRecordForward.t :=
  pdfSyncObject <- parseSyncTex text ;;
  syncTexJsForward line filePath pdfSyncObject.

Definition backwardOnText (page : N) (x y : Q) (text : string)
  : Result SyncTeXRecordBackward.t :=
  pdfSyncObject <- parseSyncTex text ;;
  syncTexJsBackward page x y pdfSyncObject.

(** ** What the covering rectangle is specified to be

    The greatest (least) of a list of lengths, first as the specification
    words it, then with the value the reduction starts from. *)

Definition greatestOf (m : Q) (vs : list Q) : Prop :=
  (exists v, In v vs /\ (v == m)%Q) /\ forall v, In v vs -> (v <= m)%Q.

Definition leastOf (m : Q) (vs : list Q) : Prop :=
  (exists v, In v vs /\ (v == m)%Q) /\ forall v, In v vs -> (m <= v)%Q.

Definition seededMax (seed m : Q) (vs : list Q) : Prop :=
  (seed <= m)%Q /\ (forall v, In v vs -> (v <= m)%Q) /\ (m = seed \/ In m vs).

Definition seededMin (seed m : Q) (vs : list Q) : Prop :=
  (m <= seed)%Q /\ (forall v, In v vs -> (m <= v)%Q) /\ (m = seed \/ In m vs).

Definition blockTop (b : Block.t) : Q := (Block.bottom b - Block.height b)%Q.

Definition blockRight (b : Block.t) : option Q :=
  option_map (fun w => (Block.left b + w)%Q) (Block.width b).

(** The values that take part in a reduction. *)
Definition candidates (g : Block.t -> option Q) (blocks : list Block.t) : list Q :=
  flat_map (fun b => match g b with Some v => [v] | None => [] end) blocks.

Definition bottoms : list Block.t -> list Q := candidates (fun b => Some (Block.bottom b)).
Definition tops : list Block.t -> list Q := candidates (fun b => Some (blockTop b)).
Definition lefts : list Block.t -> list Q := candidates (fun b => Some (Block.left b)).
Definition rights : list Block.t -> list Q := candidates blockRight.

(** The rectangle of section 4.2 of the specification: plain maxima and
    minima over the list, the right edge being constrained only when some
    block has a width. *)
Definition boundingBoxSpec (blocks : list Block.t) (r : Rect.t) : Prop :=
  greatestOf (Rect.bottom r) (bottoms blocks)
  /\ leastOf (Rect.top r) (tops blocks)
  /\ leastOf (Rect.left r) (lefts blocks)
  /\ (rights blocks <> [] -> greatestOf (Rect.right r) (rights blocks)).

(** ** Sample data *)

(** An element of file [path], as the parser records one. *)
Definition element (path : string) (line page : N) (left bottom : Q)
    (width : option Q) (height : Q) : Block.t :=
  {| Block.type := "x";
     Block.parent := RefBlock 0;
     Block.fileNumber := 1;
     Block.file := Some {| File.path := path |};
     Block.line := line;
     Block.left := left;
     Block.bottom := bottom;
     Block.width := width;
     Block.height := height;
     Block.depth := None;
     Block.blocks := None;
     Block.elements := None;
     Block.page := page |}.

(** A model that holds nothing but a line index and an offset. *)
Definition modelOf (offset : Offset.t) (blockNumberLine : BlockNumberLine)
  : PdfSyncObject.t :=
  {| PdfSyncObject.offset := offset;
     PdfSyncObject.version := "1";
     PdfSyncObject.files := [("1"%string, {| File.path := "/doc/main.tex" |})];
     PdfSyncObject.pages := [];
     PdfSyncObject.blockNumberLine := blockNumberLine;
     PdfSyncObject.hBlocks := [];
     PdfSyncObject.numberPages := 1;
     PdfSyncObject.store := [] |}.

Definition noOffset : Offset.t := {| Offset.x := 0; Offset.y := 0 |}.

(** A block below the origin, and one whose height is negative. *)
Definition sunkBlock : Block.t := element "/doc/main.tex" 12 1 0 (-1) (Some 1) 1.
Definition upsideDownBlock : Block.t := element "/doc/main.tex" 12 1 0 5 (Some 1) (-10).
Definition plainBlock : Block.t := element "/doc/main.tex" 12 1 3 8 (Some 4) 2.
Definition bareBlock : Block.t := element "/doc/main.tex" 12 1 1 9 None 3.

(** One bucket on page 1 whose covering rectangle is left = 0, right = 10,
    bottom = 10, top = 0. *)
Definition squareBlock : Block.t := element "/doc/main.tex" 12 1 0 10 (Some 10) 10.

Definition squareModel : PdfSyncObject.t :=
  modelOf noOffset [("/doc/main.tex"%string, [(12%N, [(1%N, [squareBlock])])])].

(** The same bucket, followed by a flat one that lies next to the point
    (5, 5) without containing it. *)
Definition flatBlock : Block.t := element "/doc/main.tex" 30 1 0 4 (Some 10) 0.

Definition twoBucketModel : PdfSyncObject.t :=
  modelOf noOffset
    [("/doc/main.tex"%string,
      [(12%N, [(1%N, [squareBlock])]); (30%N, [(1%N, [flatBlock])])])].

(** ** What forward search is specified to return *)

(** The position computed directly from a bucket: the covering rectangle of
    its elements, moved by the offset, on the page of its first element. *)
Definition directLocation (offset : Offset.t) (blocks : list Block.t) (b : Block.t)
  : SyncTeXRecordForward.t :=
  {| SyncTeXRecordForward.page := Block.page b;
     SyncTeXRecordForward.x := (Rect.left (getCoveringRectangle blocks) + Offset.x offset)%Q;
     SyncTeXRecordForward.y := (Rect.bottom (getCoveringRectangle blocks) + Offset.y offset)%Q |}.

(** [blocks] is the bucket that [Object.keys] lists first among the page
    buckets of line [l], and [b] is its first element. *)
Definition firstBucket (linePageBlocks : LinePageBlocks) (l : N)
    (blocks : list Block.t) (b : Block.t) : Prop :=
  exists pageBlocks page,
    get l linePageBlocks = Some pageBlocks
    /\ hd_error (keys pageBlocks) = Some page
    /\ get page pageBlocks = Some blocks
    /\ hd_error blocks = Some b.

(** The value that linear interpolation gives between two bottoms. *)
Definition interpolated (bottom0 bottom1 : Q) (line0 line line1 : N) : Q :=
  (bottom0 * (num line1 - num line) / (num line1 - num line0)
   + bottom1 * (num line - num line0) / (num line1 - num line0))%Q.

Definition between (a v b : Q) : Prop :=
  ((a <= v)%Q /\ (v <= b)%Q) \/ ((b <= v)%Q /\ (v <= a)%Q).

Definition lf : string := String newline EmptyString.

(** A line index with three recorded lines, 12, 14 and 20. *)
Definition threeLines : PdfSyncObject.t :=
  modelOf {| Offset.x := 1; Offset.y := 2 |}
    [("/doc/main.tex"%string,
      [(12%N, [(1%N, [element "/doc/main.tex" 12 1 3 8 (Some 4) 2])]);
       (20%N, [(2%N, [element "/doc/main.tex" 20 2 5 30 None 2])]);
       (14%N, [(1%N, [element "/doc/main.tex" 14 1 3 16 (Some 4) 2;
                      element "/doc/main.tex" 14 1 7 18 (Some 4) 2])])])].

(** A synchronisation text in which page 2 comes before page 1, line 12 of
    the source having an element on each. *)
Definition reversedPages : string :=
  ("SyncTeX Version:1" ++ lf ++ "Input:1:/doc/main.tex" ++ lf
   ++ "{2" ++ lf
   ++ "(1,12:6578176,13156352:65781760,657817600,0" ++ lf
   ++ "x1,12:6578176,13156352:6578176" ++ lf
   ++ ")" ++ lf ++ "}2" ++ lf
   ++ "{1" ++ lf
   ++ "(1,12:19734528,26312704:65781760,657817600,0" ++ lf
   ++ "x1,12:19734528,26312704:6578176" ++ lf
   ++ ")" ++ lf ++ "}1" ++ lf)%string.

(** A line index in which line 12 has a bucket on page 2, recorded first,
    and a bucket on page 1. *)
Definition twoPages : PdfSyncObject.t :=
  modelOf {| Offset.x := 1; Offset.y := 2 |}
    [("/doc/main.tex"%string,
      [(12%N, [(2%N, [element "/doc/main.tex" 12 2 3 8 (Some 4) 2]);
               (1%N, [element "/doc/main.tex" 12 1 5 30 None 2])])])].

(** ** What backward search is specified to find *)

(** The bucket of a file, a line and a page. *)
Definition bucketAt (blockNumberLine : BlockNumberLine) (fileName : string)
    (lineNum pageNum : N) (blocks : list Block.t) : Prop :=
  exists linePageBlocks pageBlocks,
    get fileName blockNumberLine = Some linePageBlocks
    /\ get lineNum linePageBlocks = Some pageBlocks
    /\ get pageNum pageBlocks = Some blocks.


(** A bucket answers the query when it passes the containment test or lies
    nearer than the distance the scan starts from. *)
Definition answers (x0 y0 : Q) (blocks : list Block.t) : Prop :=
  insideBox (getCoveringRectangle blocks) x0 y0 = true
  \/ (boxDistance (getCoveringRectangle blocks) x0 y0 < sentinel)%Q.

Definition pageHasAnswer (page : N) (x0 y0 : Q) (blockNumberLine : BlockNumberLine)
  : Prop :=
  exists fileName lineNum blocks,
    bucketAt blockNumberLine fileName lineNum page blocks /\ answers x0 y0 blocks.


(** ** The loops of backward search

    The three loops have one shape; the candidate they carry is either the
    initial one or a bucket of the index nearer than the initial distance. *)

Fixpoint loopOver {A : Type} (visit : A -> Candidate.t -> BackwardLoop)
    (l : list A) (record : Candidate.t) : BackwardLoop :=
  match l with
  | [] => Running record
  | a :: rest =>
      match visit a record with
      | Running record' => loopOver visit rest record'
      | stop => stop
      end
  end.

Definition Good (record : Candidate.t) : Prop :=
  Candidate.input record <> EmptyString /\ (Candidate.distance record < sentinel)%Q.

Definition Inv (record : Candidate.t) : Prop :=
  record = initialCandidate \/ Good record.

Definition Fine (l : BackwardLoop) : Prop :=
  match l with
  | Returned r => SyncTeXRecordBackward.column r = 0%N
  | Running record => Inv record
  | Thrown _ => False
  end.

Definition Done (l : BackwardLoop) : Prop :=
  match l with
  | Returned r => SyncTeXRecordBackward.column r = 0%N
  | Running record => Good record
  | Thrown _ => False
  end.

(** What the body of a loop must guarantee for an item, [hit] telling the
    items that hold an answer. *)
Definition SoundVisit {A : Type} (visit : A -> Candidate.t -> BackwardLoop)
    (hit : A -> Prop) (a : A) : Prop :=
  forall record,
    (Inv record -> Fine (visit a record))
    /\ (Good record -> Done (visit a record))
    /\ (hit a -> Inv record -> Done (visit a record)).

(** The items of each loop that hold an answer to the query. *)
Definition pageHit (page : N) (x0 y0 : Q) (pageBlocks : PageBlocks) (pageNum : N)
  : Prop :=
  page = pageNum
  /\ exists blocks, get pageNum pageBlocks = Some blocks /\ answers x0 y0 blocks.

Definition lineHit (page : N) (x0 y0 : Q) (linePageBlocks : LinePageBlocks)
    (lineNum : N) : Prop :=
  exists pageBlocks,
    get lineNum linePageBlocks = Some pageBlocks
    /\ pageHit page x0 y0 pageBlocks page.

Definition fileHit (page : N) (x0 y0 : Q) (blockNumberLine : BlockNumberLine)
    (fileName : string) : Prop :=
  exists linePageBlocks lineNum,
    get fileName blockNumberLine = Some linePageBlocks
    /\ lineHit page x0 y0 linePageBlocks lineNum.

(** ** Close markers *)

Definition isNone {A : Type} (o : option A) : bool :=
  match o with
  | None => true
  | Some _ => false
  end.

(** The turn of the loop on [line] goes to one of the two branches that
    close a block: no earlier branch is taken. *)
Definition closeMarker (st : State.t) (line : string) : bool :=
  isNone (search inputPattern line)
  && isNone (search offsetPattern line)
  && isNone (search openPagePattern line)
  && (isNone (search closePagePattern line) || isNone (State.currentPage st))
  && isNone (search verticalBlockPattern line)
  && (negb (isNone (search closeverticalBlockPattern line))
      || (isNone (search horizontalBlockPattern line)
          && negb (isNone (search closehorizontalBlockPattern line)))).

(** No block is open: the current element is undefined or a page. *)
Definition noBlockOpen (st : State.t) : Prop :=
  match State.currentElement st with
  | Some (RefBlock _) => False
  | _ => True
  end.

(** A close marker right after the banner, and one inside a bare page. *)
Definition orphanClose : string := ("SyncTeX Version:1" ++ lf ++ "]")%string.

Definition orphanCloseInPage : string :=
  ("SyncTeX Version:1" ++ lf ++ "{1" ++ lf ++ ")" ++ lf ++ "}1")%string.

Definition emptyPage : string :=
  ("SyncTeX Version:1" ++ lf ++ "{1" ++ lf ++ "}1")%string.

Definition emptyModel : PdfSyncObject.t :=
  {| PdfSyncObject.offset := {| Offset.x := 0; Offset.y := 0 |};
     PdfSyncObject.version := "1";
     PdfSyncObject.files := [];
     PdfSyncObject.pages := [];
     PdfSyncObject.blockNumberLine := [];
     PdfSyncObject.hBlocks := [];
     PdfSyncObject.numberPages := 0;
     PdfSyncObject.store := [] |}.

(** ** Well-formed line indexes

    What the parser guarantees of the index it builds: no file name is
    empty, every recorded line has a page bucket, and no bucket is empty. *)
Definition wellFormedIndex (blockNumberLine : BlockNumberLine) : Prop :=
  forall fileName linePageBlocks,
    In (fileName, linePageBlocks) blockNumberLine ->
    fileName <> EmptyString
    /\ forall lineNum pageBlocks,
         In (lineNum, pageBlocks) linePageBlocks ->
         pageBlocks <> []
         /\ forall pageNum blocks, In (pageNum, blocks) pageBlocks -> blocks <> [].

(** The invariant of the loop over the lines. *)
Definition wellFormedState (st : State.t) : Prop :=
  wellFormedIndex (State.blockNumberLine st)
  /\ forall k f, In (k, f) (State.files st) -> File.path f <> EmptyString.

Definition isEmpty {A : Type} (l : list A) : bool :=
  match l with
  | [] => true
  | _ :: _ => false
  end.

(** A check of well-formedness. *)
Definition wellFormedIndexb (blockNumberLine : BlockNumberLine) : bool :=
  forallb
    (fun file : string * LinePageBlocks =>
       negb (String.eqb (fst file) EmptyString)
       && forallb
            (fun line : N * PageBlocks =>
               negb (isEmpty (snd line))
               && forallb
                    (fun bucket : N * list Block.t => negb (isEmpty (snd bucket)))
                    (snd line))
            (snd file))
    blockNumberLine.

(** ** Sample texts *)

(** One horizontal block of line 12 on page 1, with one element whose
    covering rectangle is left = 0, right = 100, bottom = 100, top = 0. *)
Definition squareText : string :=
  ("SyncTeX Version:1" ++ lf ++ "Input:1:/doc/main.tex" ++ lf
   ++ "{1" ++ lf
   ++ "(1,12:0,6578176:6578176,6578176,0" ++ lf
   ++ "x1,12:0,6578176:6578176" ++ lf
   ++ ")" ++ lf ++ "}1" ++ lf)%string.

(** The same with a block of negative height. *)
Definition upsideDownText : string :=
  ("SyncTeX Version:1" ++ lf ++ "Input:1:/doc/main.tex" ++ lf
   ++ "{1" ++ lf
   ++ "(1,12:0,6578176:6578176,-6578176,0" ++ lf
   ++ "x1,12:0,6578176:6578176" ++ lf
   ++ ")" ++ lf ++ "}1" ++ lf)%string.

(** The same with an element at 2e16 + 100 from the left edge. *)
Definition farLeftText : string :=
  ("SyncTeX Version:1" ++ lf ++ "Input:1:/doc/main.tex" ++ lf
   ++ "{1" ++ lf
   ++ "(1,12:0,6578176:6578176,6578176,0" ++ lf
   ++ "x1,12:1315635200000006578176,6578176:6578176" ++ lf
   ++ ")" ++ lf ++ "}1" ++ lf)%string.

(** The bucket of a file, a line and a page in the model of a text. *)
Definition bucketOfText (text : string) (fileName : string) (lineNum pageNum : N)
  : option (list Block.t) :=
  match parseSyncTex text with
  | Ok o =>
      match get fileName (PdfSyncObject.blockNumberLine o) with
      | Some linePageBlocks =>
          match get lineNum linePageBlocks with
          | Some pageBlocks => get pageNum pageBlocks
          | None => None
          end
      | None => None
      end
  | Err _ => None
  end.

(** ** The order in which backward search scans the buckets *)

Module Bucket.
Record t : Type := { fileName : string; lineNum : N; blocks : list Block.t }.
End Bucket.











(** Two rectangles with the same edges, as rationals. *)
Definition sameRect (r r' : Rect.t) : Prop :=
  (Rect.top r == Rect.top r')%Q /\ (Rect.bottom r == Rect.bottom r')%Q
  /\ (Rect.left r == Rect.left r')%Q /\ (Rect.right r == Rect.right r')%Q.

(** ** Invariants of the parser *)

(** The model that [parseSyncTex] returns for the final state of its loop. *)
Definition finish (version : string) (st : State.t) : PdfSyncObject.t :=
  {| PdfSyncObject.offset := State.offset st;
     PdfSyncObject.version := version;
     PdfSyncObject.files := State.files st;
     PdfSyncObject.pages := State.pages st;
     PdfSyncObject.blockNumberLine := State.blockNumberLine st;
     PdfSyncObject.hBlocks := State.hBlocks st;
     PdfSyncObject.numberPages := State.numberPages st;
     PdfSyncObject.store := State.store st |}.

(** A property of the state that every branch of the loop keeps. *)
Record Preserved (P : State.t -> Prop) : Prop := {
  keeps_input : forall st line m1 m2,
    P st -> search inputPattern line = Some (m1, m2) -> P (onInput st m1 m2);
  keeps_offset : forall st line m1 m2 st',
    P st -> search offsetPattern line = Some (m1, m2) ->
    onOffset st m1 m2 = Ok st' -> P st';
  keeps_openPage : forall st m1, P st -> P (onOpenPage st m1);
  keeps_closePage : forall st m1 currentPage,
    P st -> State.currentPage st = Some currentPage ->
    P (onClosePage st m1 currentPage);
  keeps_openBlock : forall st horizontal m st',
    P st -> onOpenBlock st horizontal m = Ok st' -> P st';
  keeps_closeBlock : forall st, P st -> P (onCloseBlock st);
  keeps_element : forall st line m st',
    P st -> search elementBlockPattern line = Some m ->
    onElement st m = Ok st' -> P st'
}.

(** Every element of every bucket of the index. *)
Definition indexForall (Q : string -> N -> N -> Block.t -> Prop)
    (blockNumberLine : BlockNumberLine) : Prop :=
  forall fileName linePageBlocks lineNum pageBlocks pageNum blocks e,
    In (fileName, linePageBlocks) blockNumberLine ->
    In (lineNum, pageBlocks) linePageBlocks ->
    In (pageNum, blocks) pageBlocks ->
    In e blocks ->
    Q fileName lineNum pageNum e.

(** The element is one of that file, line and page. *)
Definition filedUnder (fileName : string) (lineNum pageNum : N) (e : Block.t) : Prop :=
  Block.file e = Some {| File.path := fileName |}
  /\ Block.line e = lineNum
  /\ Block.page e = pageNum
  /\ Block.blocks e = None.

Definition nonNegative (e : Block.t) : Prop :=
  (0 <= Block.left e)%Q /\ (0 <= Block.bottom e)%Q
  /\ forall w, Block.width e = Some w -> (0 <= w)%Q.

Definition recordedElement (numberPages : N) (fileName : string)
    (lineNum pageNum : N) (e : Block.t) : Prop :=
  filedUnder fileName lineNum pageNum e /\ nonNegative e
  /\ (Block.page e <= numberPages)%N.

Definition elementsState (st : State.t) : Prop :=
  indexForall (recordedElement (State.numberPages st)) (State.blockNumberLine st)
  /\ (0 <= Offset.x (State.offset st))%Q
  /\ (0 <= Offset.y (State.offset st))%Q
  /\ forall p, State.currentPage st = Some p -> (Page.page p <= State.numberPages st)%N.

(** A text whose only element carries signs: line 12 of the file, page 1. *)
Definition signedText : string :=
  ("SyncTeX Version:1" ++ lf ++ "Input:1:/doc/main.tex" ++ lf
   ++ "X Offset:6578176" ++ lf
   ++ "{1" ++ lf
   ++ "(1,12:0,6578176:6578176,6578176,0" ++ lf
   ++ "x1,12:-6578176,-13156352:-6578176" ++ lf
   ++ ")" ++ lf ++ "}1" ++ lf)%string.

Definition signedElement : Block.t :=
  {| Block.type := "x";
     Block.parent := RefBlock 0;
     Block.fileNumber := 1;
     Block.file := Some {| File.path := "/doc/main.tex" |};
     Block.line := 12;
     Block.left := (num 6578176 / unit_)%Q;
     Block.bottom := (num 13156352 / unit_)%Q;
     Block.width := Some (num 6578176 / unit_)%Q;
     Block.height := (inject_Z 6578176 / unit_)%Q;
     Block.depth := None;
     Block.blocks := None;
     Block.elements := None;
     Block.page := 1 |}.

Definition signedModel : PdfSyncObject.t :=
  {| PdfSyncObject.offset := {| Offset.x := (num 6578176 / unit_)%Q; Offset.y := 0 |};
     PdfSyncObject.version := "1";
     PdfSyncObject.files := [("1"%string, {| File.path := "/doc/main.tex" |})];
     PdfSyncObject.pages :=
       [("1"%string, {| Page.page := 1; Page.blocks := []; Page.type := "page" |})];
     PdfSyncObject.blockNumberLine :=
       [("/doc/main.tex"%string, [(12%N, [(1%N, [signedElement])])])];
     PdfSyncObject.hBlocks := [0%nat];
     PdfSyncObject.numberPages := 1;
     PdfSyncObject.store :=
       [{| Block.type := "horizontal";
           Block.parent :=
             RefPage {| Page.page := 1; Page.blocks := []; Page.type := "page" |};
           Block.fileNumber := 1;
           Block.file := Some {| File.path := "/doc/main.tex" |};
           Block.line := 12;
           Block.left := (inject_Z 0 / unit_)%Q;
           Block.bottom := (inject_Z 6578176 / unit_)%Q;
           Block.width := Some (inject_Z 6578176 / unit_)%Q;
           Block.height := (inject_Z 6578176 / unit_)%Q;
           Block.depth := None;
           Block.blocks := Some [];
           Block.elements := Some [1%nat];
           Block.page := 1 |};
        signedElement] |}.

(** A page as the parser makes it: [blocks] stays empty. *)
Definition pageOk (numberPages : N) (p : Page.t) : Prop :=
  Page.blocks p = [] /\ Page.type p = "page"%string
  /\ (Page.page p <= numberPages)%N.

Definition pagesState (st : State.t) : Prop :=
  (forall p, State.currentPage st = Some p -> pageOk (State.numberPages st) p)
  /\ forall k p, In (k, p) (State.pages st) -> pageOk (State.numberPages st) p.

(** The branch that a turn of the loop takes, with the tests that lead to
    it, and what the turn yields. *)
Inductive Taken (st : State.t) (line : string) : Result State.t -> Prop :=
| TakenInput m1 m2 :
    search inputPattern line = Some (m1, m2) ->
    Taken st line (Ok (onInput st m1 m2))
| TakenOffset m1 m2 :
    search inputPattern line = None ->
    search offsetPattern line = Some (m1, m2) ->
    Taken st line (onOffset st m1 m2)
| TakenOpenPage m1 :
    search inputPattern line = None ->
    search offsetPattern line = None ->
    search openPagePattern line = Some m1 ->
    Taken st line (Ok (onOpenPage st m1))
| TakenClosePage m1 currentPage :
    search openPagePattern line = None ->
    search closePagePattern line = Some m1 ->
    State.currentPage st = Some currentPage ->
    Taken st line (Ok (onClosePage st m1 currentPage))
| TakenOpenBlock (horizontal : bool) (m : BlockMatch.t) :
    search inputPattern line = None ->
    search offsetPattern line = None ->
    search openPagePattern line = None ->
    search (if horizontal then horizontalBlockPattern else verticalBlockPattern) line
    = Some m ->
    Taken st line (onOpenBlock st horizontal m)
| TakenCloseBlock :
    search openPagePattern line = None ->
    closeMarker st line = true ->
    Taken st line (Ok (onCloseBlock st))
| TakenElement (m : ElementMatch.t) :
    search inputPattern line = None ->
    search offsetPattern line = None ->
    search openPagePattern line = None ->
    search verticalBlockPattern line = None ->
    search horizontalBlockPattern line = None ->
    search elementBlockPattern line = Some m ->
    Taken st line (onElement st m)
| TakenNothing :
    search openPagePattern line = None ->
    search verticalBlockPattern line = None ->
    search horizontalBlockPattern line = None ->
    search elementBlockPattern line = None ->
    Taken st line (Ok st).

(** The line opens a block or records an element when no page is open:
    the branches that need a context. *)
Definition needsContext (line : string) : bool :=
  isNone (search inputPattern line)
  && isNone (search offsetPattern line)
  && isNone (search openPagePattern line)
  && (negb (isNone (search verticalBlockPattern line))
      || (isNone (search closeverticalBlockPattern line)
          && (negb (isNone (search horizontalBlockPattern line))
              || (isNone (search closehorizontalBlockPattern line)
                  && negb (isNone (search elementBlockPattern line)))))).

(** No page was ever opened. *)
Definition noPage (st : State.t) : Prop :=
  State.currentPage st = None /\ State.currentElement st = None.

(** The errors that the parser raises for a line out of its context. *)
Definition contextError (e : Error) : Prop :=
  e = SyncTexJsError vBlockMessage \/ e = SyncTexJsError hBlockMessage
  \/ e = SyncTexJsError elementMessage.

(** A block opened right after the banner. *)
Definition blockBeforePage : string :=
  ("SyncTeX Version:1" ++ lf ++ "Input:1:/doc/main.tex" ++ lf
   ++ "[1,12:0,6578176:6578176,6578176,0" ++ lf ++ "{1" ++ lf ++ "}1")%string.

(** An element of file 1 where the file was declared as 01. *)
Definition undeclaredFile : string :=
  ("SyncTeX Version:1" ++ lf ++ "Input:01:/doc/main.tex" ++ lf
   ++ "{1" ++ lf
   ++ "(1,12:0,6578176:6578176,6578176,0" ++ lf
   ++ "x1,12:6578176,13156352" ++ lf
   ++ ")" ++ lf ++ "}1" ++ lf)%string.

(** ** The store of blocks *)

(** The block at a position of the store is a box, with a list of blocks of
    its own, not an element. *)
Definition isBoxAt (store : list Block.t) (id : nat) : Prop :=
  exists b, nth_error store id = Some b /\ Block.blocks b <> None.

(** The store is a forest in the order of allocation: the parent of a block
    is a box allocated before it, and the blocks and elements that a box
    lists are boxes and elements whose parent it is. *)
Definition storeOk (store : list Block.t) : Prop :=
  (forall i b p,
     nth_error store i = Some b -> Block.parent b = RefBlock p ->
     (p < i)%nat /\ isBoxAt store p)
  /\ (forall i b l j,
        nth_error store i = Some b -> Block.blocks b = Some l -> In j l ->
        exists c, nth_error store j = Some c
                  /\ Block.parent c = RefBlock i /\ Block.blocks c <> None)
  /\ (forall i b l j,
        nth_error store i = Some b -> Block.elements b = Some l -> In j l ->
        exists c, nth_error store j = Some c
                  /\ Block.parent c = RefBlock i /\ Block.blocks c = None).

Definition storeState (st : State.t) : Prop :=
  storeOk (State.store st)
  /\ forall id, State.currentElement st = Some (RefBlock id) ->
                isBoxAt (State.store st) id.

(** Two blocks with the same parent and page, both boxes or both elements. *)
Definition sameShape (c c' : Block.t) : Prop :=
  Block.parent c' = Block.parent c
  /\ (Block.blocks c' = None <-> Block.blocks c = None)
  /\ Block.page c' = Block.page c.

(** The page that encloses a block: the end of its chain of parents. *)
Fixpoint enclosingPage (fuel : nat) (store : list Block.t) (i : nat) : option Page.t :=
  match fuel with
  | O => None
  | S fuel' =>
      match nth_error store i with
      | Some b =>
          match Block.parent b with
          | RefPage p => Some p
          | RefBlock j => enclosingPage fuel' store j
          end
      | None => None
      end
  end.

(** The page of a block is the page of what encloses it. *)
Definition pagesOk (store : list Block.t) : Prop :=
  forall i b,
    nth_error store i = Some b ->
    match Block.parent b with
    | RefPage p => Page.page p = Block.page b
    | RefBlock j => exists pb, nth_error store j = Some pb /\ Block.page pb = Block.page b
    end.

Definition pageChainState (st : State.t) : Prop :=
  pagesOk (State.store st)
  /\ forall currentPage r,
       State.currentPage st = Some currentPage ->
       State.currentElement st = Some r ->
       match r with
       | RefPage p => Page.page p = Page.page currentPage
       | RefBlock id =>
           exists b, nth_error (State.store st) id = Some b
                     /\ Block.page b = Page.page currentPage
       end.

(** Two blocks inside one another and an element in each. *)
Definition nestedText : string :=
  ("SyncTeX Version:1" ++ lf ++ "Input:1:/doc/main.tex" ++ lf
   ++ "{1" ++ lf
   ++ "[1,12:0,6578176:6578176,6578176,0" ++ lf
   ++ "x1,12:6578176,13156352" ++ lf
   ++ "(1,13:0,6578176:6578176,6578176,0" ++ lf
   ++ "x1,13:6578176,13156352" ++ lf
   ++ ")" ++ lf ++ "]" ++ lf ++ "}1" ++ lf)%string.

(** The model that the parser builds for [nestedText]. *)
Definition nestedModel : PdfSyncObject.t :=
  match parseSyncTex nestedText with
  | Ok o => o
  | Err _ => emptyModel
  end.

Definition nestedStore : list Block.t := PdfSyncObject.store nestedModel.

(** ** The index and the horizontal blocks, read off the store *)

(** The positions of the blocks of a store that satisfy a test. *)
Fixpoint positionsFrom (p : Block.t -> bool) (i : nat) (store : list Block.t)
  : list nat :=
  match store with
  | [] => []
  | b :: store' => (if p b then [i] else []) ++ positionsFrom p (S i) store'
  end.

Definition positions (p : Block.t -> bool) (store : list Block.t) : list nat :=
  positionsFrom p 0 store.

Definition isHorizontal (b : Block.t) : bool := String.eqb (Block.type b) "horizontal".

Definition hBlocksState (st : State.t) : Prop :=
  State.hBlocks st = positions isHorizontal (State.store st).

(** The bucket of a file, a line and a page, empty when there is none. *)
Definition bucketOf (blockNumberLine : BlockNumberLine) (fileName : string)
    (lineNum pageNum : N) : list Block.t :=
  match get pageNum (orEmpty (get lineNum (orEmpty (get fileName blockNumberLine)))) with
  | Some blocks => blocks
  | None => []
  end.

(** The block is an element of that file, line and page. *)
Definition isElementOf (fileName : string) (lineNum pageNum : N) (e : Block.t) : bool :=
  isNone (Block.blocks e)
  && match Block.file e with
     | Some f => String.eqb (File.path f) fileName
     | None => false
     end
  && (Block.line e =? lineNum)%N
  && (Block.page e =? pageNum)%N.

Definition indexState (st : State.t) : Prop :=
  storeState st
  /\ forall fileName lineNum pageNum,
       bucketOf (State.blockNumberLine st) fileName lineNum pageNum
       = filter (isElementOf fileName lineNum pageNum) (State.store st).

(** ** The texts on which the model of the parser is exact *)

(** The properties that a plain object inherits from [Object.prototype].
    The source reads [blockNumberLine[path]] through the prototype chain: for
    a path that is one of these names the test [=== undefined] fails although
    the object has no entry of its own, and with [__proto__] the writes that
    follow land in [Object.prototype] itself.  [onElement] looks an entry up
    among the own properties only, so it follows the source on the texts
    that declare no file under one of these names. *)
Definition inheritedNames : list string :=
  ["constructor"; "__defineGetter__"; "__defineSetter__"; "hasOwnProperty";
   "__lookupGetter__"; "__lookupSetter__"; "isPrototypeOf";
   "propertyIsEnumerable"; "toString"; "valueOf"; "__proto__";
   "toLocaleString"]%string.

Definition isInherited (name : string) : bool :=
  existsb (String.eqb name) inheritedNames.

(** No [Input] line of the text declares a file under an inherited name. *)
Definition plainPaths (text : string) : bool :=
  forallb (fun line =>
             match search inputPattern line with
             | Some (_, path) => negb (isInherited path)
             | None => true
             end)
          (tl (split text)).

(** The file number and the line number of every element line, and the
    number of every page, are below [2^53]: the range in which [parseInt]
    of the source, which returns a double, reads the number that is written,
    and in which the number used as a property key is written back in plain
    decimal form. *)
Definition exactNumbers (text : string) : bool :=
  forallb (fun line =>
             match search elementBlockPattern line with
             | Some m =>
                 (parseInt (ElementMatch.m2 m) <? 2 ^ 53)%N
                 && (parseInt (ElementMatch.m3 m) <? 2 ^ 53)%N
             | None => true
             end
             && match search openPagePattern line with
                | Some m1 => (parseInt m1 <? 2 ^ 53)%N
                | None => true
                end)
          (tl (split text)).

(** ** The arithmetic of binary64 *)

(** The lengths of the source are doubles.  Comparisons, maxima and minima
    of doubles are those of the rationals they stand for, which is why the
    rest of the model computes on rationals; the sums, products and quotients
    are rounded, and where a statement depends on the rounding the operations
    below are used: the exact result rounded to the nearest double, ties to
    the even significand.  Subnormal numbers are rounded on their fixed grid
    of [2^-1074]; the overflow to [Infinity] is not modelled, so that the
    operations are those of the source for results below [2^1024] in
    absolute value. *)
Section Binary64.
Local Open Scope Q_scope.

Definition pow2 (e : Z) : Q := 2 ^ e.

(** The integer [k] with [2^k <= q < 2^(k+1)], for a positive [q]. *)
Definition ilog2 (q : Q) : Z :=
  let k := (Z.log2 (Qnum q) - Z.log2 (Zpos (Qden q)))%Z in
  if Qltb q (pow2 k) then (k - 1)%Z else k.

(** The nearest integer, the even one of two that are equally near. *)
Definition nearestEven (m : Q) : Z :=
  let f := Qfloor m in
  match Qcompare (m - inject_Z f) (1 # 2) with
  | Lt => f
  | Gt => (f + 1)%Z
  | Eq => if Z.even f then f else (f + 1)%Z
  end.

(** A positive number rounded to 53 significant bits. *)
Definition roundPos (q : Q) : Q :=
  let e := Z.max (ilog2 q - 52) (-1074) in
  inject_Z (nearestEven (q / pow2 e)) * pow2 e.

Definition round64 (q : Q) : Q :=
  match Qcompare q 0 with
  | Eq => 0
  | Gt => roundPos q
  | Lt => - roundPos (- q)
  end.

Definition fadd (a b : Q) : Q := round64 (a + b).
Definition fsub (a b : Q) : Q := round64 (a - b).
Definition fmul (a b : Q) : Q := round64 (a * b).
Definition fdiv (a b : Q) : Q := round64 (a / b).

(** [c0.bottom * (line1 - line) / (line1 - line0)
     + c1.bottom * (line - line0) / (line1 - line0)], as the source computes
    it: every operation rounded, products before quotients. *)
Definition interpolated64 (bottom0 bottom1 : Q) (line0 line line1 : N) : Q :=
  fadd (fdiv (fmul bottom0 (fsub (num line1) (num line))) (fsub (num line1) (num line0)))
       (fdiv (fmul bottom1 (fsub (num line) (num line0))) (fsub (num line1) (num line0))).

(** [syncTexJsForward] with its three sums and its interpolation rounded.
    The covering rectangles are those of [getCoveringRectangle]: the bottom
    and left edges that are read here are selected among the blocks, not
    computed. *)
Definition syncTexJsForward64 (line : N) (filePath : string)
    (pdfSyncObject : PdfSyncObject.t) : Result SyncTeXRecordForward.t :=
  let offset := PdfSyncObject.offset pdfSyncObject in
  linePageBlocks <- defined (get filePath (PdfSyncObject.blockNumberLine pdfSyncObject)) ;;
  let lineNums := sortNumbers (keys linePageBlocks) in
  let i := findIndex (fun x => (line <=? x)%N) lineNums in
  if (i =? 0)%Z
     || match at_ lineNums i with Some l => (l =? line)%N | None => false end
  then
    blocks <- firstPageBlocks linePageBlocks (at_ lineNums i) ;;
    let c := getCoveringRectangle blocks in
    b <- defined (hd_error blocks) ;;
    Ok {| SyncTeXRecordForward.page := Block.page b;
          SyncTeXRecordForward.x := fadd (Rect.left c) (Offset.x offset);
          SyncTeXRecordForward.y := fadd (Rect.bottom c) (Offset.y offset) |}
  else
    blocks0 <- firstPageBlocks linePageBlocks (at_ lineNums (i - 1)) ;;
    let c0 := getCoveringRectangle blocks0 in
    blocks1 <- firstPageBlocks linePageBlocks (at_ lineNums i) ;;
    let c1 := getCoveringRectangle blocks1 in
    line0 <- defined (at_ lineNums (i - 1)) ;;
    line1 <- defined (at_ lineNums i) ;;
    let bottom := interpolated64 (Rect.bottom c0) (Rect.bottom c1) line0 line line1 in
    b <- defined (hd_error blocks1) ;;
    Ok {| SyncTeXRecordForward.page := Block.page b;
          SyncTeXRecordForward.x := fadd (Rect.left c1) (Offset.x offset);
          SyncTeXRecordForward.y := fadd bottom (Offset.y offset) |}.

(** The relative error of one rounding, and the factors by which a rounded
    result exceeds or falls short of the exact one at most. *)
Definition ulp : Q := pow2 (-53).
Definition up : Q := 1 + ulp.
Definition down : Q := 1 - ulp.

(** Zero, or at least [t]. *)
Definition sizeable (t x : Q) : Prop := x == 0 \/ t <= x.

Definition tiny : Q := pow2 (-900).
Definition huge : Q := pow2 900.

(** A length that is zero or neither so small nor so large that a step of
    the interpolation could leave the normal range of binary64. *)
Definition moderate (x : Q) : Prop := x == 0 \/ (tiny <= x /\ x <= huge).

(** [v] lies between [a] and [b] up to the relative error [2^-50]. *)
Definition slack : Q := pow2 (-50).

Definition nearlyBetween (a v b : Q) : Prop :=
  (a * (1 - slack) <= v /\ v <= b * (1 + slack))
  \/ (b * (1 - slack) <= v /\ v <= a * (1 + slack)).

(** The blocks of the first page bucket of a line, as forward search reads
    them. *)
Definition firstBlocks (linePageBlocks : LinePageBlocks) (l : N) : list Block.t :=
  match firstPageBlocks linePageBlocks (Some l) with
  | Ok blocks => blocks
  | Err _ => []
  end.

(** [65781.76] as a double, and the bottom that the source computes for an
    element whose text gives 1327685: [Number("1327685") / unit]. *)
Definition unit64 : Q := round64 unit_.
Definition levelBottom : Q := fdiv 1327685 unit64.

(** Two recorded lines, 10 and 15, whose elements have the same bottom. *)
Definition levelLines : PdfSyncObject.t :=
  modelOf noOffset
    [("/doc/main.tex"%string,
      [(10%N, [(1%N, [element "/doc/main.tex" 10 1 0 levelBottom None 0])]);
       (15%N, [(1%N, [element "/doc/main.tex" 15 1 0 levelBottom None 0])])])].

(** The same computations with the operations of the Standard Library's
    specification of IEEE 754, at the precision and the exponent range of
    binary64. *)
Definition specValue (f : SpecFloat.spec_float) : option Q :=
  match f with
  | SpecFloat.S754_zero _ => Some 0
  | SpecFloat.S754_finite s m e =>
      Some ((if s then -1 else 1) * inject_Z (Zpos m) * pow2 e)
  | _ => None
  end.

Definition specOfZ (z : Z) : SpecFloat.spec_float :=
  SpecFloat.binary_normalize 53 1024 z 0 false.

Definition specUnit : SpecFloat.spec_float :=
  SpecFloat.SFdiv 53 1024 (specOfZ 6578176) (specOfZ 100).

Definition specInterpolated (c0 c1 : SpecFloat.spec_float) (line0 line line1 : Z)
  : SpecFloat.spec_float :=
  let sub a b := SpecFloat.SFsub 53 1024 (specOfZ a) (specOfZ b) in
  SpecFloat.SFadd 53 1024
    (SpecFloat.SFdiv 53 1024 (SpecFloat.SFmul 53 1024 c0 (sub line1 line)) (sub line1 line0))
    (SpecFloat.SFdiv 53 1024 (SpecFloat.SFmul 53 1024 c1 (sub line line0)) (sub line1 line0)).

Definition sameValue (f : SpecFloat.spec_float) (q : Q) : bool :=
  match specValue f with
  | Some v => Qeq_bool v q
  | None => false
  end.
End Binary64.

(** * Properties *)

(** ** Comparisons *)

Lemma Qltb_true (a b : Q) : Qltb a b = true <-> (a < b)%Q.
Proof.
  unfold Qltb. rewrite Qlt_alt.
  destruct (a ?= b)%Q; split; intro; congruence.
Qed.

Lemma Qltb_false (a b : Q) : Qltb a b = false <-> (b <= a)%Q.
Proof.
  split.
  - intro H. apply Qnot_lt_le. rewrite <- Qltb_true. congruence.
  - intro H. destruct (Qltb a b) eqn:E; [|tauto].
    apply Qltb_true in E. exfalso. apply (Qlt_not_le _ _ E H).
Qed.

Lemma Qleb_true (a b : Q) : Qleb a b = true <-> (a <= b)%Q.
Proof.
  unfold Qleb. rewrite Qle_alt.
  destruct (a ?= b)%Q; split; intro; congruence.
Qed.

Lemma Qleb_false (a b : Q) : Qleb a b = false <-> (b < a)%Q.
Proof.
  split.
  - intro H. apply Qnot_le_lt. rewrite <- Qleb_true. congruence.
  - intro H. destruct (Qleb a b) eqn:E; [|tauto].
    apply Qleb_true in E. exfalso. apply (Qlt_not_le _ _ H E).
Qed.

Lemma mathMax_ge_l (a b : Q) : (a <= mathMax a b)%Q.
Proof.
  unfold mathMax. destruct (Qltb a b) eqn:E.
  - apply Qltb_true in E. lra.
  - lra.
Qed.

Lemma mathMax_ge_r (a b : Q) : (b <= mathMax a b)%Q.
Proof.
  unfold mathMax. destruct (Qltb a b) eqn:E.
  - lra.
  - apply Qltb_false in E. lra.
Qed.

(** ** The reductions of getCoveringRectangle *)

Section Reductions.
Variable f : Rect.t -> Q.
Variable g : Block.t -> option Q.

Section Upwards.
Hypothesis step_up : forall c b,
  f (coverStep c b) =
  match g b with
  | Some v => if Qltb (f c) v then v else f c
  | None => f c
  end.

Lemma fold_seededMax (blocks : list Block.t) (c : Rect.t) :
  seededMax (f c) (f (fold_left coverStep blocks c)) (candidates g blocks).
Proof.
  revert c. induction blocks as [|b blocks IH]; intro c; simpl.
  - repeat split; [lra | intros v [] | now left].
  - destruct (IH (coverStep c b)) as (Hseed & Hall & Hin).
    rewrite step_up in Hseed, Hin.
    unfold candidates in *. simpl.
    destruct (g b) as [v|]; simpl.
    + destruct (Qltb (f c) v) eqn:E.
      * apply Qltb_true in E. repeat split.
        -- lra.
        -- intros w [<- | Hw]; [lra | now apply Hall].
        -- destruct Hin as [-> | Hin]; right; [now left | now right].
      * apply Qltb_false in E. repeat split.
        -- lra.
        -- intros w [<- | Hw]; [lra | now apply Hall].
        -- destruct Hin as [-> | Hin]; [now left | right; now right].
    + repeat split; [lra | exact Hall | exact Hin].
Qed.
End Upwards.

Section Downwards.
Hypothesis step_down : forall c b,
  f (coverStep c b) =
  match g b with
  | Some v => if Qltb v (f c) then v else f c
  | None => f c
  end.

Lemma fold_seededMin (blocks : list Block.t) (c : Rect.t) :
  seededMin (f c) (f (fold_left coverStep blocks c)) (candidates g blocks).
Proof.
  revert c. induction blocks as [|b blocks IH]; intro c; simpl.
  - repeat split; [lra | intros v [] | now left].
  - destruct (IH (coverStep c b)) as (Hseed & Hall & Hin).
    rewrite step_down in Hseed, Hin.
    unfold candidates in *. simpl.
    destruct (g b) as [v|]; simpl.
    + destruct (Qltb v (f c)) eqn:E.
      * apply Qltb_true in E. repeat split.
        -- lra.
        -- intros w [<- | Hw]; [lra | now apply Hall].
        -- destruct Hin as [-> | Hin]; right; [now left | now right].
      * apply Qltb_false in E. repeat split.
        -- lra.
        -- intros w [<- | Hw]; [lra | now apply Hall].
        -- destruct Hin as [-> | Hin]; [now left | right; now right].
    + repeat split; [lra | exact Hall | exact Hin].
Qed.
End Downwards.
End Reductions.

Lemma bottom_seeded (blocks : list Block.t) :
  seededMax 0 (Rect.bottom (getCoveringRectangle blocks)) (bottoms blocks).
Proof.
  exact (@fold_seededMax Rect.bottom (fun b => Some (Block.bottom b)) (fun _ _ => eq_refl) blocks coverInit).
Qed.

Lemma top_seeded (blocks : list Block.t) :
  seededMin sentinel (Rect.top (getCoveringRectangle blocks)) (tops blocks).
Proof.
  exact (@fold_seededMin Rect.top (fun b => Some (blockTop b)) (fun _ _ => eq_refl) blocks coverInit).
Qed.

Lemma left_seeded (blocks : list Block.t) :
  seededMin sentinel (Rect.left (getCoveringRectangle blocks)) (lefts blocks).
Proof.
  exact (@fold_seededMin Rect.left (fun b => Some (Block.left b)) (fun _ _ => eq_refl) blocks coverInit).
Qed.

Lemma right_seeded (blocks : list Block.t) :
  seededMax 0 (Rect.right (getCoveringRectangle blocks)) (rights blocks).
Proof.
  refine (@fold_seededMax Rect.right blockRight _ blocks coverInit).
  intros c b. unfold blockRight. simpl. destruct (Block.width b); reflexivity.
Qed.

Lemma In_candidates (g : Block.t -> option Q) (blocks : list Block.t) (v : Q) :
  In v (candidates g blocks) <-> exists b, In b blocks /\ g b = Some v.
Proof.
  unfold candidates. rewrite in_flat_map. split.
  - intros (b & Hb & Hv). exists b. split; [exact Hb|].
    destruct (g b); simpl in Hv; [|tauto]. destruct Hv as [-> | []]. reflexivity.
  - intros (b & Hb & Hv). exists b. split; [exact Hb|]. rewrite Hv. now left.
Qed.

(** ** The covering rectangle *)

(** The reductions start from 0 and from 2e16: a block below the origin
    does not lower the bottom edge to its own, and an element that the
    parser places beyond 2e16 does not move the left edge to its own. *)
Lemma covering_rectangle_not_plain :
  ((Rect.bottom (getCoveringRectangle [sunkBlock]) == 0)%Q
   /\ bottoms [sunkBlock] = [(-1)%Q]
   /\ ~ boundingBoxSpec [sunkBlock] (getCoveringRectangle [sunkBlock]))
  /\ exists blocks,
       bucketOfText farLeftText "/doc/main.tex" 12 1 = Some blocks
       /\ blocks <> []
       /\ ~ boundingBoxSpec blocks (getCoveringRectangle blocks).
Proof.
  split.
  - split; [reflexivity|]. split; [reflexivity|].
    intros (((v & Hv & Heq) & _) & _).
    destruct Hv as [<- | []]. vm_compute in Heq. discriminate Heq.
  - destruct (bucketOfText farLeftText "/doc/main.tex" 12 1) as [blocks|] eqn:E;
      vm_compute in E; [|discriminate E].
    injection E as <-. eexists. split; [reflexivity|]. split; [discriminate|].
    intros (_ & _ & ((v & Hv & Heq) & _) & _).
    destruct Hv as [<- | []]. vm_compute in Heq. discriminate Heq.
Qed.

(** C2 (amended).  Each edge of the covering rectangle is the greatest or the
    least value of its reduction together with the value the reduction
    starts from: bottom = max(0, bottoms), top = min(2e16, tops),
    left = min(2e16, lefts), right = max(0, rights of the blocks that have a
    width). *)
Theorem covering_rectangle_seeded (blocks : list Block.t) :
  let r := getCoveringRectangle blocks in
  seededMax 0 (Rect.bottom r) (bottoms blocks)
  /\ seededMin sentinel (Rect.top r) (tops blocks)
  /\ seededMin sentinel (Rect.left r) (lefts blocks)
  /\ seededMax 0 (Rect.right r) (rights blocks).
Proof.
  simpl. split; [apply bottom_seeded|].
  split; [apply top_seeded|].
  split; [apply left_seeded | apply right_seeded].
Qed.

Lemma seededMax_greatest (seed m : Q) (vs : list Q) :
  seededMax seed m vs -> vs <> [] -> (forall v, In v vs -> (seed <= v)%Q) ->
  greatestOf m vs.
Proof.
  intros (Hseed & Hall & Hin) Hne Hlow. split; [|exact Hall].
  destruct Hin as [-> | Hin].
  - destruct vs as [|v vs]; [congruence|]. exists v. split; [now left|].
    apply Qle_antisym; [apply Hall | apply Hlow]; now left.
  - exists m. split; [exact Hin | reflexivity].
Qed.

Lemma seededMin_least (seed m : Q) (vs : list Q) :
  seededMin seed m vs -> vs <> [] -> (forall v, In v vs -> (v <= seed)%Q) ->
  leastOf m vs.
Proof.
  intros (Hseed & Hall & Hin) Hne Hhigh. split; [|exact Hall].
  destruct Hin as [-> | Hin].
  - destruct vs as [|v vs]; [congruence|]. exists v. split; [now left|].
    apply Qle_antisym; [apply Hhigh | apply Hall]; now left.
  - exists m. split; [exact Hin | reflexivity].
Qed.

Lemma candidates_total_nonempty (g : Block.t -> Q) (blocks : list Block.t) :
  blocks <> [] -> candidates (fun b => Some (g b)) blocks <> [].
Proof.
  destruct blocks; [congruence|]. intros _. discriminate.
Qed.

(** When no value lies on the wrong side of the starting values, the
    rectangle is the one of the specification. *)
Lemma covering_rectangle_plain (blocks : list Block.t) :
  blocks <> [] ->
  (forall b, In b blocks ->
     (0 <= Block.bottom b)%Q /\ (blockTop b <= sentinel)%Q
     /\ (Block.left b <= sentinel)%Q
     /\ forall w, Block.width b = Some w -> (0 <= Block.left b + w)%Q) ->
  boundingBoxSpec blocks (getCoveringRectangle blocks).
Proof.
  intros Hne Hb.
  pose proof (bottom_seeded blocks) as H1. pose proof (top_seeded blocks) as H2.
  pose proof (left_seeded blocks) as H3. pose proof (right_seeded blocks) as H4.
  split; [|split; [|split]].
  - apply (seededMax_greatest H1); [now apply candidates_total_nonempty|].
    intros v Hv. apply In_candidates in Hv. destruct Hv as (b & Hin & [= <-]).
    now apply Hb.
  - apply (seededMin_least H2); [now apply candidates_total_nonempty|].
    intros v Hv. apply In_candidates in Hv. destruct Hv as (b & Hin & [= <-]).
    now apply Hb.
  - apply (seededMin_least H3); [now apply candidates_total_nonempty|].
    intros v Hv. apply In_candidates in Hv. destruct Hv as (b & Hin & [= <-]).
    now apply Hb.
  - intro Hr. apply (seededMax_greatest H4 Hr).
    intros v Hv. apply In_candidates in Hv. destruct Hv as (b & Hin & Hv).
    unfold blockRight in Hv. destruct (Block.width b) as [w|] eqn:Hw; [|discriminate].
    injection Hv as <-. now apply (Hb b Hin).
Qed.

(** A block whose height is negative has its top under its bottom, and so
    has the rectangle that covers it; the parser builds such an element
    inside a block of negative height. *)
Lemma covering_rectangle_upside_down :
  ~ (Rect.top (getCoveringRectangle [upsideDownBlock])
     <= Rect.bottom (getCoveringRectangle [upsideDownBlock]))%Q
  /\ exists blocks,
       bucketOfText upsideDownText "/doc/main.tex" 12 1 = Some blocks
       /\ blocks <> []
       /\ ~ (Rect.top (getCoveringRectangle blocks)
             <= Rect.bottom (getCoveringRectangle blocks))%Q.
Proof.
  split.
  - vm_compute. intro H. apply H. reflexivity.
  - destruct (bucketOfText upsideDownText "/doc/main.tex" 12 1) as [blocks|] eqn:E;
      vm_compute in E; [|discriminate E].
    injection E as <-. eexists. split; [reflexivity|]. split; [discriminate|].
    vm_compute. intro H. apply H. reflexivity.
Qed.

(** C9 (amended).  The covering rectangle of a list of blocks has
    bottom >= top as soon as one block of the list has a height that is not
    negative, and right >= left as soon as one block has a width that is not
    negative; neither needs anything of the other blocks, and the second
    needs nothing of the heights. *)
Theorem covering_rectangle_ordered (blocks : list Block.t) :
  let r := getCoveringRectangle blocks in
  ((exists b, In b blocks /\ (0 <= Block.height b)%Q) ->
   (Rect.top r <= Rect.bottom r)%Q)
  /\ ((exists b w, In b blocks /\ Block.width b = Some w /\ (0 <= w)%Q) ->
      (Rect.left r <= Rect.right r)%Q).
Proof.
  intro r.
  pose proof (bottom_seeded blocks) as H1. pose proof (top_seeded blocks) as H2.
  pose proof (left_seeded blocks) as H3. pose proof (right_seeded blocks) as H4.
  fold r in H1, H2, H3, H4. split.
  - intros (b & Hin & Hh).
    destruct H1 as (_ & H1 & _). destruct H2 as (_ & H2 & _).
    assert (Block.bottom b <= Rect.bottom r)%Q.
    { apply H1. apply In_candidates. now exists b. }
    assert (Rect.top r <= Block.bottom b - Block.height b)%Q.
    { apply H2. apply In_candidates. now exists b. }
    lra.
  - intros (b & w & Hin & Ew & Hw).
    destruct H3 as (_ & H3 & _). destruct H4 as (_ & H4 & _).
    assert (Rect.left r <= Block.left b)%Q.
    { apply H3. apply In_candidates. now exists b. }
    assert (Block.left b + w <= Rect.right r)%Q.
    { apply H4. apply In_candidates. exists b. split; [exact Hin|].
      unfold blockRight. now rewrite Ew. }
    lra.
Qed.

Lemma covering_rectangle_ordered_witness :
  let r := getCoveringRectangle [upsideDownBlock; plainBlock; bareBlock] in
  (Rect.top r <= Rect.bottom r)%Q /\ (Rect.left r <= Rect.right r)%Q.
Proof.
  destruct (covering_rectangle_ordered [upsideDownBlock; plainBlock; bareBlock])
    as [Ht Hl].
  split.
  - apply Ht. exists plainBlock. split; [right; now left|]. vm_compute. discriminate.
  - apply Hl. exists plainBlock. eexists. split; [right; now left|].
    split; [reflexivity|]. vm_compute. discriminate.
Defined.

(** ** Backward search on a point inside a rectangle *)

(** The test of the innermost loop asks for bottom <= y0 <= top, while a
    covering rectangle has its top above its bottom: with top < bottom no
    point passes it. *)
Lemma insideBox_never (box : Rect.t) (x0 y0 : Q) :
  (Rect.top box < Rect.bottom box)%Q -> insideBox box x0 y0 = false.
Proof.
  intro H. unfold insideBox.
  destruct (Qleb (Rect.bottom box) y0) eqn:E1; [|reflexivity].
  destruct (Qleb y0 (Rect.top box)) eqn:E2; [|reflexivity].
  apply Qleb_true in E1, E2. lra.
Qed.

(** C1.  On the model with one bucket whose rectangle is left = 0,
    right = 10, bottom = 10, top = 0, the query backward(1, 5, 5) does not
    leave the scan by the containment test: the test fails, the bucket is
    kept as the nearest candidate at distance 5, and the answer is produced
    after the scan. *)
Theorem backward_containment_not_immediate :
  getCoveringRectangle [squareBlock]
  = {| Rect.top := 0; Rect.bottom := 10; Rect.left := 0; Rect.right := 10 |}
  /\ insideBox (getCoveringRectangle [squareBlock]) 5 5 = false
  /\ fileLoop 1 5 5 (PdfSyncObject.blockNumberLine squareModel)
       (keys (PdfSyncObject.blockNumberLine squareModel)) initialCandidate
     = Running {| Candidate.input := "/doc/main.tex"; Candidate.line := 12;
                  Candidate.distance := 5 |}
  /\ syncTexJsBackward 1 5 5 squareModel
     = Ok {| SyncTeXRecordBackward.input := "/doc/main.tex";
             SyncTeXRecordBackward.line := 12;
             SyncTeXRecordBackward.column := 0 |}.
Proof.
  repeat split; vm_compute; reflexivity.
Qed.

(** With a second bucket next to the point, the bucket that contains the
    point is not the one returned. *)
Lemma backward_containing_bucket_loses :
  insideBox (getCoveringRectangle [flatBlock]) 5 5 = false
  /\ syncTexJsBackward 1 5 5 twoBucketModel
     = Ok {| SyncTeXRecordBackward.input := "/doc/main.tex";
             SyncTeXRecordBackward.line := 30;
             SyncTeXRecordBackward.column := 0 |}.
Proof.
  split; vm_compute; reflexivity.
Qed.

(** The same on a text: the element of line 12 covers the square from
    (0, 0) to (100, 100), and the query at its centre is answered by the
    nearest candidate, the containment test having failed. *)
Lemma backward_containment_on_text :
  exists blocks,
    bucketOfText squareText "/doc/main.tex" 12 1 = Some blocks
    /\ (Rect.top (getCoveringRectangle blocks) == 0)%Q
    /\ (Rect.bottom (getCoveringRectangle blocks) == 100)%Q
    /\ (Rect.left (getCoveringRectangle blocks) == 0)%Q
    /\ (Rect.right (getCoveringRectangle blocks) == 100)%Q
    /\ insideBox (getCoveringRectangle blocks) 50 50 = false
    /\ backwardOnText 1 50 50 squareText
       = Ok {| SyncTeXRecordBackward.input := "/doc/main.tex";
               SyncTeXRecordBackward.line := 12;
               SyncTeXRecordBackward.column := 0 |}.
Proof.
  destruct (bucketOfText squareText "/doc/main.tex" 12 1) as [blocks|] eqn:E;
    vm_compute in E; [|discriminate E].
  injection E as <-. eexists. split; [reflexivity|].
  repeat split; vm_compute; reflexivity.
Qed.

(** ** Sorting and enumeration of keys *)

Section SortingFacts.
Variable A : Type.
Variable rank : A -> N.

Lemma In_insert_by (x y : A) (l : list A) :
  In y (insert_by rank x l) <-> y = x \/ In y l.
Proof.
  induction l as [|z l IH]; simpl.
  - intuition congruence.
  - destruct (rank x <=? rank z)%N; simpl; [intuition congruence|].
    rewrite IH. intuition congruence.
Qed.

Lemma In_sort_by (y : A) (l : list A) : In y (sort_by rank l) <-> In y l.
Proof.
  induction l as [|x l IH]; simpl; [tauto|].
  rewrite In_insert_by, IH. intuition congruence.
Qed.

Lemma insert_by_sorted (x : A) (l : list A) :
  StronglySorted (byRank rank) l -> StronglySorted (byRank rank) (insert_by rank x l).
Proof.
  induction 1 as [|z l Hs IH Hz]; simpl.
  - constructor; constructor.
  - destruct (rank x <=? rank z)%N eqn:E.
    + apply N.leb_le in E. constructor; [now constructor|].
      constructor; [exact E|].
      rewrite Forall_forall in *. intros y Hy. specialize (Hz y Hy).
      unfold byRank in *. lia.
    + apply N.leb_gt in E. constructor; [exact IH|].
      rewrite Forall_forall in *. intros y Hy.
      apply In_insert_by in Hy. destruct Hy as [-> | Hy].
      * unfold byRank. lia.
      * now apply Hz.
Qed.

Lemma sort_by_sorted (l : list A) : StronglySorted (byRank rank) (sort_by rank l).
Proof.
  induction l as [|x l IH]; simpl; [constructor|].
  now apply insert_by_sorted.
Qed.

Lemma sort_by_head_least (l : list A) (x : A) :
  hd_error (sort_by rank l) = Some x ->
  forall y, In y l -> (rank x <= rank y)%N.
Proof.
  intros Hhd y Hy. apply In_sort_by in Hy.
  pose proof (sort_by_sorted l) as Hs.
  destruct (sort_by rank l) as [|z s]; [discriminate|].
  injection Hhd as ->. inversion Hs as [|? ? _ Hall]; subst.
  destruct Hy as [<- | Hy]; [lia|].
  rewrite Forall_forall in Hall. now apply Hall.
Qed.

(** A list that is already in ascending order is left as it is. *)
Lemma sort_by_sorted_id (l : list A) :
  StronglySorted (byRank rank) l -> sort_by rank l = l.
Proof.
  induction 1 as [|x l Hs IH Hx]; simpl; [reflexivity|].
  rewrite IH. destruct l as [|y l]; [reflexivity|]. simpl.
  inversion Hx as [|? ? Hxy _]; subst. unfold byRank in Hxy.
  apply N.leb_le in Hxy. now rewrite Hxy.
Qed.
End SortingFacts.

Lemma sortNumbers_sorted (l : list N) : StronglySorted N.le (sortNumbers l).
Proof. exact (sort_by_sorted (fun n => n) l). Qed.

Lemma In_sortNumbers (n : N) (l : list N) : In n (sortNumbers l) <-> In n l.
Proof. exact (In_sort_by (fun n => n) n l). Qed.

Lemma filter_all {A : Type} (p : A -> bool) (l : list A) :
  (forall x, In x l -> p x = true) -> filter p l = l.
Proof.
  induction l as [|x l IH]; intro Hall; simpl; [reflexivity|].
  rewrite (Hall x (or_introl eq_refl)). f_equal. apply IH.
  intros y Hy. apply Hall. now right.
Qed.

Lemma filter_none {A : Type} (p : A -> bool) (l : list A) :
  (forall x, In x l -> p x = true) -> filter (fun x => negb (p x)) l = [].
Proof.
  induction l as [|x l IH]; intro Hall; simpl; [reflexivity|].
  rewrite (Hall x (or_introl eq_refl)). simpl. apply IH.
  intros y Hy. apply Hall. now right.
Qed.

Section ObjectFacts.
Context {K V : Type} `{JSKey K}.

Lemma key_eqb_refl (k : K) : key_eqb k k = true.
Proof. now apply key_eqb_eq. Qed.

Lemma key_eqb_neq (a b : K) : key_eqb a b = false <-> a <> b.
Proof.
  rewrite <- key_eqb_eq. destruct (key_eqb a b); split; congruence.
Qed.

Lemma get_In (k : K) (v : V) (o : JSObject K V) :
  get k o = Some v -> In k (insertionKeys o).
Proof.
  induction o as [|[k' v'] o IH]; simpl; [discriminate|].
  destruct (key_eqb k k') eqn:E.
  - apply key_eqb_eq in E. intros _. now left.
  - intro Hg. right. now apply IH.
Qed.

Lemma In_get (k : K) (o : JSObject K V) :
  In k (insertionKeys o) -> exists v, get k o = Some v.
Proof.
  induction o as [|[k' v'] o IH]; simpl; [tauto|].
  intros [-> | Hin].
  - rewrite key_eqb_refl. now exists v'.
  - destruct (key_eqb k k'); [now exists v'|]. now apply IH.
Qed.

Lemma In_keys (k : K) (o : JSObject K V) :
  In k (keys o) <-> In k (insertionKeys o).
Proof.
  unfold keys. rewrite in_app_iff, In_sort_by, !filter_In.
  destruct (isIndexKey k); simpl; intuition congruence.
Qed.

Lemma keys_get (k : K) (o : JSObject K V) :
  In k (keys o) -> exists v, get k o = Some v.
Proof. intro Hin. apply In_get. now apply In_keys. Qed.

Lemma get_keys (k : K) (v : V) (o : JSObject K V) :
  get k o = Some v -> In k (keys o).
Proof. intro Hg. apply In_keys. now apply (get_In k o Hg). Qed.

Lemma keys_nil (o : JSObject K V) : keys o = [] <-> o = [].
Proof.
  split.
  - intro Hk. destruct o as [|[k v] o]; [reflexivity|]. exfalso.
    assert (Hin : In k (keys ((k, v) :: o))) by (apply In_keys; now left).
    rewrite Hk in Hin. exact Hin.
  - intros ->. reflexivity.
Qed.

(** With integer-like keys only, enumeration is by ascending number. *)
Lemma keys_all_index (o : JSObject K V) :
  (forall k, In k (insertionKeys o) -> isIndexKey k = true) ->
  keys o = sort_by indexRank (insertionKeys o).
Proof.
  intro Hall. unfold keys.
  rewrite (filter_all _ _ Hall), (filter_none _ _ Hall). apply app_nil_r.
Qed.
End ObjectFacts.

(** ** Well-formed indexes *)

Section EntryFacts.
Context {K V : Type} `{JSKey K}.

Lemma get_entry (k : K) (v : V) (o : JSObject K V) :
  get k o = Some v -> In (k, v) o.
Proof.
  induction o as [|[k' v'] o IH]; simpl; [discriminate|].
  destruct (key_eqb k k') eqn:E.
  - apply key_eqb_eq in E. intros [= ->]. left. now subst.
  - intro Hg. right. now apply IH.
Qed.

Lemma set_entry (k k' : K) (v v' : V) (o : JSObject K V) :
  In (k', v') (set k v o) -> (k', v') = (k, v) \/ In (k', v') o.
Proof.
  induction o as [|[k0 v0] o IH]; simpl.
  - intros [<- | []]. now left.
  - destruct (key_eqb k k0) eqn:E; simpl.
    + apply key_eqb_eq in E. subst k0. intros [<- | Hin]; [now left | right; now right].
    + intros [<- | Hin]; [right; now left|].
      destruct (IH Hin) as [-> | Hin']; [now left | right; now right].
Qed.

Lemma set_not_nil (k : K) (v : V) (o : JSObject K V) : set k v o <> [].
Proof.
  destruct o as [|[k0 v0] o]; simpl; [discriminate|].
  destruct (key_eqb k k0); discriminate.
Qed.
End EntryFacts.

Lemma wellFormedIndex_names (blockNumberLine : BlockNumberLine) :
  wellFormedIndex blockNumberLine -> ~ In EmptyString (keys blockNumberLine).
Proof.
  intros Hwf Hin. destruct (keys_get _ _ Hin) as [lpb Hlpb].
  apply get_entry in Hlpb. destruct (Hwf _ _ Hlpb) as [Hne _]. now apply Hne.
Qed.

(** In a well-formed index every recorded line has a first bucket, and the
    bucket has a first element. *)
Lemma wellFormedIndex_firstBucket (blockNumberLine : BlockNumberLine)
    (fileName : string) (linePageBlocks : LinePageBlocks) (lineNum : N)
    (pageBlocks : PageBlocks) :
  wellFormedIndex blockNumberLine ->
  get fileName blockNumberLine = Some linePageBlocks ->
  get lineNum linePageBlocks = Some pageBlocks ->
  exists page blocks b,
    hd_error (keys pageBlocks) = Some page
    /\ get page pageBlocks = Some blocks
    /\ hd_error blocks = Some b.
Proof.
  intros Hwf Hf Hl.
  destruct (Hwf _ _ (get_entry _ _ Hf)) as [_ Hlines].
  destruct (Hlines _ _ (get_entry _ _ Hl)) as [Hne Hbuckets].
  destruct (keys pageBlocks) as [|page rest] eqn:Hkeys.
  { apply keys_nil in Hkeys. congruence. }
  assert (Hin : In page (keys pageBlocks)) by (rewrite Hkeys; now left).
  destruct (keys_get _ _ Hin) as [blocks Hblocks].
  pose proof (Hbuckets _ _ (get_entry _ _ Hblocks)) as Hb.
  destruct blocks as [|b blocks]; [congruence|].
  exists page, (b :: blocks), b. repeat split. exact Hblocks.
Qed.

Lemma wellFormedIndex_recorded (blockNumberLine : BlockNumberLine)
    (fileName : string) (linePageBlocks : LinePageBlocks) (lineNum : N) :
  wellFormedIndex blockNumberLine ->
  get fileName blockNumberLine = Some linePageBlocks ->
  In lineNum (keys linePageBlocks) ->
  exists blocks b, firstBucket linePageBlocks lineNum blocks b.
Proof.
  intros Hwf Hf Hin. destruct (keys_get _ _ Hin) as [pageBlocks Hl].
  destruct (wellFormedIndex_firstBucket _ _ Hwf Hf Hl) as (page & blocks & b & H1 & H2 & H3).
  exists blocks, b, pageBlocks, page. now repeat split.
Qed.

Lemma wellFormedIndexb_sound (blockNumberLine : BlockNumberLine) :
  wellFormedIndexb blockNumberLine = true -> wellFormedIndex blockNumberLine.
Proof.
  unfold wellFormedIndexb. rewrite forallb_forall. intros Hb fileName lpb Hin.
  specialize (Hb _ Hin). simpl in Hb. apply andb_prop in Hb. destruct Hb as [Hname Hlines].
  split.
  - apply negb_true_iff in Hname. now apply String.eqb_neq.
  - rewrite forallb_forall in Hlines. intros lineNum pb Hl.
    specialize (Hlines _ Hl). simpl in Hlines. apply andb_prop in Hlines.
    destruct Hlines as [Hne Hbuckets]. split.
    + destruct pb; [discriminate | discriminate].
    + rewrite forallb_forall in Hbuckets. intros pageNum blocks Hp.
      specialize (Hbuckets _ Hp). simpl in Hbuckets.
      destruct blocks; [discriminate | discriminate].
Qed.

(** ** Finding the first recorded line that is not before the requested one *)

Lemma findIndexFrom_split {A : Type} (p : A -> bool) (l : list A) (i0 : Z) :
  (findIndexFrom p l i0 = (-1)%Z /\ forall x, In x l -> p x = false)
  \/ exists pre x post,
       l = pre ++ x :: post
       /\ (forall y, In y pre -> p y = false)
       /\ p x = true
       /\ findIndexFrom p l i0 = (i0 + Z.of_nat (List.length pre))%Z.
Proof.
  revert i0. induction l as [|a l IH]; intro i0; simpl.
  - left. split; [reflexivity | intros x []].
  - destruct (p a) eqn:Ea.
    + right. exists [], a, l. simpl. repeat split; [intros y [] | exact Ea | lia].
    + destruct (IH (i0 + 1)%Z) as [[Hi Hall] | (pre & x & post & -> & Hpre & Hx & Hi)].
      * left. split; [exact Hi|]. intros x [<- | Hx]; [exact Ea | now apply Hall].
      * right. exists (a :: pre), x, post. simpl. repeat split.
        -- intros y [<- | Hy]; [exact Ea | now apply Hpre].
        -- exact Hx.
        -- rewrite Hi. lia.
Qed.

Lemma at_app {A : Type} (pre : list A) (x : A) (post : list A) :
  at_ (pre ++ x :: post) (Z.of_nat (List.length pre)) = Some x.
Proof.
  unfold at_. destruct (Z.of_nat (List.length pre) <? 0)%Z eqn:E;
    [apply Z.ltb_lt in E; lia|].
  rewrite Nat2Z.id. rewrite nth_error_app2 by lia.
  now rewrite Nat.sub_diag.
Qed.

Lemma at_before {A : Type} (pre : list A) (z x : A) (post : list A) :
  at_ ((pre ++ [z]) ++ x :: post) (Z.of_nat (List.length (pre ++ [z])) - 1) = Some z.
Proof.
  rewrite <- app_assoc. simpl.
  replace (Z.of_nat (List.length (pre ++ [z])) - 1)%Z with (Z.of_nat (List.length pre)).
  - apply at_app.
  - rewrite length_app. simpl. lia.
Qed.

Lemma at_negative {A : Type} (l : list A) (i : Z) : (i < 0)%Z -> at_ l i = None.
Proof.
  intro Hi. unfold at_.
  destruct (i <? 0)%Z eqn:E; [reflexivity | apply Z.ltb_ge in E; lia].
Qed.

Lemma sorted_split (pre : list N) (x : N) (post : list N) :
  StronglySorted N.le (pre ++ x :: post) ->
  (forall y, In y pre -> (y <= x)%N) /\ (forall y, In y post -> (x <= y)%N).
Proof.
  induction pre as [|a pre IH]; simpl; intro Hs.
  - split; [intros y [] |]. inversion Hs as [|? ? _ Hall]; subst.
    rewrite Forall_forall in Hall. exact Hall.
  - inversion Hs as [|? ? Hs' Hall]; subst. destruct (IH Hs') as [H1 H2].
    split; [|exact H2]. intros y [<- | Hy]; [|now apply H1].
    rewrite Forall_forall in Hall. apply Hall. apply in_or_app. right. now left.
Qed.

Lemma sorted_last (pre : list N) (z : N) (post : list N) :
  StronglySorted N.le ((pre ++ [z]) ++ post) ->
  forall y, In y pre -> (y <= z)%N.
Proof.
  rewrite <- app_assoc. simpl. intro Hs. now apply (sorted_split _ _ _ Hs).
Qed.

(** The outcome of [findIndex] on the sorted line numbers: either every
    recorded line is before the requested one, or the array splits around
    the first line that is not. *)
Lemma findIndex_sorted (line : N) (l : list N) :
  StronglySorted N.le l ->
  (findIndex (fun x => (line <=? x)%N) l = (-1)%Z
   /\ forall x, In x l -> (x < line)%N)
  \/ exists pre x post,
       l = pre ++ x :: post
       /\ findIndex (fun x => (line <=? x)%N) l = Z.of_nat (List.length pre)
       /\ (forall y, In y pre -> (y < line)%N)
       /\ (line <= x)%N
       /\ (forall y, In y pre -> (y <= x)%N)
       /\ (forall y, In y post -> (x <= y)%N).
Proof.
  intro Hs. unfold findIndex.
  destruct (findIndexFrom_split (fun x => (line <=? x)%N) l 0)
    as [[Hi Hall] | (pre & x & post & -> & Hpre & Hx & Hi)].
  - left. split; [exact Hi|]. intros x Hx. specialize (Hall x Hx).
    apply N.leb_gt in Hall. exact Hall.
  - right. exists pre, x, post. destruct (sorted_split _ _ _ Hs) as [H1 H2].
    split; [reflexivity|]. split; [rewrite Hi; lia|].
    split; [|split; [now apply N.leb_le | split; assumption]].
    intros y Hy. specialize (Hpre y Hy). apply N.leb_gt in Hpre. exact Hpre.
Qed.

(** A recorded line is found at its own position. *)
Lemma findIndex_recorded (line : N) (l : list N) :
  StronglySorted N.le l -> In line l ->
  at_ l (findIndex (fun x => (line <=? x)%N) l) = Some line.
Proof.
  intros Hs Hin.
  destruct (findIndex_sorted line Hs)
    as [[_ Hall] | (pre & x & post & -> & Hi & Hpre & Hx & _ & Hpost)].
  - specialize (Hall line Hin). lia.
  - rewrite Hi, at_app. f_equal.
    apply in_app_or in Hin. destruct Hin as [Hin | [-> | Hin]].
    + specialize (Hpre line Hin). lia.
    + reflexivity.
    + specialize (Hpost line Hin). lia.
Qed.

(** A line strictly between two neighbouring recorded lines is found at the
    position of the second, right after the first. *)
Lemma findIndex_between (line line0 line1 : N) (l : list N) :
  StronglySorted N.le l -> In line0 l -> In line1 l ->
  (forall k, In k l -> ~ (line0 < k < line1)%N) ->
  (line0 < line < line1)%N ->
  let i := findIndex (fun x => (line <=? x)%N) l in
  (i =? 0)%Z = false
  /\ at_ l i = Some line1
  /\ at_ l (i - 1) = Some line0.
Proof.
  intros Hs H0 H1 Hadj Hlt i. subst i.
  destruct (findIndex_sorted line Hs)
    as [[_ Hall] | (pre & x & post & -> & Hi & Hpre & Hx & Hprex & Hpost)].
  - specialize (Hall line1 H1). lia.
  - assert (Ex : x = line1).
    { assert (Hk : ~ (line0 < x < line1)%N) by (apply Hadj; apply in_or_app; right; now left).
      apply in_app_or in H1. destruct H1 as [H1 | [H1 | H1]].
      - specialize (Hpre line1 H1). lia.
      - exact H1.
      - specialize (Hpost line1 H1). lia. }
    subst x.
    assert (Hin0 : In line0 pre).
    { apply in_app_or in H0. destruct H0 as [H0 | [H0 | H0]].
      - exact H0.
      - lia.
      - specialize (Hpost line0 H0). lia. }
    destruct (exists_last (l := pre)) as (pre' & z & ->).
    { intros ->. exact Hin0. }
    rewrite Hi. split; [|split].
    + apply Z.eqb_neq. rewrite length_app. simpl. lia.
    + apply at_app.
    + rewrite at_before. f_equal.
      assert (Hz : (z < line)%N) by (apply Hpre; apply in_or_app; right; now left).
      assert (Hk : ~ (line0 < z < line1)%N).
      { apply Hadj. apply in_or_app. left. apply in_or_app. right. now left. }
      apply in_app_or in Hin0. destruct Hin0 as [Hin0 | [-> | []]]; [|reflexivity].
      pose proof (sorted_last _ _ _ Hs line0 Hin0). lia.
Qed.

(** ** Forward search *)

Lemma firstPageBlocks_first (linePageBlocks : LinePageBlocks) (l : N)
    (blocks : list Block.t) (b : Block.t) :
  firstBucket linePageBlocks l blocks b ->
  firstPageBlocks linePageBlocks (Some l) = Ok blocks.
Proof.
  intros (pageBlocks & page & Hl & Hk & Hp & _).
  unfold firstPageBlocks. simpl. rewrite Hl. simpl. rewrite Hk. simpl.
  rewrite Hp. reflexivity.
Qed.

Lemma firstBucket_recorded (linePageBlocks : LinePageBlocks) (l : N)
    (blocks : list Block.t) (b : Block.t) :
  firstBucket linePageBlocks l blocks b ->
  In l (sortNumbers (keys linePageBlocks)).
Proof.
  intros (pageBlocks & _ & Hl & _). apply In_sortNumbers.
  now apply (get_keys l linePageBlocks Hl).
Qed.

(** The answer to a recorded line, shared by the statements below. *)
Lemma forward_recorded (line : N) (filePath : string) (o : PdfSyncObject.t)
    (linePageBlocks : LinePageBlocks) (blocks : list Block.t) (b : Block.t) :
  get filePath (PdfSyncObject.blockNumberLine o) = Some linePageBlocks ->
  firstBucket linePageBlocks line blocks b ->
  syncTexJsForward line filePath o
  = Ok (directLocation (PdfSyncObject.offset o) blocks b).
Proof.
  intros Hget Hfirst. unfold syncTexJsForward. rewrite Hget. simpl.
  rewrite (@findIndex_recorded line _ (sortNumbers_sorted _)
             (firstBucket_recorded Hfirst)).
  rewrite N.eqb_refl, orb_true_r.
  rewrite (firstPageBlocks_first Hfirst). simpl.
  destruct Hfirst as (_ & _ & _ & _ & _ & Hb). rewrite Hb. reflexivity.
Qed.

(** C4.  Asked for a line that is recorded for the file, forward search
    finds that very line in the sorted line numbers, so that the test of the
    first branch holds, and returns the position computed directly from the
    first page bucket of that line: the page of its elements, the left and
    bottom edges of their covering rectangle moved by the offset. *)
Theorem forward_exact (line : N) (filePath : string) (o : PdfSyncObject.t)
    (linePageBlocks : LinePageBlocks) (pageBlocks : PageBlocks) :
  wellFormedIndex (PdfSyncObject.blockNumberLine o) ->
  get filePath (PdfSyncObject.blockNumberLine o) = Some linePageBlocks ->
  get line linePageBlocks = Some pageBlocks ->
  let lineNums := sortNumbers (keys linePageBlocks) in
  at_ lineNums (findIndex (fun x => (line <=? x)%N) lineNums) = Some line
  /\ exists page blocks b,
       hd_error (keys pageBlocks) = Some page
       /\ get page pageBlocks = Some blocks
       /\ hd_error blocks = Some b
       /\ syncTexJsForward line filePath o
          = Ok {| SyncTeXRecordForward.page := Block.page b;
                  SyncTeXRecordForward.x :=
                    (Rect.left (getCoveringRectangle blocks)
                     + Offset.x (PdfSyncObject.offset o))%Q;
                  SyncTeXRecordForward.y :=
                    (Rect.bottom (getCoveringRectangle blocks)
                     + Offset.y (PdfSyncObject.offset o))%Q |}.
Proof.
  intros Hwf Hget Hline. split.
  { apply findIndex_recorded; [apply sortNumbers_sorted|].
    apply In_sortNumbers. exact (get_keys _ _ Hline). }
  destruct (wellFormedIndex_firstBucket _ _ Hwf Hget Hline)
    as (page & blocks & b & Hk & Hb & Hhd).
  exists page, blocks, b. split; [exact Hk|]. split; [exact Hb|]. split; [exact Hhd|].
  apply (@forward_recorded line filePath o linePageBlocks blocks b Hget).
  exists pageBlocks, page. now repeat split.
Qed.

Lemma forward_exact_witness :
  at_ (sortNumbers [12%N; 14%N; 20%N])
      (findIndex (fun x => (14 <=? x)%N) (sortNumbers [12%N; 14%N; 20%N]))
  = Some 14%N
  /\ exists page blocks b,
    hd_error (keys [(1%N, [element "/doc/main.tex" 14 1 3 16 (Some 4) 2;
                           element "/doc/main.tex" 14 1 7 18 (Some 4) 2])])
    = Some page
    /\ get page [(1%N, [element "/doc/main.tex" 14 1 3 16 (Some 4) 2;
                        element "/doc/main.tex" 14 1 7 18 (Some 4) 2])]
       = Some blocks
    /\ hd_error blocks = Some b
    /\ syncTexJsForward 14 "/doc/main.tex" threeLines
       = Ok {| SyncTeXRecordForward.page := Block.page b;
               SyncTeXRecordForward.x :=
                 (Rect.left (getCoveringRectangle blocks) + 1)%Q;
               SyncTeXRecordForward.y :=
                 (Rect.bottom (getCoveringRectangle blocks) + 2)%Q |}.
Proof.
  refine (@forward_exact 14 "/doc/main.tex" threeLines _ _ _ eq_refl eq_refl).
  apply wellFormedIndexb_sound. reflexivity.
Defined.

(** *** Interpolation *)




Lemma between_shift (a v b d : Q) : between a v b -> between (a + d) (v + d) (b + d).
Proof. unfold between. intros [[H1 H2] | [H1 H2]]; [left | right]; split; lra. Qed.

(** The answer between two neighbouring recorded lines whose first buckets
    are known. *)
Lemma forward_between (line line0 line1 : N) (filePath : string)
    (o : PdfSyncObject.t) (linePageBlocks : LinePageBlocks)
    (blocks0 blocks1 : list Block.t) (b0 b1 : Block.t) :
  get filePath (PdfSyncObject.blockNumberLine o) = Some linePageBlocks ->
  firstBucket linePageBlocks line0 blocks0 b0 ->
  firstBucket linePageBlocks line1 blocks1 b1 ->
  (forall k, In k (keys linePageBlocks) -> ~ (line0 < k < line1)%N) ->
  (line0 < line < line1)%N ->
  syncTexJsForward line filePath o
  = Ok {| SyncTeXRecordForward.page := Block.page b1;
          SyncTeXRecordForward.x :=
            (Rect.left (getCoveringRectangle blocks1)
             + Offset.x (PdfSyncObject.offset o))%Q;
          SyncTeXRecordForward.y :=
            (interpolated (Rect.bottom (getCoveringRectangle blocks0))
                          (Rect.bottom (getCoveringRectangle blocks1))
                          line0 line line1
             + Offset.y (PdfSyncObject.offset o))%Q |}.
Proof.
  intros Hget H0 H1 Hadj Hlt.
  assert (Hadj' : forall k, In k (sortNumbers (keys linePageBlocks)) ->
                            ~ (line0 < k < line1)%N).
  { intros k Hk. apply Hadj. now apply In_sortNumbers. }
  destruct (@findIndex_between line line0 line1 _ (sortNumbers_sorted _)
              (firstBucket_recorded H0) (firstBucket_recorded H1) Hadj' Hlt)
    as (Hi & Hat1 & Hat0).
  unfold syncTexJsForward. rewrite Hget. simpl.
  rewrite Hi, Hat1, Hat0. simpl.
  replace (line1 =? line)%N with false by (symmetry; apply N.eqb_neq; lia).
  rewrite (firstPageBlocks_first H0), (firstPageBlocks_first H1). simpl.
  destruct H1 as (_ & _ & _ & _ & _ & Hb). rewrite Hb. simpl. reflexivity.
Qed.

(** *** The rounding of binary64 *)

Section Binary64Facts.
Local Open Scope Q_scope.

Lemma pow2_pos (e : Z) : 0 < pow2 e.
Proof. apply Qpower_0_lt. reflexivity. Qed.

Lemma pow2_add (a b : Z) : pow2 (a + b) == pow2 a * pow2 b.
Proof. apply Qpower_plus. discriminate. Qed.

Lemma pow2_le (a b : Z) : (a <= b)%Z -> pow2 a <= pow2 b.
Proof. intro H. apply Qpower_le_compat_l; [exact H | discriminate]. Qed.

Lemma pow2_lt (a b : Z) : (a < b)%Z -> pow2 a < pow2 b.
Proof. intro H. apply Qpower_lt_compat_l; [exact H | reflexivity]. Qed.

Lemma pow2_lt_inv (a b : Z) : pow2 a < pow2 b -> (a < b)%Z.
Proof. intro H. apply (Qpower_lt_compat_l_inv 2); [exact H | reflexivity]. Qed.

Lemma pow2_Z (e : Z) : (0 <= e)%Z -> pow2 e == inject_Z (2 ^ e).
Proof. intro H. unfold pow2. now rewrite Zpower_Qpower. Qed.

Lemma log2_bounds (n : Z) :
  (0 < n)%Z -> pow2 (Z.log2 n) <= inject_Z n /\ inject_Z n < pow2 (Z.log2 n + 1).
Proof.
  intro H. destruct (Z.log2_spec n H) as [H1 H2].
  pose proof (Z.log2_nonneg n) as H0.
  rewrite !pow2_Z by lia. rewrite <- Zle_Qle, <- Zlt_Qlt.
  split; [exact H1|]. replace (Z.log2 n + 1)%Z with (Z.succ (Z.log2 n)) by lia. exact H2.
Qed.

Lemma ilog2_spec (q : Q) : 0 < q -> pow2 (ilog2 q) <= q /\ q < pow2 (ilog2 q + 1).
Proof.
  intro Hq. destruct q as [a b].
  assert (Ha : (0 < a)%Z).
  { unfold Qlt in Hq. simpl in Hq. lia. }
  destruct (log2_bounds Ha) as [Ha1 Ha2].
  destruct (@log2_bounds (Zpos b) eq_refl) as [Hb1 Hb2].
  assert (Eq : (a # b) * inject_Z (Zpos b) == inject_Z a).
  { unfold Qeq, Qmult, inject_Z. simpl. rewrite Pos.mul_1_r. ring. }
  assert (Hb : 0 < inject_Z (Zpos b)) by reflexivity.
  unfold ilog2. simpl Qnum. simpl Qden.
  set (la := Z.log2 a) in *. set (lb := Z.log2 (Zpos b)) in *.
  set (qa := inject_Z a) in *. set (qb := inject_Z (Zpos b)) in *.
  set (q := a # b) in *.
  assert (Hlow : pow2 (la - lb - 1) <= q).
  { apply (Qmult_le_r _ _ qb Hb). rewrite Eq.
    apply Qle_trans with (pow2 (la - lb - 1) * pow2 (lb + 1)).
    - apply Qmult_le_l; [apply pow2_pos | apply Qlt_le_weak, Hb2].
    - rewrite <- pow2_add. replace (la - lb - 1 + (lb + 1))%Z with la by lia. exact Ha1. }
  assert (Hhigh : q < pow2 (la - lb + 1)).
  { apply (Qmult_lt_r _ _ qb Hb). rewrite Eq.
    apply Qlt_le_trans with (pow2 (la - lb + 1) * pow2 lb).
    - rewrite <- pow2_add. replace (la - lb + 1 + lb)%Z with (la + 1)%Z by lia. exact Ha2.
    - apply Qmult_le_l; [apply pow2_pos | exact Hb1]. }
  destruct (Qltb q (pow2 (la - lb))) eqn:E.
  - apply Qltb_true in E. split; [exact Hlow|].
    replace (la - lb - 1 + 1)%Z with (la - lb)%Z by lia. exact E.
  - split; [|exact Hhigh].
    apply Qnot_lt_le. intro H. apply Qltb_true in H. congruence.
Qed.

Lemma ilog2_ge (q : Q) (k : Z) : pow2 k <= q -> (k <= ilog2 q)%Z.
Proof.
  intro H. assert (Hq : 0 < q) by (eapply Qlt_le_trans; [apply pow2_pos | exact H]).
  destruct (ilog2_spec Hq) as [_ H2].
  assert (pow2 k < pow2 (ilog2 q + 1)) by (eapply Qle_lt_trans; eassumption).
  apply pow2_lt_inv in H0. lia.
Qed.

Lemma ilog2_lt (q : Q) (k : Z) : 0 < q -> q < pow2 k -> (ilog2 q < k)%Z.
Proof.
  intros Hq H. destruct (ilog2_spec Hq) as [H1 _].
  apply pow2_lt_inv. eapply Qle_lt_trans; eassumption.
Qed.

Lemma nearestEven_spec (m : Q) :
  m - (1 # 2) <= inject_Z (nearestEven m) /\ inject_Z (nearestEven m) <= m + (1 # 2).
Proof.
  unfold nearestEven. pose proof (Qfloor_le m) as H1. pose proof (Qlt_floor m) as H2.
  set (f := Qfloor m) in *. rewrite inject_Z_plus in H2.
  change (inject_Z 1) with 1 in H2.
  destruct (Qcompare (m - inject_Z f) (1 # 2)) eqn:E.
  - apply Qeq_alt in E. destruct (Z.even f).
    + split; lra.
    + rewrite inject_Z_plus. change (inject_Z 1) with 1. split; lra.
  - apply Qlt_alt in E. split; lra.
  - apply Qgt_alt in E. rewrite inject_Z_plus. change (inject_Z 1) with 1. split; lra.
Qed.

Lemma nearestEven_Z (m : Q) (z : Z) : m == inject_Z z -> nearestEven m = z.
Proof.
  intro H. unfold nearestEven.
  assert (Hf : Qfloor m = z) by (rewrite H; apply Qfloor_Z).
  rewrite Hf.
  assert (E : Qcompare (m - inject_Z z) (1 # 2) = Lt).
  { apply Qlt_alt. rewrite H. unfold Qminus. rewrite Qplus_opp_r. reflexivity. }
  now rewrite E.
Qed.

Lemma roundPos_rel (q : Q) :
  pow2 (-1022) <= q -> q * (1 - ulp) <= roundPos q /\ roundPos q <= q * (1 + ulp).
Proof.
  intro H. assert (Hq : 0 < q) by (eapply Qlt_le_trans; [apply pow2_pos | exact H]).
  pose proof (ilog2_ge _ H) as Hk. destruct (ilog2_spec Hq) as [H1 _].
  unfold roundPos. rewrite Z.max_l by lia.
  set (e := (ilog2 q - 52)%Z) in *.
  pose proof (pow2_pos e) as He.
  destruct (nearestEven_spec (q / pow2 e)) as [Hn1 Hn2].
  set (n := inject_Z (nearestEven (q / pow2 e))) in *.
  assert (Em : q / pow2 e * pow2 e == q) by (field; lra).
  assert (Hu : pow2 e * (1 # 2) <= q * ulp).
  { unfold ulp. apply Qle_trans with (pow2 (ilog2 q) * pow2 (-53)).
    - rewrite <- pow2_add. change (1 # 2) with (pow2 (-1)). rewrite <- pow2_add.
      apply pow2_le. unfold e. lia.
    - apply Qmult_le_r; [apply pow2_pos | exact H1]. }
  assert (Hlo : (q / pow2 e - (1 # 2)) * pow2 e <= n * pow2 e).
  { apply Qmult_le_r; [exact He | exact Hn1]. }
  assert (Hhi : n * pow2 e <= (q / pow2 e + (1 # 2)) * pow2 e).
  { apply Qmult_le_r; [exact He | exact Hn2]. }
  split.
  - apply Qle_trans with ((q / pow2 e - (1 # 2)) * pow2 e); [|exact Hlo].
    setoid_replace ((q / pow2 e - (1 # 2)) * pow2 e) with (q - pow2 e * (1 # 2))
      by (rewrite <- Em at 2; ring).
    lra.
  - apply Qle_trans with ((q / pow2 e + (1 # 2)) * pow2 e); [exact Hhi|].
    setoid_replace ((q / pow2 e + (1 # 2)) * pow2 e) with (q + pow2 e * (1 # 2))
      by (rewrite <- Em at 2; ring).
    lra.
Qed.

Lemma round64_rel (x : Q) :
  sizeable (pow2 (-1022)) x ->
  x * (1 - ulp) <= round64 x /\ round64 x <= x * (1 + ulp).
Proof.
  intros [H | H]; unfold round64.
  - assert (E : Qcompare x 0 = Eq) by now apply Qeq_alt.
    rewrite E, H. split; lra.
  - assert (Hx : 0 < x) by (eapply Qlt_le_trans; [apply pow2_pos | exact H]).
    assert (E : Qcompare x 0 = Gt) by now apply Qgt_alt.
    rewrite E. now apply roundPos_rel.
Qed.

Lemma round64_int (q : Q) (z : Z) :
  q == inject_Z z -> (0 < z < 2 ^ 53)%Z -> round64 q == inject_Z z.
Proof.
  intros Hq [Hz0 Hz1].
  assert (Hpos : 0 < q) by (rewrite Hq; now rewrite <- (Zlt_Qlt 0)).
  assert (Hk0 : (0 <= ilog2 q)%Z).
  { apply ilog2_ge. rewrite Hq. change (pow2 0) with (inject_Z 1).
    rewrite <- Zle_Qle. lia. }
  assert (Hk1 : (ilog2 q < 53)%Z).
  { apply ilog2_lt; [exact Hpos|]. rewrite Hq, pow2_Z by lia. now rewrite <- Zlt_Qlt. }
  unfold round64.
  assert (E : Qcompare q 0 = Gt) by now apply Qgt_alt.
  rewrite E. unfold roundPos. rewrite Z.max_l by lia.
  set (e := (ilog2 q - 52)%Z) in *.
  assert (Ee : pow2 e * pow2 (- e) == 1).
  { rewrite <- pow2_add. now replace (e + - e)%Z with 0%Z by lia. }
  pose proof (pow2_pos e) as He.
  assert (Em : q / pow2 e == inject_Z (z * 2 ^ (- e))).
  { rewrite inject_Z_mult, <- pow2_Z by lia. rewrite Hq.
    apply (Qmult_inj_r _ _ (pow2 e)); [lra|].
    setoid_replace (inject_Z z / pow2 e * pow2 e) with (inject_Z z) by (field; lra).
    rewrite <- Qmult_assoc, (Qmult_comm (pow2 (- e))), Ee. ring. }
  rewrite (nearestEven_Z Em), <- Em, <- Hq. field. lra.
Qed.

Lemma up_bounds : 1 <= up /\ 0 < down /\ (1 # 2) <= down /\ down <= 1.
Proof. repeat split; apply Qle_bool_imp_le || apply Qlt_alt; vm_compute; reflexivity. Qed.

Lemma sizeable_weaken (t t' x : Q) : t' <= t -> sizeable t x -> sizeable t' x.
Proof. intros Ht [H | H]; [now left | right; lra]. Qed.

Lemma sizeable_nonneg (t x : Q) : 0 <= t -> sizeable t x -> 0 <= x.
Proof. intros Ht [H | H]; lra. Qed.

Lemma round64_sizeable (t x : Q) :
  pow2 (-1022) <= t -> sizeable t x ->
  sizeable (t * (1 # 2)) (round64 x)
  /\ x * down <= round64 x /\ round64 x <= x * up.
Proof.
  intros Ht Hx. pose proof (pow2_pos (-1022)) as Hp.
  destruct (round64_rel (sizeable_weaken Ht Hx)) as [H1 H2].
  fold down in H1. fold up in H2. destruct up_bounds as (Hu & Hd & Hd' & _).
  split; [|now split].
  destruct Hx as [Hx | Hx].
  - left. assert (E1 : x * down == 0) by (rewrite Hx; ring).
    assert (E2 : x * up == 0) by (rewrite Hx; ring). lra.
  - right. apply Qle_trans with (x * down); [|exact H1].
    nra.
Qed.

Lemma fsub_lines (a b : N) :
  (b < a)%N -> (a < 2 ^ 53)%N ->
  fsub (num a) (num b) == inject_Z (Z.of_N a - Z.of_N b).
Proof.
  intros H1 H2. apply round64_int.
  - unfold num, Z.sub. rewrite inject_Z_plus, inject_Z_opp. reflexivity.
  - split; [lia|]. change (2 ^ 53)%Z with (Z.of_N (2 ^ 53)). lia.
Qed.

(** One term of the interpolation: [c * w / d], rounded twice. *)
Lemma term_bounds (c w d W D : Q) (t : Q) :
  pow2 (-1022) <= t * (1 # 2) * pow2 (-53) ->
  sizeable t c -> 0 <= t ->
  W == w -> D == d -> 1 <= w -> w <= d -> d <= pow2 53 ->
  let q := fdiv (fmul c W) D in
  sizeable (t * (1 # 2) * pow2 (-53) * (1 # 2)) q
  /\ c * (w / d) * (down * down) <= q
  /\ q <= c * (w / d) * (up * up).
Proof.
  intros Ht Hc Ht0 HW HD Hw Hwd Hd q.
  destruct up_bounds as (Hu & Hdn & Hdn' & Hdn1).
  pose proof (pow2_pos (-53)) as Hp53. pose proof (pow2_pos (-1022)) as Hp.
  assert (Hc0 : 0 <= c) by (eapply sizeable_nonneg; eassumption).
  assert (Hd0 : 0 < d) by lra.
  assert (Hx : sizeable t (c * W)).
  { destruct Hc as [Hc | Hc]; [left; rewrite Hc; ring | right].
    rewrite HW. nra. }
  assert (Ht1 : pow2 (-1022) <= t).
  { apply Qle_trans with (t * (1 # 2) * pow2 (-53)); [exact Ht|].
    assert (pow2 (-53) <= 1) by (apply Qle_bool_imp_le; vm_compute; reflexivity).
    nra. }
  destruct (round64_sizeable Ht1 Hx) as (Hp0 & Hp1 & Hp2).
  fold (fmul c W) in Hp0, Hp1, Hp2. set (p := fmul c W) in *.
  assert (Hp0' : 0 <= p) by (eapply sizeable_nonneg; [|exact Hp0]; lra).
  assert (Einv : pow2 53 * pow2 (-53) == 1) by (rewrite <- pow2_add; reflexivity).
  assert (Hy : sizeable (t * (1 # 2) * pow2 (-53)) (p / D)).
  { destruct Hp0 as [E | E]; [left; rewrite E; field; lra | right].
    rewrite HD. apply Qle_shift_div_l; [exact Hd0|].
    apply Qle_trans with (t * (1 # 2) * pow2 (-53) * pow2 53).
    - apply Qmult_le_l; [|exact Hd].
      apply Qmult_lt_0_compat; [|exact Hp53]. lra.
    - rewrite <- Qmult_assoc, (Qmult_comm (pow2 (-53))), Einv. lra. }
  destruct (round64_sizeable Ht Hy) as (Hq0 & Hq1 & Hq2).
  fold (fdiv p D) in Hq0, Hq1, Hq2. fold q in Hq0, Hq1, Hq2.
  split; [exact Hq0|].
  assert (Hinv : 0 < / d) by now apply Qinv_lt_0_compat.
  assert (E1 : p / D == p * / d) by (rewrite HD; reflexivity).
  assert (E2 : forall k, c * (w / d) * (k * k) == c * w * k * / d * k) by (intro k; field; lra).
  rewrite HW in Hp1, Hp2. rewrite E1 in Hq1, Hq2. rewrite !E2. split.
  - apply Qle_trans with (p * / d * down); [|exact Hq1].
    apply Qmult_le_compat_r; [|lra]. apply Qmult_le_compat_r; lra.
  - apply Qle_trans with (p * / d * up); [exact Hq2|].
    apply Qmult_le_compat_r; [|lra]. apply Qmult_le_compat_r; lra.
Qed.

Lemma Qmult_le_compat_left (k x y : Q) : x <= y -> 0 <= k -> k * x <= k * y.
Proof. intros H Hk. rewrite !(Qmult_comm k). now apply Qmult_le_compat_r. Qed.

Lemma sizeable_plus (t x y : Q) :
  0 <= t -> sizeable t x -> sizeable t y -> sizeable t (x + y).
Proof.
  intros Ht [Hx | Hx] [Hy | Hy]; [left | right | right | right]; lra.
Qed.

Lemma interpolated64_bounds (c0 c1 lo hi : Q) (line0 line line1 : N) :
  (line0 < line < line1)%N -> (line1 < 2 ^ 53)%N ->
  0 <= lo -> lo <= c0 <= hi -> lo <= c1 <= hi ->
  sizeable tiny c0 -> sizeable tiny c1 ->
  let v := interpolated64 c0 c1 line0 line line1 in
  sizeable (pow2 (-960)) v
  /\ lo * (down * down * down) <= v
  /\ v <= hi * (up * up * up).
Proof.
  intros [Hl0 Hl1] Hmax Hlo [Hc0 Hc0'] [Hc1 Hc1'] Hs0 Hs1 v.
  destruct up_bounds as (Hu & Hdn & Hdn' & Hdn1).
  assert (HA := @fsub_lines line1 line Hl1 Hmax).
  assert (HB := @fsub_lines line line0 Hl0 ltac:(lia)).
  assert (HD := @fsub_lines line1 line0 ltac:(lia) Hmax).
  set (a := inject_Z (Z.of_N line1 - Z.of_N line)) in *.
  set (b := inject_Z (Z.of_N line - Z.of_N line0)) in *.
  set (d := inject_Z (Z.of_N line1 - Z.of_N line0)) in *.
  assert (Ha : 1 <= a) by (unfold a; rewrite <- (Zle_Qle 1); lia).
  assert (Hb : 1 <= b) by (unfold b; rewrite <- (Zle_Qle 1); lia).
  assert (Hab : a + b == d).
  { unfold a, b, d. rewrite <- inject_Z_plus. apply inject_Z_injective. lia. }
  assert (Hd : d <= pow2 53).
  { unfold d. rewrite pow2_Z by lia. rewrite <- Zle_Qle.
    change (2 ^ 53)%Z with (Z.of_N (2 ^ 53)). lia. }
  assert (Ht : pow2 (-1022) <= tiny * (1 # 2) * pow2 (-53))
    by (apply Qle_bool_imp_le; vm_compute; reflexivity).
  assert (Ht0 : 0 <= tiny) by (apply Qlt_le_weak, pow2_pos).
  destruct (@term_bounds c0 a d _ _ tiny Ht Hs0 Ht0 HA HD Ha ltac:(lra) Hd)
    as (Hq0 & Hq0l & Hq0u).
  destruct (@term_bounds c1 b d _ _ tiny Ht Hs1 Ht0 HB HD Hb ltac:(lra) Hd)
    as (Hq1 & Hq1l & Hq1u).
  set (q0 := fdiv (fmul c0 (fsub (num line1) (num line))) (fsub (num line1) (num line0))) in *.
  set (q1 := fdiv (fmul c1 (fsub (num line) (num line0))) (fsub (num line1) (num line0))) in *.
  set (t' := tiny * (1 # 2) * pow2 (-53) * (1 # 2)) in *.
  assert (Ht' : pow2 (-1022) <= t') by (apply Qle_bool_imp_le; vm_compute; reflexivity).
  assert (Ht'0 : 0 <= t') by (pose proof (pow2_pos (-1022)); lra).
  destruct (round64_sizeable Ht' (sizeable_plus Ht'0 Hq0 Hq1)) as (Hv & Hvl & Hvu).
  fold (fadd q0 q1) in Hv, Hvl, Hvu. change (fadd q0 q1) with v in Hv, Hvl, Hvu.
  split.
  { eapply sizeable_weaken; [|exact Hv].
    apply Qle_bool_imp_le. vm_compute. reflexivity. }
  assert (Hd0 : 0 < d) by lra.
  set (w0 := a / d) in *. set (w1 := b / d) in *.
  assert (Hw : w0 + w1 == 1) by (unfold w0, w1; rewrite <- Hab; field; lra).
  assert (Hw0 : 0 <= w0) by (unfold w0; apply Qle_shift_div_l; lra).
  assert (Hw1 : 0 <= w1) by (unfold w1; apply Qle_shift_div_l; lra).
  assert (Hmix_hi : c0 * w0 + c1 * w1 <= hi) by nra.
  assert (Hmix_lo : lo <= c0 * w0 + c1 * w1) by nra.
  assert (Hu2 : 0 <= up * up) by nra.
  assert (Hd2 : 0 <= down * down) by nra.
  split.
  - apply Qle_trans with ((q0 + q1) * down); [|exact Hvl].
    apply Qle_trans with ((c0 * w0 + c1 * w1) * (down * down) * down).
    + setoid_replace (lo * (down * down * down)) with (lo * (down * down) * down) by ring.
      apply Qmult_le_compat_r; [|lra]. apply Qmult_le_compat_r; lra.
    + apply Qmult_le_compat_r; [|lra].
      setoid_replace ((c0 * w0 + c1 * w1) * (down * down))
        with (c0 * w0 * (down * down) + c1 * w1 * (down * down)) by ring.
      lra.
  - apply Qle_trans with ((q0 + q1) * up); [exact Hvu|].
    apply Qle_trans with ((c0 * w0 + c1 * w1) * (up * up) * up).
    + apply Qmult_le_compat_r; [|lra].
      setoid_replace ((c0 * w0 + c1 * w1) * (up * up))
        with (c0 * w0 * (up * up) + c1 * w1 * (up * up)) by ring.
      lra.
    + setoid_replace (hi * (up * up * up)) with (hi * (up * up) * up) by ring.
      apply Qmult_le_compat_r; [|lra]. apply Qmult_le_compat_r; lra.
Qed.

Lemma shifted_bounds (lo hi v off : Q) :
  0 <= lo -> lo <= hi ->
  sizeable tiny lo -> sizeable tiny hi -> sizeable tiny off ->
  sizeable (pow2 (-960)) v ->
  lo * (down * down * down) <= v -> v <= hi * (up * up * up) ->
  fadd lo off * (1 - slack) <= fadd v off
  /\ fadd v off <= fadd hi off * (1 + slack).
Proof.
  intros Hlo Hhi Hslo Hshi Hsoff Hsv Hvl Hvu.
  destruct up_bounds as (Hu & Hdn & Hdn' & Hdn1).
  assert (Ht : pow2 (-1022) <= tiny) by (apply Qle_bool_imp_le; vm_compute; reflexivity).
  assert (Ht' : pow2 (-1022) <= pow2 (-960)) by (apply pow2_le; lia).
  assert (Htt : pow2 (-960) <= tiny) by (apply pow2_le; lia).
  assert (Ht0 : 0 <= tiny) by (apply Qlt_le_weak, pow2_pos).
  assert (Hoff : 0 <= off) by (eapply sizeable_nonneg; eassumption).
  assert (Hv0 : 0 <= v) by (eapply sizeable_nonneg; [|exact Hsv]; apply Qlt_le_weak, pow2_pos).
  destruct (round64_sizeable Ht (sizeable_plus Ht0 Hslo Hsoff)) as (_ & _ & Hylo).
  destruct (round64_sizeable Ht (sizeable_plus Ht0 Hshi Hsoff)) as (_ & Hyhi & _).
  assert (Hsum : sizeable (pow2 (-960)) (v + off)).
  { apply sizeable_plus; [apply Qlt_le_weak, pow2_pos | exact Hsv|].
    eapply sizeable_weaken; eassumption. }
  destruct (round64_sizeable Ht' Hsum) as (_ & Hyl & Hyu).
  fold (fadd lo off) in Hylo. fold (fadd hi off) in Hyhi. fold (fadd v off) in Hyl, Hyu.
  assert (K1 : up * up * up * up <= down * (1 + slack))
    by (apply Qle_bool_imp_le; vm_compute; reflexivity).
  assert (K2 : up * (1 - slack) <= down * down * down * down)
    by (apply Qle_bool_imp_le; vm_compute; reflexivity).
  assert (Ks : 0 <= 1 - slack /\ 0 <= 1 + slack)
    by (split; apply Qle_bool_imp_le; vm_compute; reflexivity).
  assert (Hu3 : 1 <= up * up * up) by nra.
  assert (Hd3 : down * down * down <= 1) by nra.
  assert (Hd3' : 0 <= down * down * down) by nra.
  split.
  - apply Qle_trans with ((v + off) * down); [|exact Hyl].
    apply Qle_trans with ((lo + off) * up * (1 - slack)).
    { apply Qmult_le_compat_r; [exact Hylo | tauto]. }
    apply Qle_trans with ((lo + off) * (down * down * down * down)).
    { setoid_replace ((lo + off) * up * (1 - slack))
        with ((lo + off) * (up * (1 - slack))) by ring.
      apply Qmult_le_compat_left; [exact K2 | lra]. }
    setoid_replace ((lo + off) * (down * down * down * down))
      with ((lo + off) * (down * down * down) * down) by ring.
    apply Qmult_le_compat_r; [|lra]. nra.
  - apply Qle_trans with ((v + off) * up); [exact Hyu|].
    apply Qle_trans with ((hi + off) * down * (1 + slack)).
    2:{ apply Qmult_le_compat_r; [exact Hyhi | tauto]. }
    apply Qle_trans with ((hi + off) * (up * up * up * up)).
    2:{ setoid_replace ((hi + off) * down * (1 + slack))
          with ((hi + off) * (down * (1 + slack))) by ring.
        apply Qmult_le_compat_left; [exact K1 | lra]. }
    setoid_replace ((hi + off) * (up * up * up * up))
      with ((hi + off) * (up * up * up) * up) by ring.
    apply Qmult_le_compat_r; [|lra]. nra.
Qed.

(** The rounded interpolation, moved by the offset, lies between the two
    rounded ends up to the relative error [slack]. *)
Lemma interpolated64_nearly_between (c0 c1 off : Q) (line0 line line1 : N) :
  (line0 < line < line1)%N -> (line1 < 2 ^ 53)%N ->
  sizeable tiny c0 -> sizeable tiny c1 -> sizeable tiny off ->
  nearlyBetween (fadd c0 off)
                (fadd (interpolated64 c0 c1 line0 line line1) off)
                (fadd c1 off).
Proof.
  intros Hl Hmax Hs0 Hs1 Hoff.
  assert (Ht0 : 0 <= tiny) by (apply Qlt_le_weak, pow2_pos).
  pose proof (sizeable_nonneg Ht0 Hs0) as H0. pose proof (sizeable_nonneg Ht0 Hs1) as H1.
  destruct (Qlt_le_dec c1 c0) as [Hc | Hc].
  - right.
    destruct (@interpolated64_bounds c0 c1 c1 c0 line0 line line1 Hl Hmax H1
                ltac:(lra) ltac:(lra) Hs0 Hs1) as (Hv & Hvl & Hvu).
    apply (@shifted_bounds c1 c0 _ off); try assumption; lra.
  - left.
    destruct (@interpolated64_bounds c0 c1 c0 c1 line0 line line1 Hl Hmax H0
                ltac:(lra) ltac:(lra) Hs0 Hs1) as (Hv & Hvl & Hvu).
    apply (@shifted_bounds c0 c1 _ off); try assumption; lra.
Qed.
End Binary64Facts.

(** On the computations of the example below, the operations defined here
    give the results of the operations that the Standard Library specifies
    for IEEE 754 at the precision and the exponent range of binary64. *)
Lemma binary64_reference :
  sameValue specUnit unit64 = true
  /\ sameValue (SpecFloat.SFdiv 53 1024 (specOfZ 1327685) specUnit) levelBottom = true
  /\ sameValue (specInterpolated (SpecFloat.SFdiv 53 1024 (specOfZ 1327685) specUnit)
                                  (SpecFloat.SFdiv 53 1024 (specOfZ 1327685) specUnit)
                                  10 12 15)
               (interpolated64 levelBottom levelBottom 10 12 15) = true.
Proof. repeat split; vm_compute; reflexivity. Qed.

(** *** Forward search with rounded arithmetic *)

Lemma forward64_recorded (line : N) (filePath : string) (o : PdfSyncObject.t)
    (linePageBlocks : LinePageBlocks) (blocks : list Block.t) (b : Block.t) :
  get filePath (PdfSyncObject.blockNumberLine o) = Some linePageBlocks ->
  firstBucket linePageBlocks line blocks b ->
  syncTexJsForward64 line filePath o
  = Ok {| SyncTeXRecordForward.page := Block.page b;
          SyncTeXRecordForward.x :=
            fadd (Rect.left (getCoveringRectangle blocks))
                 (Offset.x (PdfSyncObject.offset o));
          SyncTeXRecordForward.y :=
            fadd (Rect.bottom (getCoveringRectangle blocks))
                 (Offset.y (PdfSyncObject.offset o)) |}.
Proof.
  intros Hget Hfirst. unfold syncTexJsForward64. rewrite Hget. simpl.
  rewrite (@findIndex_recorded line _ (sortNumbers_sorted _)
             (firstBucket_recorded Hfirst)).
  rewrite N.eqb_refl, orb_true_r.
  rewrite (firstPageBlocks_first Hfirst). simpl.
  destruct Hfirst as (_ & _ & _ & _ & _ & Hb). rewrite Hb. reflexivity.
Qed.

Lemma forward64_between (line line0 line1 : N) (filePath : string)
    (o : PdfSyncObject.t) (linePageBlocks : LinePageBlocks)
    (blocks0 blocks1 : list Block.t) (b0 b1 : Block.t) :
  get filePath (PdfSyncObject.blockNumberLine o) = Some linePageBlocks ->
  firstBucket linePageBlocks line0 blocks0 b0 ->
  firstBucket linePageBlocks line1 blocks1 b1 ->
  (forall k, In k (keys linePageBlocks) -> ~ (line0 < k < line1)%N) ->
  (line0 < line < line1)%N ->
  syncTexJsForward64 line filePath o
  = Ok {| SyncTeXRecordForward.page := Block.page b1;
          SyncTeXRecordForward.x :=
            fadd (Rect.left (getCoveringRectangle blocks1))
                 (Offset.x (PdfSyncObject.offset o));
          SyncTeXRecordForward.y :=
            fadd (interpolated64 (Rect.bottom (getCoveringRectangle blocks0))
                                 (Rect.bottom (getCoveringRectangle blocks1))
                                 line0 line line1)
                 (Offset.y (PdfSyncObject.offset o)) |}.
Proof.
  intros Hget H0 H1 Hadj Hlt.
  assert (Hadj' : forall k, In k (sortNumbers (keys linePageBlocks)) ->
                            ~ (line0 < k < line1)%N).
  { intros k Hk. apply Hadj. now apply In_sortNumbers. }
  destruct (@findIndex_between line line0 line1 _ (sortNumbers_sorted _)
              (firstBucket_recorded H0) (firstBucket_recorded H1) Hadj' Hlt)
    as (Hi & Hat1 & Hat0).
  unfold syncTexJsForward64. rewrite Hget. simpl.
  rewrite Hi, Hat1, Hat0. simpl.
  replace (line1 =? line)%N with false by (symmetry; apply N.eqb_neq; lia).
  rewrite (firstPageBlocks_first H0), (firstPageBlocks_first H1). simpl.
  destruct H1 as (_ & _ & _ & _ & _ & Hb). rewrite Hb. simpl. reflexivity.
Qed.

Lemma firstBlocks_first (linePageBlocks : LinePageBlocks) (l : N)
    (blocks : list Block.t) (b : Block.t) :
  firstBucket linePageBlocks l blocks b -> firstBlocks linePageBlocks l = blocks.
Proof.
  intro H. unfold firstBlocks. now rewrite (firstPageBlocks_first H).
Qed.

Lemma moderate_sizeable (x : Q) : moderate x -> sizeable tiny x.
Proof. intros [H | [H _]]; [now left | now right]. Qed.

(** C5 (amended).  Between two neighbouring recorded lines, forward search
    returns the interpolated bottom moved by the offset, every operation
    rounded as the source rounds it, and this ordinate lies between the
    ordinates returned for the two lines themselves up to a relative error
    of [2^-50]: it is at least the lesser of the two times [1 - 2^-50] and at
    most the greater times [1 + 2^-50].  The line numbers are below [2^53]
    and the two bottoms and the offset are zero or within the range
    [2^-900 .. 2^900], as the lengths of a synchronisation file are. *)
Theorem forward_interpolation_rounded (line line0 line1 : N) (filePath : string)
    (o : PdfSyncObject.t) (linePageBlocks : LinePageBlocks) :
  wellFormedIndex (PdfSyncObject.blockNumberLine o) ->
  get filePath (PdfSyncObject.blockNumberLine o) = Some linePageBlocks ->
  In line0 (keys linePageBlocks) ->
  In line1 (keys linePageBlocks) ->
  (forall k, In k (keys linePageBlocks) -> ~ (line0 < k < line1)%N) ->
  (line0 < line < line1)%N ->
  (line1 < 2 ^ 53)%N ->
  moderate (Rect.bottom (getCoveringRectangle (firstBlocks linePageBlocks line0))) ->
  moderate (Rect.bottom (getCoveringRectangle (firstBlocks linePageBlocks line1))) ->
  moderate (Offset.y (PdfSyncObject.offset o)) ->
  exists r0 r1 r,
    syncTexJsForward64 line0 filePath o = Ok r0
    /\ syncTexJsForward64 line1 filePath o = Ok r1
    /\ syncTexJsForward64 line filePath o = Ok r
    /\ SyncTeXRecordForward.y r
       = fadd (interpolated64
                 (Rect.bottom (getCoveringRectangle (firstBlocks linePageBlocks line0)))
                 (Rect.bottom (getCoveringRectangle (firstBlocks linePageBlocks line1)))
                 line0 line line1)
              (Offset.y (PdfSyncObject.offset o))
    /\ nearlyBetween (SyncTeXRecordForward.y r0) (SyncTeXRecordForward.y r)
                     (SyncTeXRecordForward.y r1).
Proof.
  intros Hwf Hget Hin0 Hin1 Hadj Hlt Hmax Hc0 Hc1 Hoff.
  destruct (wellFormedIndex_recorded _ _ Hwf Hget Hin0) as (blocks0 & b0 & H0).
  destruct (wellFormedIndex_recorded _ _ Hwf Hget Hin1) as (blocks1 & b1 & H1).
  rewrite (firstBlocks_first H0) in *. rewrite (firstBlocks_first H1) in *.
  eexists. eexists. eexists.
  split; [exact (@forward64_recorded line0 filePath o _ _ _ Hget H0)|].
  split; [exact (@forward64_recorded line1 filePath o _ _ _ Hget H1)|].
  split; [exact (@forward64_between line line0 line1 filePath o _ _ _ _ _
                   Hget H0 H1 Hadj Hlt)|].
  split; [reflexivity|].
  simpl. apply interpolated64_nearly_between; try assumption;
    now apply moderate_sizeable.
Qed.

Lemma forward_interpolation_rounded_witness :
  exists r0 r1 r,
    syncTexJsForward64 12 "/doc/main.tex" threeLines = Ok r0
    /\ syncTexJsForward64 14 "/doc/main.tex" threeLines = Ok r1
    /\ syncTexJsForward64 13 "/doc/main.tex" threeLines = Ok r
    /\ SyncTeXRecordForward.y r
       = fadd (interpolated64
                 (Rect.bottom (getCoveringRectangle
                    (firstBlocks
                       [(12%N, [(1%N, [element "/doc/main.tex" 12 1 3 8 (Some 4) 2])]);
                        (20%N, [(2%N, [element "/doc/main.tex" 20 2 5 30 None 2])]);
                        (14%N, [(1%N, [element "/doc/main.tex" 14 1 3 16 (Some 4) 2;
                                       element "/doc/main.tex" 14 1 7 18 (Some 4) 2])])]
                       12)))
                 (Rect.bottom (getCoveringRectangle
                    (firstBlocks
                       [(12%N, [(1%N, [element "/doc/main.tex" 12 1 3 8 (Some 4) 2])]);
                        (20%N, [(2%N, [element "/doc/main.tex" 20 2 5 30 None 2])]);
                        (14%N, [(1%N, [element "/doc/main.tex" 14 1 3 16 (Some 4) 2;
                                       element "/doc/main.tex" 14 1 7 18 (Some 4) 2])])]
                       14)))
                 12 13 14)
              2
    /\ nearlyBetween (SyncTeXRecordForward.y r0) (SyncTeXRecordForward.y r)
                     (SyncTeXRecordForward.y r1).
Proof.
  refine (@forward_interpolation_rounded 13 12 14 "/doc/main.tex" threeLines _
            _ eq_refl _ _ _ _ _ _ _ _).
  - apply wellFormedIndexb_sound. reflexivity.
  - vm_compute. now left.
  - vm_compute. right. now left.
  - intros k Hk. vm_compute in Hk. destruct Hk as [<- | [<- | [<- | []]]]; lia.
  - lia.
  - reflexivity.
  - right. split; apply Qle_bool_imp_le; vm_compute; reflexivity.
  - right. split; apply Qle_bool_imp_le; vm_compute; reflexivity.
  - right. split; apply Qle_bool_imp_le; vm_compute; reflexivity.
Defined.

(** The ordinate need not lie between the two: with the same bottom on
    lines 10 and 15, the one that the text 1327685 gives, the rounded
    interpolation for line 12 is above it. *)
Lemma forward_interpolation_leaves_interval :
  exists r0 r1 r,
    syncTexJsForward64 10 "/doc/main.tex" levelLines = Ok r0
    /\ syncTexJsForward64 15 "/doc/main.tex" levelLines = Ok r1
    /\ syncTexJsForward64 12 "/doc/main.tex" levelLines = Ok r
    /\ (SyncTeXRecordForward.y r0 < SyncTeXRecordForward.y r)%Q
    /\ (SyncTeXRecordForward.y r1 < SyncTeXRecordForward.y r)%Q
    /\ ~ between (SyncTeXRecordForward.y r0) (SyncTeXRecordForward.y r)
                 (SyncTeXRecordForward.y r1).
Proof.
  eexists. eexists. eexists.
  split; [vm_compute; reflexivity|]. split; [vm_compute; reflexivity|].
  split; [vm_compute; reflexivity|].
  split; [vm_compute; reflexivity|]. split; [vm_compute; reflexivity|].
  intros [[_ H] | [_ H]]; vm_compute in H; apply H; reflexivity.
Qed.

(** *** A file or a line that is not recorded *)

(** C6.  For a file path that has no entry in the line index, forward
    search raises for every line; what is raised is the [TypeError] of
    enumerating an undefined value, not the error of the module. *)
Theorem forward_missing_file (line : N) (filePath : string) (o : PdfSyncObject.t) :
  get filePath (PdfSyncObject.blockNumberLine o) = None ->
  syncTexJsForward line filePath o = Err TypeError.
Proof.
  intro Hget. unfold syncTexJsForward. rewrite Hget. reflexivity.
Qed.

Lemma forward_missing_file_witness :
  syncTexJsForward 12 "/doc/other.tex" threeLines = Err TypeError.
Proof.
  apply forward_missing_file. reflexivity.
Defined.

(** C10.  For a file that is recorded, a line after every recorded line
    gets no position: no index is found, the test of the first branch
    fails, and the second branch raises on its first bucket.  The error is a
    [TypeError], the one a missing file gives as well. *)
Theorem forward_past_last_line (line : N) (filePath : string)
    (o : PdfSyncObject.t) (linePageBlocks : LinePageBlocks) :
  get filePath (PdfSyncObject.blockNumberLine o) = Some linePageBlocks ->
  (forall k, In k (keys linePageBlocks) -> (k < line)%N) ->
  findIndex (fun x => (line <=? x)%N) (sortNumbers (keys linePageBlocks)) = (-1)%Z
  /\ syncTexJsForward line filePath o = Err TypeError.
Proof.
  intros Hget Hall.
  assert (Hi : findIndex (fun x => (line <=? x)%N)
                 (sortNumbers (keys linePageBlocks)) = (-1)%Z).
  { destruct (@findIndex_sorted line _ (sortNumbers_sorted (keys linePageBlocks)))
      as [[Hi _] | (pre & x & post & E & _ & _ & Hx & _)]; [exact Hi|].
    assert (Hin : In x (keys linePageBlocks)).
    { apply In_sortNumbers. rewrite E. apply in_or_app. right. now left. }
    specialize (Hall x Hin). lia. }
  split; [exact Hi|].
  unfold syncTexJsForward. rewrite Hget. simpl. rewrite Hi.
  rewrite !at_negative by lia. reflexivity.
Qed.

Lemma forward_past_last_line_witness :
  findIndex (fun x => (21 <=? x)%N)
    (sortNumbers (keys [(12%N, [(1%N, [element "/doc/main.tex" 12 1 3 8 (Some 4) 2])])]))
  = (-1)%Z
  /\ syncTexJsForward 21 "/doc/main.tex"
       (modelOf noOffset
          [("/doc/main.tex"%string,
            [(12%N, [(1%N, [element "/doc/main.tex" 12 1 3 8 (Some 4) 2])])])])
     = Err TypeError.
Proof.
  apply forward_past_last_line.
  - reflexivity.
  - intros k Hk. vm_compute in Hk. destruct Hk as [<- | []]. lia.
Defined.

(** *** The page bucket that forward search reads *)

(** On the text whose page 2 comes before page 1, the bucket recorded first
    for line 12 is the one of page 2, and forward search answers from the
    bucket of page 1. *)
Lemma forward_not_first_recorded :
  exists o linePageBlocks pageBlocks,
    parseSyncTex reversedPages = Ok o
    /\ get "/doc/main.tex"%string (PdfSyncObject.blockNumberLine o) = Some linePageBlocks
    /\ get 12%N linePageBlocks = Some pageBlocks
    /\ insertionKeys pageBlocks = [2%N; 1%N]
    /\ option_map (map Block.left) (get 2%N pageBlocks) = Some [(657817600 # 6578176)%Q]
    /\ syncTexJsForward 12 "/doc/main.tex" o
       = Ok {| SyncTeXRecordForward.page := 1;
               SyncTeXRecordForward.x := 1973452800 # 6578176;
               SyncTeXRecordForward.y := 2631270400 # 6578176 |}.
Proof.
  destruct (parseSyncTex reversedPages) as [o|e] eqn:E; vm_compute in E;
    [|discriminate E].
  injection E as <-.
  eexists. eexists. eexists.
  split; [reflexivity|]. split; [vm_compute; reflexivity|].
  split; [vm_compute; reflexivity|].
  repeat split; vm_compute; reflexivity.
Qed.

Lemma numberIndex_rank (p : N) :
  (p < maxArrayIndex)%N -> isIndexKey p = true /\ indexRank p = p.
Proof.
  intro Hp. unfold isIndexKey, indexRank. simpl. unfold numberIndex.
  apply N.ltb_lt in Hp. rewrite Hp. now split.
Qed.

(** With page numbers below 2^32 - 1, the bucket enumerated first is the
    one of the least page. *)
Lemma first_key_least (pageBlocks : PageBlocks) (page : N) :
  (forall p, In p (insertionKeys pageBlocks) -> (p < maxArrayIndex)%N) ->
  hd_error (keys pageBlocks) = Some page ->
  forall p, In p (insertionKeys pageBlocks) -> (page <= p)%N.
Proof.
  intros Hidx Hhd p Hp.
  rewrite keys_all_index in Hhd
    by (intros k Hk; apply numberIndex_rank; now apply Hidx).
  pose proof (sort_by_head_least indexRank _ Hhd p Hp) as Hle.
  assert (Hpage : In page (insertionKeys pageBlocks)).
  { apply (In_sort_by indexRank). destruct (sort_by indexRank _); [discriminate|].
    injection Hhd as ->. now left. }
  destruct (numberIndex_rank (Hidx p Hp)) as [_ E1].
  destruct (numberIndex_rank (Hidx page Hpage)) as [_ E2].
  rewrite E1, E2 in Hle. exact Hle.
Qed.

(** When the pages were recorded in ascending order, the bucket enumerated
    first is the one recorded first. *)
Lemma first_key_first_recorded (pageBlocks : PageBlocks) :
  (forall p, In p (insertionKeys pageBlocks) -> (p < maxArrayIndex)%N) ->
  StronglySorted N.le (insertionKeys pageBlocks) ->
  keys pageBlocks = insertionKeys pageBlocks.
Proof.
  intros Hidx Hs.
  rewrite keys_all_index
    by (intros k Hk; apply numberIndex_rank; now apply Hidx).
  apply sort_by_sorted_id.
  revert Hidx Hs. induction (insertionKeys pageBlocks) as [|a l IH]; intros Hidx Hs.
  - constructor.
  - inversion Hs as [|? ? Hs' Hall]; subst. constructor.
    + apply IH; [|exact Hs']. intros p Hp. apply Hidx. now right.
    + rewrite Forall_forall in *. intros y Hy. unfold byRank.
      destruct (numberIndex_rank (Hidx a (or_introl eq_refl))) as [_ ->].
      destruct (numberIndex_rank (Hidx y (or_intror Hy))) as [_ ->].
      now apply Hall.
Qed.

(** C8 (amended).  For a recorded line with page buckets on several pages,
    forward search reads one bucket only, the first in the enumeration of
    the keys, which for page numbers below 2^32 - 1 is the bucket of the
    least page number: page, x and y of the answer come from it, whatever the
    other buckets hold and in whatever order they were recorded. *)
Theorem forward_least_page (line : N) (filePath : string) (o : PdfSyncObject.t)
    (linePageBlocks : LinePageBlocks) (pageBlocks : PageBlocks) :
  wellFormedIndex (PdfSyncObject.blockNumberLine o) ->
  get filePath (PdfSyncObject.blockNumberLine o) = Some linePageBlocks ->
  get line linePageBlocks = Some pageBlocks ->
  (forall p, In p (insertionKeys pageBlocks) -> (p < maxArrayIndex)%N) ->
  exists page blocks b,
    get page pageBlocks = Some blocks
    /\ hd_error blocks = Some b
    /\ (forall p, In p (insertionKeys pageBlocks) -> (page <= p)%N)
    /\ syncTexJsForward line filePath o
       = Ok (directLocation (PdfSyncObject.offset o) blocks b).
Proof.
  intros Hwf Hget Hline Hidx.
  destruct (wellFormedIndex_firstBucket _ _ Hwf Hget Hline)
    as (page & blocks & b & Hk & Hb & Hhd).
  exists page, blocks, b. split; [exact Hb|]. split; [exact Hhd|]. split.
  - now apply first_key_least.
  - apply (@forward_recorded line filePath o linePageBlocks blocks b Hget).
    exists pageBlocks, page. now repeat split.
Qed.

Lemma forward_least_page_witness :
  exists page blocks b,
    get page [(2%N, [element "/doc/main.tex" 12 2 3 8 (Some 4) 2]);
              (1%N, [element "/doc/main.tex" 12 1 5 30 None 2])] = Some blocks
    /\ hd_error blocks = Some b
    /\ (forall p, In p [2%N; 1%N] -> (page <= p)%N)
    /\ syncTexJsForward 12 "/doc/main.tex" twoPages
       = Ok (directLocation (PdfSyncObject.offset twoPages) blocks b).
Proof.
  refine (@forward_least_page 12 "/doc/main.tex" twoPages _ _ _ eq_refl eq_refl _).
  - apply wellFormedIndexb_sound. reflexivity.
  - intros p [<- | [<- | []]]; reflexivity.
Defined.

(** ** Backward search *)

Section LoopFacts.
Variable A : Type.
Variable visit : A -> Candidate.t -> BackwardLoop.
Variable hit : A -> Prop.

Lemma loopOver_sound (l : list A) :
  (forall a, In a l -> SoundVisit visit hit a) ->
  forall record,
    (Inv record -> Fine (loopOver visit l record))
    /\ (Good record -> Done (loopOver visit l record))
    /\ ((exists a, In a l /\ hit a) -> Inv record ->
        Done (loopOver visit l record)).
Proof.
  induction l as [|a l IH]; intros Hs record.
  - simpl. split; [tauto|]. split; [tauto|]. intros (a & [] & _).
  - assert (Hl : forall a', In a' l -> SoundVisit visit hit a')
      by (intros a' Ha'; apply Hs; now right).
    specialize (IH Hl).
    destruct (Hs a (or_introl eq_refl) record) as (Hfine & Hgood & Hhit).
    simpl. split; [|split].
    + intro Hinv. specialize (Hfine Hinv).
      destruct (visit a record) as [r|record'|e]; simpl in *;
        [exact Hfine | | exact Hfine].
      exact (proj1 (IH record') Hfine).
    + intro Hg. specialize (Hgood Hg).
      destruct (visit a record) as [r|record'|e]; simpl in *;
        [exact Hgood | | exact Hgood].
      exact (proj1 (proj2 (IH record')) Hgood).
    + intros (a' & [<- | Hin] & Ha') Hinv.
      * specialize (Hhit Ha' Hinv).
        destruct (visit a record) as [r|record'|e]; simpl in *;
          [exact Hhit | | exact Hhit].
        exact (proj1 (proj2 (IH record')) Hhit).
      * specialize (Hfine Hinv).
        destruct (visit a record) as [r|record'|e]; simpl in *;
          [exact Hfine | | exact Hfine].
        apply (proj2 (proj2 (IH record'))); [now exists a' | exact Hfine].
Qed.

Lemma loopOver_quiet (l : list A) :
  (forall a, In a l -> visit a initialCandidate = Running initialCandidate) ->
  loopOver visit l initialCandidate = Running initialCandidate.
Proof.
  induction l as [|a l IH]; intro Hq; simpl; [reflexivity|].
  rewrite (Hq a (or_introl eq_refl)). apply IH. intros a' Ha'. apply Hq. now right.
Qed.
End LoopFacts.

Section BackwardFacts.
Variables (page : N) (x0 y0 : Q).

Lemma pageLoop_loopOver fileName lineNum pageBlocks pageNums record :
  pageLoop page x0 y0 fileName lineNum pageBlocks pageNums record
  = loopOver (visitPage page x0 y0 fileName lineNum pageBlocks) pageNums record.
Proof.
  revert record. induction pageNums as [|p l IH]; intro record; simpl; [reflexivity|].
  destruct (visitPage page x0 y0 fileName lineNum pageBlocks p record); auto.
Qed.

Lemma lineLoop_loopOver fileName linePageBlocks lineNums record :
  lineLoop page x0 y0 fileName linePageBlocks lineNums record
  = loopOver (visitLine page x0 y0 fileName linePageBlocks) lineNums record.
Proof.
  revert record. induction lineNums as [|p l IH]; intro record; simpl; [reflexivity|].
  destruct (visitLine page x0 y0 fileName linePageBlocks p record); auto.
Qed.

Lemma fileLoop_loopOver blockNumberLine fileNames record :
  fileLoop page x0 y0 blockNumberLine fileNames record
  = loopOver (visitFile page x0 y0 blockNumberLine) fileNames record.
Proof.
  revert record. induction fileNames as [|p l IH]; intro record; simpl; [reflexivity|].
  destruct (visitFile page x0 y0 blockNumberLine p record); auto.
Qed.

Lemma Inv_distance (record : Candidate.t) :
  Inv record -> (Candidate.distance record <= sentinel)%Q.
Proof.
  intros [-> | [_ H]]; [simpl; lra | lra].
Qed.

(** *** The innermost loop *)

Lemma visitPage_sound fileName lineNum (pageBlocks : PageBlocks) pageNum :
  fileName <> EmptyString ->
  In pageNum (keys pageBlocks) ->
  SoundVisit (visitPage page x0 y0 fileName lineNum pageBlocks)
             (pageHit page x0 y0 pageBlocks) pageNum.
Proof.
  intros Hname Hin record. destruct (keys_get _ _ Hin) as [blocks Hblocks].
  unfold visitPage. destruct (page =? pageNum)%N eqn:Ep.
  - rewrite Hblocks.
    destruct (insideBox (getCoveringRectangle blocks) x0 y0) eqn:Ei.
    + simpl. tauto.
    + destruct (Qltb (boxDistance (getCoveringRectangle blocks) x0 y0)
                     (Candidate.distance record)) eqn:Ed; simpl.
      * apply Qltb_true in Ed.
        assert (Hg : Inv record ->
                     Good {| Candidate.input := fileName; Candidate.line := lineNum;
                             Candidate.distance :=
                               boxDistance (getCoveringRectangle blocks) x0 y0 |}).
        { intro Hinv. apply Inv_distance in Hinv. split; simpl; [exact Hname | lra]. }
        split; [intro Hinv; right; now apply Hg|].
        split; [intro Hgd; apply Hg; now right|].
        intros _ Hinv. now apply Hg.
      * apply Qltb_false in Ed.
        split; [tauto|]. split; [tauto|].
        intros (_ & blocks' & Hb' & Hans) Hinv.
        rewrite Hblocks in Hb'. injection Hb' as <-.
        destruct Hans as [Hans | Hans]; [congruence|].
        destruct Hinv as [-> | Hg]; [simpl in Ed; lra | exact Hg].
  - simpl. split; [tauto|]. split; [tauto|].
    intros (Hp & _). apply N.eqb_neq in Ep. congruence.
Qed.

Lemma visitPage_quiet fileName lineNum (pageBlocks : PageBlocks) pageNum :
  In pageNum (keys pageBlocks) ->
  ~ pageHit page x0 y0 pageBlocks pageNum ->
  visitPage page x0 y0 fileName lineNum pageBlocks pageNum initialCandidate
  = Running initialCandidate.
Proof.
  intros Hin Hno. destruct (keys_get _ _ Hin) as [blocks Hblocks].
  unfold visitPage. destruct (page =? pageNum)%N eqn:Ep; [|reflexivity].
  apply N.eqb_eq in Ep. rewrite Hblocks.
  destruct (insideBox (getCoveringRectangle blocks) x0 y0) eqn:Ei.
  - exfalso. apply Hno. split; [exact Ep|]. exists blocks. split; [exact Hblocks|].
    now left.
  - destruct (Qltb (boxDistance (getCoveringRectangle blocks) x0 y0)
                   (Candidate.distance initialCandidate)) eqn:Ed; [|reflexivity].
    apply Qltb_true in Ed. exfalso. apply Hno. split; [exact Ep|].
    exists blocks. split; [exact Hblocks|]. now right.
Qed.
End BackwardFacts.

Section BackwardScanFacts.
Variables (page : N) (x0 y0 : Q).

(** *** The loop over the lines of a file *)

Lemma visitLine_sound fileName (linePageBlocks : LinePageBlocks) lineNum :
  fileName <> EmptyString ->
  In lineNum (keys linePageBlocks) ->
  SoundVisit (visitLine page x0 y0 fileName linePageBlocks)
             (lineHit page x0 y0 linePageBlocks) lineNum.
Proof.
  intros Hname Hin record. destruct (keys_get _ _ Hin) as [pageBlocks Hpb].
  unfold visitLine. rewrite Hpb, pageLoop_loopOver.
  destruct (@loopOver_sound _ (visitPage page x0 y0 fileName lineNum pageBlocks)
              (pageHit page x0 y0 pageBlocks) (keys pageBlocks)
              (fun p Hp => @visitPage_sound page x0 y0 fileName lineNum pageBlocks p Hname Hp)
              record) as (H1 & H2 & H3).
  split; [exact H1|]. split; [exact H2|].
  intros (pageBlocks' & Hpb' & Hhit). rewrite Hpb in Hpb'. injection Hpb' as <-.
  apply H3. exists page. split; [|exact Hhit].
  destruct Hhit as (_ & blocks & Hb & _). now apply (get_keys _ _ Hb).
Qed.

Lemma visitLine_quiet fileName (linePageBlocks : LinePageBlocks) lineNum :
  In lineNum (keys linePageBlocks) ->
  ~ lineHit page x0 y0 linePageBlocks lineNum ->
  visitLine page x0 y0 fileName linePageBlocks lineNum initialCandidate
  = Running initialCandidate.
Proof.
  intros Hin Hno. destruct (keys_get _ _ Hin) as [pageBlocks Hpb].
  unfold visitLine. rewrite Hpb, pageLoop_loopOver.
  apply loopOver_quiet. intros pageNum Hp. apply visitPage_quiet; [exact Hp|].
  intros Hhit. apply Hno. exists pageBlocks. split; [exact Hpb|].
  destruct Hhit as (Ep & Hrest). subst pageNum. now split.
Qed.

(** *** The loop over the files *)

Lemma visitFile_lineLoop (blockNumberLine : BlockNumberLine) fileName
    linePageBlocks record :
  get fileName blockNumberLine = Some linePageBlocks ->
  visitFile page x0 y0 blockNumberLine fileName record
  = loopOver (visitLine page x0 y0 fileName linePageBlocks)
             (keys linePageBlocks) record.
Proof.
  intro Hget. unfold visitFile. rewrite Hget.
  destruct (keys linePageBlocks) as [|l ls] eqn:E; [reflexivity|].
  simpl Nat.eqb. cbv iota. apply lineLoop_loopOver.
Qed.

Lemma visitFile_sound (blockNumberLine : BlockNumberLine) fileName :
  fileName <> EmptyString ->
  In fileName (keys blockNumberLine) ->
  SoundVisit (visitFile page x0 y0 blockNumberLine)
             (fileHit page x0 y0 blockNumberLine) fileName.
Proof.
  intros Hname Hin record. destruct (keys_get _ _ Hin) as [linePageBlocks Hlpb].
  rewrite (visitFile_lineLoop _ _ record Hlpb).
  destruct (@loopOver_sound _ (visitLine page x0 y0 fileName linePageBlocks)
              (lineHit page x0 y0 linePageBlocks) (keys linePageBlocks)
              (fun l Hl => @visitLine_sound fileName linePageBlocks l Hname Hl)
              record) as (H1 & H2 & H3).
  split; [exact H1|]. split; [exact H2|].
  intros (linePageBlocks' & lineNum & Hlpb' & Hhit).
  rewrite Hlpb in Hlpb'. injection Hlpb' as <-.
  apply H3. exists lineNum. split; [|exact Hhit].
  destruct Hhit as (pageBlocks & Hpb & _). now apply (get_keys _ _ Hpb).
Qed.

Lemma visitFile_quiet (blockNumberLine : BlockNumberLine) fileName :
  In fileName (keys blockNumberLine) ->
  ~ fileHit page x0 y0 blockNumberLine fileName ->
  visitFile page x0 y0 blockNumberLine fileName initialCandidate
  = Running initialCandidate.
Proof.
  intros Hin Hno. destruct (keys_get _ _ Hin) as [linePageBlocks Hlpb].
  rewrite (visitFile_lineLoop _ _ initialCandidate Hlpb).
  apply loopOver_quiet. intros lineNum Hl. apply visitLine_quiet; [exact Hl|].
  intro Hhit. apply Hno. now exists linePageBlocks, lineNum.
Qed.

(** *** The whole scan *)

Lemma pageHasAnswer_fileHit (blockNumberLine : BlockNumberLine) :
  pageHasAnswer page x0 y0 blockNumberLine
  <-> exists fileName,
        In fileName (keys blockNumberLine)
        /\ fileHit page x0 y0 blockNumberLine fileName.
Proof.
  split.
  - intros (fileName & lineNum & blocks & (lpb & pb & Hf & Hl & Hp) & Hans).
    exists fileName. split; [now apply (get_keys _ _ Hf)|].
    exists lpb, lineNum. split; [exact Hf|]. exists pb. split; [exact Hl|].
    split; [reflexivity|]. now exists blocks.
  - intros (fileName & _ & lpb & lineNum & Hf & pb & Hl & _ & blocks & Hp & Hans).
    exists fileName, lineNum, blocks. split; [|exact Hans]. now exists lpb, pb.
Qed.

Lemma scan_with_answer (blockNumberLine : BlockNumberLine) :
  ~ In EmptyString (keys blockNumberLine) ->
  pageHasAnswer page x0 y0 blockNumberLine ->
  Done (fileLoop page x0 y0 blockNumberLine (keys blockNumberLine) initialCandidate).
Proof.
  intros Hnames Hans. rewrite fileLoop_loopOver.
  apply (@loopOver_sound _ (visitFile page x0 y0 blockNumberLine)
           (fileHit page x0 y0 blockNumberLine) (keys blockNumberLine)).
  - intros fileName Hin. apply visitFile_sound; [|exact Hin].
    intros ->. exact (Hnames Hin).
  - now apply pageHasAnswer_fileHit.
  - now left.
Qed.

Lemma scan_without_answer (blockNumberLine : BlockNumberLine) :
  ~ pageHasAnswer page x0 y0 blockNumberLine ->
  fileLoop page x0 y0 blockNumberLine (keys blockNumberLine) initialCandidate
  = Running initialCandidate.
Proof.
  intro Hno. rewrite fileLoop_loopOver. apply loopOver_quiet.
  intros fileName Hin. apply visitFile_quiet; [exact Hin|].
  intro Hhit. apply Hno. apply pageHasAnswer_fileHit. now exists fileName.
Qed.
End BackwardScanFacts.

Lemma pageHasAnswer_keys (page : N) (x0 y0 : Q) (blockNumberLine : BlockNumberLine) :
  pageHasAnswer page x0 y0 blockNumberLine -> keys blockNumberLine <> [].
Proof.
  intros (fileName & _ & _ & (lpb & _ & Hf & _) & _) E.
  pose proof (get_keys _ _ Hf) as Hin. rewrite E in Hin. exact Hin.
Qed.

(** The outcome of backward search, by whether some bucket answers. *)
Lemma backward_with_answer (page : N) (x y : Q) (o : PdfSyncObject.t) :
  ~ In EmptyString (keys (PdfSyncObject.blockNumberLine o)) ->
  pageHasAnswer page (x - Offset.x (PdfSyncObject.offset o))
                (y - Offset.y (PdfSyncObject.offset o))
                (PdfSyncObject.blockNumberLine o) ->
  exists input line,
    syncTexJsBackward page x y o
    = Ok {| SyncTeXRecordBackward.input := input;
            SyncTeXRecordBackward.line := line;
            SyncTeXRecordBackward.column := 0 |}.
Proof.
  intros Hnames Hans. unfold syncTexJsBackward.
  pose proof (pageHasAnswer_keys Hans) as Hne.
  pose proof (scan_with_answer Hnames Hans) as Hdone.
  destruct (keys (PdfSyncObject.blockNumberLine o)) as [|k ks]; [congruence|].
  simpl Nat.eqb. cbv iota.
  destruct (fileLoop _ _ _ _ _ _) as [r|record|e]; simpl in Hdone.
  - destruct r as [input line column]. simpl in Hdone. subst column.
    now exists input, line.
  - destruct Hdone as [Hin _]. apply String.eqb_neq in Hin. rewrite Hin.
    now eexists; eexists.
  - contradiction.
Qed.

Lemma backward_without_answer (page : N) (x y : Q) (o : PdfSyncObject.t) :
  keys (PdfSyncObject.blockNumberLine o) = []
  \/ ~ pageHasAnswer page (x - Offset.x (PdfSyncObject.offset o))
                     (y - Offset.y (PdfSyncObject.offset o))
                     (PdfSyncObject.blockNumberLine o) ->
  exists message, syncTexJsBackward page x y o = Err (SyncTexJsError message).
Proof.
  intro H. unfold syncTexJsBackward.
  destruct (keys (PdfSyncObject.blockNumberLine o)) as [|k ks] eqn:Ek.
  - now exists noEntryMessage.
  - destruct H as [H | H]; [discriminate|].
    simpl Nat.eqb. cbv iota. rewrite <- Ek.
    rewrite (scan_without_answer H). simpl. now exists noLineMessage.
Qed.




(** ** Close markers without an open block *)

Lemma parseLines_app (st : State.t) (lines1 lines2 : list string) :
  parseLines st (lines1 ++ lines2)
  = (st' <- parseLines st lines1 ;; parseLines st' lines2).
Proof.
  revert st. induction lines1 as [|l lines1 IH]; intro st; simpl; [reflexivity|].
  destruct (parseLine st l) as [st'|e]; simpl; [apply IH | reflexivity].
Qed.

Lemma closable_noBlockOpen (st : State.t) : noBlockOpen st -> closable st = None.
Proof.
  unfold noBlockOpen, closable.
  destruct (State.currentElement st) as [[p|id]|]; tauto.
Qed.

Lemma isNone_true {A : Type} (o : option A) : isNone o = true -> o = None.
Proof. destruct o; [discriminate | reflexivity]. Qed.

(** A close marker met while no block is open changes nothing and raises
    nothing. *)
Lemma parseLine_orphan_close (st : State.t) (line : string) :
  noBlockOpen st -> closeMarker st line = true -> parseLine st line = Ok st.
Proof.
  intros Hno Hc. unfold closeMarker in Hc.
  repeat (apply andb_prop in Hc; destruct Hc as [Hc ?]).
  unfold parseLine.
  rewrite (isNone_true _ Hc).
  match goal with H : isNone (search offsetPattern line) = true |- _ =>
    rewrite (isNone_true _ H) end.
  match goal with H : isNone (search openPagePattern line) = true |- _ =>
    rewrite (isNone_true _ H) end.
  match goal with H : isNone (search verticalBlockPattern line) = true |- _ =>
    rewrite (isNone_true _ H) end.
  assert (Hskip : onCloseBlock st = st)
    by (unfold onCloseBlock; now rewrite (closable_noBlockOpen st Hno)).
  assert (Hrest :
    match search closeverticalBlockPattern line with
    | Some _ => Ok (onCloseBlock st)
    | None =>
        match search horizontalBlockPattern line with
        | Some m => onOpenBlock st true m
        | None =>
            match search closehorizontalBlockPattern line with
            | Some _ => Ok (onCloseBlock st)
            | None =>
                match search elementBlockPattern line with
                | Some m => onElement st m
                | None => Ok st
                end
            end
        end
    end = Ok st).
  { match goal with H : (negb _ || _)%bool = true |- _ =>
      apply orb_prop in H; destruct H as [H | H] end.
    - destruct (search closeverticalBlockPattern line); [|discriminate].
      now rewrite Hskip.
    - apply andb_prop in H. destruct H as [Hopen Hshut].
      destruct (search closeverticalBlockPattern line); [now rewrite Hskip|].
      rewrite (isNone_true _ Hopen).
      destruct (search closehorizontalBlockPattern line); [|discriminate].
      now rewrite Hskip. }
  match goal with H : (isNone (search closePagePattern line) || _)%bool = true |- _ =>
    apply orb_prop in H; destruct H as [H | H]; apply isNone_true in H; rewrite H end.
  - exact Hrest.
  - destruct (search closePagePattern line); exact Hrest.
Qed.

Lemma closeMarker_bracket (st : State.t) :
  closeMarker st "]" = true /\ closeMarker st ")" = true.
Proof. split; reflexivity. Qed.

(** The claim as the specification states it fails on the shortest texts:
    a close marker right after the banner, or inside a bare page, is
    accepted and a model is returned. *)
Lemma orphan_close_accepted :
  closeMarker State.initial "]" = true
  /\ noBlockOpen State.initial
  /\ parseSyncTex orphanClose = Ok emptyModel
  /\ exists o, parseSyncTex orphanCloseInPage = Ok o
               /\ parseSyncTex emptyPage = Ok o.
Proof.
  split; [reflexivity|]. split; [exact I|]. split; [reflexivity|].
  eexists. split; vm_compute; reflexivity.
Qed.

(** C3 (amended).  A block close marker met while no block is open raises
    no error: the line leaves the state of the parser as it is, and the
    outcome of parsing the text is the outcome of parsing it without that
    line. *)
Theorem orphan_close_skipped (text text' version line : string)
    (before after : list string) (st : State.t) :
  split text = version :: before ++ line :: after ->
  split text' = version :: before ++ after ->
  parseLines State.initial before = Ok st ->
  noBlockOpen st ->
  closeMarker st line = true ->
  parseLine st line = Ok st /\ parseSyncTex text = parseSyncTex text'.
Proof.
  intros Ht Ht' Hbefore Hno Hclose.
  pose proof (parseLine_orphan_close st line Hno Hclose) as Hline.
  split; [exact Hline|].
  unfold parseSyncTex. rewrite Ht, Ht'. simpl hd. simpl tl.
  rewrite !parseLines_app, Hbefore. simpl. rewrite Hline. reflexivity.
Qed.

Lemma orphan_close_skipped_witness :
  parseLine (onOpenPage State.initial "1") ")" = Ok (onOpenPage State.initial "1")
  /\ parseSyncTex orphanCloseInPage = parseSyncTex emptyPage.
Proof.
  apply (@orphan_close_skipped orphanCloseInPage emptyPage "SyncTeX Version:1" ")"
           ["{1"%string] ["}1"%string] (onOpenPage State.initial "1")).
  - reflexivity.
  - reflexivity.
  - reflexivity.
  - exact I.
  - reflexivity.
Defined.

(** ** The index that the parser builds is well formed *)

Lemma search_Some {A : Type} (m : string -> option A) (s : string) (a : A) :
  search m s = Some a -> exists s', m s' = Some a.
Proof.
  induction s as [|c s IH]; simpl.
  - destruct (m EmptyString) eqn:E; [|discriminate]. intros [= <-]. now exists EmptyString.
  - destruct (m (String c s)) eqn:E.
    + intros [= <-]. now exists (String c s).
    + exact IH.
Qed.

Lemma dots_nonempty (s d r : string) : dots s = Some (d, r) -> d <> EmptyString.
Proof.
  unfold dots. destruct (spanDot s) as [[|c d'] r']; [discriminate|].
  intros [= <- _]. discriminate.
Qed.

Lemma inputPattern_path (s m1 m2 : string) :
  inputPattern s = Some (m1, m2) -> m2 <> EmptyString.
Proof.
  unfold inputPattern, optBind.
  destruct (lit "Input:" s) as [[_ s1]|]; [|discriminate].
  destruct (digits s1) as [[d s2]|]; [|discriminate].
  destruct (lit ":" s2) as [[_ s3]|]; [|discriminate].
  destruct (dots s3) as [[p s4]|] eqn:E; [|discriminate].
  intros [= _ <-]. exact (dots_nonempty _ E).
Qed.

Lemma orEmpty_entry {K V : Type} `{JSKey K} {W : Type}
    (k : K) (o : JSObject K (JSObject V W)) (e : V * W) :
  In e (orEmpty (get k o)) -> exists v, In (k, v) o /\ In e v.
Proof.
  destruct (get k o) as [v|] eqn:E; simpl; [|tauto].
  intro Hin. exists v. split; [now apply get_entry | exact Hin].
Qed.

(** Entering an element of a file with a non-empty path keeps the index
    well formed. *)
Lemma record_wellFormed (blockNumberLine : BlockNumberLine) (path : string)
    (lineNumber page : N) (elem : Block.t) :
  wellFormedIndex blockNumberLine ->
  path <> EmptyString ->
  let linePageBlocks := orEmpty (get path blockNumberLine) in
  let pageBlocks := orEmpty (get lineNumber linePageBlocks) in
  let blocks := match get page pageBlocks with Some l => l | None => [] end in
  wellFormedIndex
    (set path
       (set lineNumber (set page (blocks ++ [elem]) pageBlocks) linePageBlocks)
       blockNumberLine).
Proof.
  intros Hwf Hpath lpb pb blocks fileName lpb' Hin.
  apply set_entry in Hin. destruct Hin as [[= -> ->] | Hin]; [|now apply Hwf].
  split; [exact Hpath|]. intros lineNum pb' Hl.
  apply set_entry in Hl. destruct Hl as [[= -> ->] | Hl].
  - split; [apply set_not_nil|]. intros pageNum blocks' Hp.
    apply set_entry in Hp. destruct Hp as [[= -> ->] | Hp].
    + destruct blocks; discriminate.
    + subst pb. apply orEmpty_entry in Hp. destruct Hp as (pb0 & Hpb0 & Hp).
      subst lpb. apply orEmpty_entry in Hpb0. destruct Hpb0 as (lpb0 & Hlpb0 & Hpb0).
      destruct (Hwf _ _ Hlpb0) as [_ Hlines].
      destruct (Hlines _ _ Hpb0) as [_ Hbuckets]. exact (Hbuckets _ _ Hp).
  - subst lpb. apply orEmpty_entry in Hl. destruct Hl as (lpb0 & Hlpb0 & Hl).
    destruct (Hwf _ _ Hlpb0) as [_ Hlines]. exact (Hlines _ _ Hl).
Qed.

Lemma onElement_wellFormed (st st' : State.t) (m : ElementMatch.t) :
  wellFormedState st -> onElement st m = Ok st' -> wellFormedState st'.
Proof.
  intros [Hidx Hfiles]. unfold onElement.
  destruct (State.currentPage st) as [currentPage|]; [|discriminate].
  destruct (State.currentElement st) as [[p|id]|]; try discriminate.
  destruct (nth_error (State.store st) id) as [current|]; [|discriminate].
  simpl.
  destruct (get (numberKey (parseInt (ElementMatch.m2 m))) (State.files st))
    as [file|] eqn:Ef; [|discriminate].
  simpl. intros [= <-]. split; simpl; [|exact Hfiles].
  apply record_wellFormed; [exact Hidx|].
  exact (Hfiles _ _ (get_entry _ _ Ef)).
Qed.

Lemma onInput_wellFormed (st : State.t) (line m1 m2 : string) :
  wellFormedState st -> search inputPattern line = Some (m1, m2) ->
  wellFormedState (onInput st m1 m2).
Proof.
  intros [Hidx Hfiles] Hs. split; simpl; [exact Hidx|].
  intros k f Hin. apply set_entry in Hin. destruct Hin as [[= -> ->] | Hin].
  - simpl. destruct (search_Some _ _ Hs) as [s' Hs']. exact (inputPattern_path _ Hs').
  - exact (Hfiles _ _ Hin).
Qed.

Lemma onOpenBlock_wellFormed (st st' : State.t) (horizontal : bool) (m : BlockMatch.t) :
  wellFormedState st -> onOpenBlock st horizontal m = Ok st' -> wellFormedState st'.
Proof.
  intros Hwf. unfold onOpenBlock.
  destruct (State.currentPage st); [|discriminate].
  destruct (State.currentElement st); [|discriminate].
  intros [= <-]. exact Hwf.
Qed.

Lemma onCloseBlock_wellFormed (st : State.t) :
  wellFormedState st -> wellFormedState (onCloseBlock st).
Proof.
  intros Hwf. unfold onCloseBlock. destruct (closable st) as [[id pid]|]; exact Hwf.
Qed.

Lemma onOffset_wellFormed (st st' : State.t) (m1 : ascii) (m2 : string) :
  wellFormedState st -> onOffset st m1 m2 = Ok st' -> wellFormedState st'.
Proof.
  intros Hwf. unfold onOffset.
  destruct (Ascii.eqb (toLowerCase m1) "x"); [intros [= <-]; exact Hwf|].
  destruct (Ascii.eqb (toLowerCase m1) "y"); [intros [= <-]; exact Hwf | discriminate].
Qed.

Lemma parseLine_wellFormed (st st' : State.t) (line : string) :
  wellFormedState st -> parseLine st line = Ok st' -> wellFormedState st'.
Proof.
  intros Hwf. unfold parseLine.
  destruct (search inputPattern line) as [[m1 m2]|] eqn:E1.
  { intros [= <-]. exact (onInput_wellFormed _ Hwf E1). }
  destruct (search offsetPattern line) as [[a1 a2]|].
  { now apply onOffset_wellFormed. }
  destruct (search openPagePattern line) as [n|].
  { intros [= <-]. exact Hwf. }
  assert (Hrest :
    match search verticalBlockPattern line with
    | Some m => onOpenBlock st false m
    | None =>
        match search closeverticalBlockPattern line with
        | Some _ => Ok (onCloseBlock st)
        | None =>
            match search horizontalBlockPattern line with
            | Some m => onOpenBlock st true m
            | None =>
                match search closehorizontalBlockPattern line with
                | Some _ => Ok (onCloseBlock st)
                | None =>
                    match search elementBlockPattern line with
                    | Some m => onElement st m
                    | None => Ok st
                    end
                end
            end
        end
    end = Ok st' -> wellFormedState st').
  { destruct (search verticalBlockPattern line) as [m|].
    { now apply onOpenBlock_wellFormed. }
    destruct (search closeverticalBlockPattern line).
    { intros [= <-]. now apply onCloseBlock_wellFormed. }
    destruct (search horizontalBlockPattern line) as [m|].
    { now apply onOpenBlock_wellFormed. }
    destruct (search closehorizontalBlockPattern line).
    { intros [= <-]. now apply onCloseBlock_wellFormed. }
    destruct (search elementBlockPattern line) as [m|].
    { now apply onElement_wellFormed. }
    intros [= <-]. exact Hwf. }
  destruct (search closePagePattern line) as [n|]; [|exact Hrest].
  destruct (State.currentPage st) as [currentPage|]; [|exact Hrest].
  intros [= <-]. exact Hwf.
Qed.

Lemma parseLines_wellFormed (lines : list string) (st st' : State.t) :
  wellFormedState st -> parseLines st lines = Ok st' -> wellFormedState st'.
Proof.
  revert st. induction lines as [|l lines IH]; intros st Hwf; simpl.
  - intros [= <-]. exact Hwf.
  - destruct (parseLine st l) as [st1|e] eqn:E; simpl; [|discriminate].
    apply IH. exact (parseLine_wellFormed _ Hwf E).
Qed.

Lemma initial_wellFormed : wellFormedState State.initial.
Proof. split; simpl; intros ? ? []. Qed.

(** Every model that the parser returns has a well-formed index. *)
Lemma parseSyncTex_wellFormed (text : string) (o : PdfSyncObject.t) :
  parseSyncTex text = Ok o -> wellFormedIndex (PdfSyncObject.blockNumberLine o).
Proof.
  unfold parseSyncTex.
  destruct (parseLines State.initial (tl (split text))) as [st|e] eqn:E; simpl;
    [|discriminate].
  intros [= <-]. simpl.
  exact (proj1 (parseLines_wellFormed _ initial_wellFormed E)).
Qed.

(** ** The queries on the text of a synchronisation file *)

(** Forward search on a recorded line of a parsed text always answers, from
    the first page bucket of the line. *)
Lemma forwardOnText_recorded (text : string) (o : PdfSyncObject.t)
    (line : N) (filePath : string) (linePageBlocks : LinePageBlocks) :
  parseSyncTex text = Ok o ->
  get filePath (PdfSyncObject.blockNumberLine o) = Some linePageBlocks ->
  In line (keys linePageBlocks) ->
  exists blocks b,
    firstBucket linePageBlocks line blocks b
    /\ forwardOnText line filePath text
       = Ok (directLocation (PdfSyncObject.offset o) blocks b).
Proof.
  intros Hparse Hget Hin.
  destruct (wellFormedIndex_recorded _ _ (parseSyncTex_wellFormed _ Hparse) Hget Hin)
    as (blocks & b & Hfirst).
  exists blocks, b. split; [exact Hfirst|].
  unfold forwardOnText. rewrite Hparse. simpl.
  exact (@forward_recorded line filePath o _ _ _ Hget Hfirst).
Qed.

(** Backward search on a parsed text answers as soon as a bucket of the page
    passes the containment test or lies nearer than 2e16, and fails with the
    error of the module otherwise. *)
Lemma backwardOnText_outcome (text : string) (o : PdfSyncObject.t)
    (page : N) (x y : Q) :
  parseSyncTex text = Ok o ->
  (pageHasAnswer page (x - Offset.x (PdfSyncObject.offset o))
                 (y - Offset.y (PdfSyncObject.offset o))
                 (PdfSyncObject.blockNumberLine o) ->
   exists input line,
     backwardOnText page x y text
     = Ok {| SyncTeXRecordBackward.input := input;
             SyncTeXRecordBackward.line := line;
             SyncTeXRecordBackward.column := 0 |})
  /\ (~ pageHasAnswer page (x - Offset.x (PdfSyncObject.offset o))
                      (y - Offset.y (PdfSyncObject.offset o))
                      (PdfSyncObject.blockNumberLine o) ->
      exists message, backwardOnText page x y text = Err (SyncTexJsError message)).
Proof.
  intro Hparse. unfold backwardOnText. rewrite Hparse. simpl. split.
  - apply backward_with_answer. apply wellFormedIndex_names.
    exact (parseSyncTex_wellFormed _ Hparse).
  - intro Hno. apply backward_without_answer. now right.
Qed.

(** * Further properties *)

(** ** Backward search as one scan of the buckets of the page *)

Section FlatLoops.
Variable A B : Type.
Variable visit : A -> Candidate.t -> BackwardLoop.
Variable visit' : B -> Candidate.t -> BackwardLoop.


End FlatLoops.

Section FlatScan.
Variables (page : N) (x0 y0 : Q).







End FlatScan.









(** ** The two branches of forward search *)

Lemma forward_first_branch (line l : N) (filePath : string) (o : PdfSyncObject.t)
    (linePageBlocks : LinePageBlocks) (blocks : list Block.t) (b : Block.t) :
  get filePath (PdfSyncObject.blockNumberLine o) = Some linePageBlocks ->
  let lineNums := sortNumbers (keys linePageBlocks) in
  let i := findIndex (fun x => (line <=? x)%N) lineNums in
  at_ lineNums i = Some l ->
  (i = 0%Z \/ l = line) ->
  firstBucket linePageBlocks l blocks b ->
  syncTexJsForward line filePath o
  = Ok (directLocation (PdfSyncObject.offset o) blocks b).
Proof.
  intros Hget lineNums i Hat Hbranch Hfirst.
  unfold syncTexJsForward. rewrite Hget. simpl. fold lineNums. fold i. rewrite Hat.
  assert (Htest : ((i =? 0)%Z || (l =? line)%N)%bool = true).
  { destruct Hbranch as [-> | ->]; [reflexivity|].
    rewrite N.eqb_refl. apply orb_true_r. }
  rewrite Htest, (firstPageBlocks_first Hfirst). simpl.
  destruct Hfirst as (_ & _ & _ & _ & _ & Hb). rewrite Hb. reflexivity.
Qed.

Lemma forward_second_branch (line l0 l1 : N) (filePath : string)
    (o : PdfSyncObject.t) (linePageBlocks : LinePageBlocks)
    (blocks0 blocks1 : list Block.t) (b0 b1 : Block.t) :
  get filePath (PdfSyncObject.blockNumberLine o) = Some linePageBlocks ->
  let lineNums := sortNumbers (keys linePageBlocks) in
  let i := findIndex (fun x => (line <=? x)%N) lineNums in
  i <> 0%Z ->
  at_ lineNums i = Some l1 ->
  l1 <> line ->
  at_ lineNums (i - 1) = Some l0 ->
  firstBucket linePageBlocks l0 blocks0 b0 ->
  firstBucket linePageBlocks l1 blocks1 b1 ->
  syncTexJsForward line filePath o
  = Ok {| SyncTeXRecordForward.page := Block.page b1;
          SyncTeXRecordForward.x :=
            (Rect.left (getCoveringRectangle blocks1)
             + Offset.x (PdfSyncObject.offset o))%Q;
          SyncTeXRecordForward.y :=
            (interpolated (Rect.bottom (getCoveringRectangle blocks0))
                          (Rect.bottom (getCoveringRectangle blocks1))
                          l0 line l1
             + Offset.y (PdfSyncObject.offset o))%Q |}.
Proof.
  intros Hget lineNums i Hi Hat1 Hne Hat0 H0 H1.
  unfold syncTexJsForward. rewrite Hget. simpl. fold lineNums. fold i.
  rewrite Hat1, Hat0.
  apply Z.eqb_neq in Hi. apply N.eqb_neq in Hne. rewrite Hi, Hne. simpl.
  rewrite (firstPageBlocks_first H0), (firstPageBlocks_first H1). simpl.
  destruct H1 as (_ & _ & _ & _ & _ & Hb). rewrite Hb. reflexivity.
Qed.

Lemma forward_no_index (line : N) (filePath : string) (o : PdfSyncObject.t)
    (linePageBlocks : LinePageBlocks) :
  get filePath (PdfSyncObject.blockNumberLine o) = Some linePageBlocks ->
  findIndex (fun x => (line <=? x)%N) (sortNumbers (keys linePageBlocks)) = (-1)%Z ->
  syncTexJsForward line filePath o = Err TypeError.
Proof.
  intros Hget Hi. unfold syncTexJsForward. rewrite Hget. simpl. rewrite Hi.
  rewrite !at_negative by lia. reflexivity.
Qed.

Lemma bind_error {A B : Type} (r : Result A) (k : A -> Result B) (e : Error) :
  bind r k = Err e -> r = Err e \/ exists a, r = Ok a /\ k a = Err e.
Proof.
  destruct r as [a|e']; simpl; intro H; [right; now exists a | left; congruence].
Qed.

Lemma defined_error {A : Type} (o : option A) (e : Error) :
  defined o = Err e -> e = TypeError.
Proof. destruct o; simpl; intros [= <-]. reflexivity. Qed.

(** X5.  Asked for a line that is not after the first recorded line of the
    file, forward search answers with the position of that first recorded
    line. *)
Theorem forward_before_first (line first : N) (filePath : string)
    (o : PdfSyncObject.t) (linePageBlocks : LinePageBlocks) :
  wellFormedIndex (PdfSyncObject.blockNumberLine o) ->
  get filePath (PdfSyncObject.blockNumberLine o) = Some linePageBlocks ->
  In first (keys linePageBlocks) ->
  (forall k, In k (keys linePageBlocks) -> (first <= k)%N) ->
  (line <= first)%N ->
  exists blocks b,
    firstBucket linePageBlocks first blocks b
    /\ syncTexJsForward line filePath o
       = Ok (directLocation (PdfSyncObject.offset o) blocks b)
    /\ syncTexJsForward first filePath o = syncTexJsForward line filePath o.
Proof.
  intros Hwf Hget Hin Hleast Hline.
  destruct (wellFormedIndex_recorded _ _ Hwf Hget Hin) as (blocks & b & Hfirst).
  exists blocks, b. split; [exact Hfirst|].
  assert (Hline' : syncTexJsForward line filePath o
                   = Ok (directLocation (PdfSyncObject.offset o) blocks b)).
  { destruct (@findIndex_sorted line _ (sortNumbers_sorted (keys linePageBlocks)))
      as [[_ Hall] | (pre & x & post & E & Hi & Hpre & Hx & _ & Hpost)].
    - assert (Hf : In first (sortNumbers (keys linePageBlocks)))
        by now apply In_sortNumbers.
      specialize (Hall _ Hf). lia.
    - assert (Hnil : pre = []).
      { destruct pre as [|z pre]; [reflexivity|]. exfalso.
        assert (Hz : In z (keys linePageBlocks)).
        { apply In_sortNumbers. rewrite E. now left. }
        specialize (Hleast z Hz). specialize (Hpre z (or_introl eq_refl)). lia. }
      subst pre. simpl in E, Hi.
      assert (Ex : x = first).
      { assert (Hxin : In x (keys linePageBlocks)).
        { apply In_sortNumbers. rewrite E. now left. }
        specialize (Hleast x Hxin).
        apply In_sortNumbers in Hin. rewrite E in Hin.
        destruct Hin as [-> | Hin]; [reflexivity|]. specialize (Hpost _ Hin). lia. }
      subst x.
      apply (@forward_first_branch line first filePath o _ blocks b Hget).
      + rewrite Hi, E. reflexivity.
      + left. exact Hi.
      + exact Hfirst. }
  split; [exact Hline'|]. rewrite Hline'.
  exact (@forward_recorded first filePath o _ _ _ Hget Hfirst).
Qed.

Lemma forward_before_first_witness :
  exists blocks b,
    firstBucket
      [(12%N, [(1%N, [element "/doc/main.tex" 12 1 3 8 (Some 4) 2])]);
       (20%N, [(2%N, [element "/doc/main.tex" 20 2 5 30 None 2])]);
       (14%N, [(1%N, [element "/doc/main.tex" 14 1 3 16 (Some 4) 2;
                      element "/doc/main.tex" 14 1 7 18 (Some 4) 2])])]
      12 blocks b
    /\ syncTexJsForward 3 "/doc/main.tex" threeLines
       = Ok (directLocation (PdfSyncObject.offset threeLines) blocks b)
    /\ syncTexJsForward 12 "/doc/main.tex" threeLines
       = syncTexJsForward 3 "/doc/main.tex" threeLines.
Proof.
  refine (@forward_before_first 3 12 "/doc/main.tex" threeLines _ _ eq_refl _ _ _).
  - apply wellFormedIndexb_sound. reflexivity.
  - vm_compute. now left.
  - intros k Hk. vm_compute in Hk. destruct Hk as [<- | [<- | [<- | []]]]; lia.
  - lia.
Defined.

(** X6.  On a well-formed index, forward search answers for a recorded file
    exactly when the requested line is not after the last recorded line of
    that file. *)
Theorem forward_answers_iff (line : N) (filePath : string) (o : PdfSyncObject.t)
    (linePageBlocks : LinePageBlocks) :
  wellFormedIndex (PdfSyncObject.blockNumberLine o) ->
  get filePath (PdfSyncObject.blockNumberLine o) = Some linePageBlocks ->
  (exists r, syncTexJsForward line filePath o = Ok r)
  <-> exists k, In k (keys linePageBlocks) /\ (line <= k)%N.
Proof.
  intros Hwf Hget.
  destruct (@findIndex_sorted line _ (sortNumbers_sorted (keys linePageBlocks)))
    as [[Hi Hall] | (pre & x & post & E & Hi & Hpre & Hx & _ & _)].
  - split.
    + intros [r Hr]. rewrite (@forward_no_index line filePath o _ Hget Hi) in Hr. discriminate Hr.
    + intros (k & Hk & Hle). apply In_sortNumbers in Hk. specialize (Hall k Hk). lia.
  - assert (Hxin : In x (keys linePageBlocks)).
    { apply In_sortNumbers. rewrite E. apply in_or_app. right. now left. }
    split; [intros _; now exists x|]. intros _.
    destruct (wellFormedIndex_recorded _ _ Hwf Hget Hxin) as (blocks1 & b1 & H1).
    destruct (N.eq_dec x line) as [Ex | Ex].
    { eexists. apply (@forward_first_branch line x filePath o _ blocks1 b1 Hget);
        [rewrite Hi, E; apply at_app | now right | exact H1]. }
    destruct pre as [|z0 pre0] eqn:Epre.
    { eexists. apply (@forward_first_branch line x filePath o _ blocks1 b1 Hget);
        [rewrite Hi, E; apply at_app | left; exact Hi | exact H1]. }
    rewrite <- Epre in *.
    destruct (exists_last (l := pre)) as (pre' & z & Ez); [rewrite Epre; discriminate|].
    assert (Hzin : In z (keys linePageBlocks)).
    { apply In_sortNumbers. rewrite E, Ez. apply in_or_app. left.
      apply in_or_app. right. now left. }
    destruct (wellFormedIndex_recorded _ _ Hwf Hget Hzin) as (blocks0 & b0 & H0).
    eexists.
    apply (@forward_second_branch line z x filePath o _ blocks0 blocks1 b0 b1 Hget).
    + rewrite Hi, Ez, length_app. simpl. lia.
    + rewrite Hi, E. apply at_app.
    + exact Ex.
    + rewrite Hi, E, Ez. apply at_before.
    + exact H0.
    + exact H1.
Qed.

Lemma forward_answers_iff_witness :
  (exists r, syncTexJsForward 17 "/doc/main.tex" threeLines = Ok r)
  <-> exists k, In k (keys [(12%N, [(1%N, [element "/doc/main.tex" 12 1 3 8 (Some 4) 2])]);
                            (20%N, [(2%N, [element "/doc/main.tex" 20 2 5 30 None 2])]);
                            (14%N, [(1%N, [element "/doc/main.tex" 14 1 3 16 (Some 4) 2;
                                           element "/doc/main.tex" 14 1 7 18 (Some 4) 2])])])
                /\ (17 <= k)%N.
Proof.
  refine (@forward_answers_iff 17 "/doc/main.tex" threeLines _ _ eq_refl).
  apply wellFormedIndexb_sound. reflexivity.
Defined.

(** X7.  Between two neighbouring recorded lines, the page and the
    abscissa of the answer are those of the answer for the later of the two
    lines: only the ordinate is interpolated. *)
Theorem forward_between_page (line line0 line1 : N) (filePath : string)
    (o : PdfSyncObject.t) (linePageBlocks : LinePageBlocks) :
  wellFormedIndex (PdfSyncObject.blockNumberLine o) ->
  get filePath (PdfSyncObject.blockNumberLine o) = Some linePageBlocks ->
  In line0 (keys linePageBlocks) ->
  In line1 (keys linePageBlocks) ->
  (forall k, In k (keys linePageBlocks) -> ~ (line0 < k < line1)%N) ->
  (line0 < line < line1)%N ->
  exists r r1,
    syncTexJsForward line filePath o = Ok r
    /\ syncTexJsForward line1 filePath o = Ok r1
    /\ SyncTeXRecordForward.page r = SyncTeXRecordForward.page r1
    /\ SyncTeXRecordForward.x r = SyncTeXRecordForward.x r1.
Proof.
  intros Hwf Hget Hin0 Hin1 Hadj Hlt.
  destruct (wellFormedIndex_recorded _ _ Hwf Hget Hin0) as (blocks0 & b0 & H0).
  destruct (wellFormedIndex_recorded _ _ Hwf Hget Hin1) as (blocks1 & b1 & H1).
  eexists. eexists.
  split; [exact (@forward_between line line0 line1 filePath o _ _ _ _ _
                   Hget H0 H1 Hadj Hlt)|].
  split; [exact (@forward_recorded line1 filePath o _ _ _ Hget H1)|].
  split; reflexivity.
Qed.

Lemma forward_between_page_witness :
  exists r r1,
    syncTexJsForward 17 "/doc/main.tex" threeLines = Ok r
    /\ syncTexJsForward 20 "/doc/main.tex" threeLines = Ok r1
    /\ SyncTeXRecordForward.page r = SyncTeXRecordForward.page r1
    /\ SyncTeXRecordForward.x r = SyncTeXRecordForward.x r1.
Proof.
  refine (@forward_between_page 17 14 20 "/doc/main.tex" threeLines _ _ eq_refl _ _ _ _).
  - apply wellFormedIndexb_sound. reflexivity.
  - vm_compute. right. now left.
  - vm_compute. right. right. now left.
  - intros k Hk. vm_compute in Hk. destruct Hk as [<- | [<- | [<- | []]]]; lia.
  - lia.
Defined.

(** ** The covering rectangle does not depend on the order of the blocks *)

Lemma seededMax_unique (seed m m' : Q) (vs vs' : list Q) :
  seededMax seed m vs -> seededMax seed m' vs' ->
  (forall v, In v vs <-> In v vs') -> (m == m')%Q.
Proof.
  intros (Hs & Hall & Hin) (Hs' & Hall' & Hin') Hsame.
  apply Qle_antisym.
  - destruct Hin as [-> | Hin]; [exact Hs'|]. apply Hall'. now apply Hsame.
  - destruct Hin' as [-> | Hin']; [exact Hs|]. apply Hall. now apply Hsame.
Qed.

Lemma seededMin_unique (seed m m' : Q) (vs vs' : list Q) :
  seededMin seed m vs -> seededMin seed m' vs' ->
  (forall v, In v vs <-> In v vs') -> (m == m')%Q.
Proof.
  intros (Hs & Hall & Hin) (Hs' & Hall' & Hin') Hsame.
  apply Qle_antisym.
  - destruct Hin' as [-> | Hin']; [exact Hs|]. apply Hall. now apply Hsame.
  - destruct Hin as [-> | Hin]; [exact Hs'|]. apply Hall'. now apply Hsame.
Qed.

Lemma candidates_permutation (g : Block.t -> option Q) (blocks blocks' : list Block.t) :
  Permutation blocks blocks' ->
  forall v, In v (candidates g blocks) <-> In v (candidates g blocks').
Proof.
  intros Hp v. rewrite !In_candidates. split; intros (b & Hb & Hv); exists b;
    (split; [|exact Hv]).
  - exact (Permutation_in _ Hp Hb).
  - exact (Permutation_in _ (Permutation_sym Hp) Hb).
Qed.

(** X8.  The covering rectangle of a list of blocks does not depend on
    their order: two lists with the same blocks, in any order, have
    rectangles with equal edges. *)
Theorem covering_rectangle_permutation (blocks blocks' : list Block.t) :
  Permutation blocks blocks' ->
  sameRect (getCoveringRectangle blocks) (getCoveringRectangle blocks').
Proof.
  intro Hp. split; [|split; [|split]].
  - exact (seededMin_unique (top_seeded blocks) (top_seeded blocks')
             (candidates_permutation _ Hp)).
  - exact (seededMax_unique (bottom_seeded blocks) (bottom_seeded blocks')
             (candidates_permutation _ Hp)).
  - exact (seededMin_unique (left_seeded blocks) (left_seeded blocks')
             (candidates_permutation _ Hp)).
  - exact (seededMax_unique (right_seeded blocks) (right_seeded blocks')
             (candidates_permutation _ Hp)).
Qed.

Lemma covering_rectangle_permutation_witness :
  sameRect (getCoveringRectangle [plainBlock; bareBlock; squareBlock])
           (getCoveringRectangle [squareBlock; plainBlock; bareBlock]).
Proof.
  apply covering_rectangle_permutation.
  apply Permutation_sym. apply (Permutation_cons_app [plainBlock; bareBlock] []).
  rewrite app_nil_r. apply Permutation_refl.
Defined.

(** ** Invariants of the parser *)

Lemma parseSyncTex_finish (text : string) :
  parseSyncTex text
  = (st <- parseLines State.initial (tl (split text)) ;;
     Ok (finish (removeFirst "SyncTeX Version:" (hd EmptyString (split text))) st)).
Proof. reflexivity. Qed.

Section Preservation.
Variable P : State.t -> Prop.
Hypothesis HP : Preserved P.

Lemma parseLine_keeps (st st' : State.t) (line : string) :
  P st -> parseLine st line = Ok st' -> P st'.
Proof.
  intros Hst. unfold parseLine.
  destruct (search inputPattern line) as [[m1 m2]|] eqn:E1.
  { intros [= <-]. eapply keeps_input; eassumption. }
  destruct (search offsetPattern line) as [[a1 a2]|] eqn:E2.
  { intro H. eapply keeps_offset; eassumption. }
  destruct (search openPagePattern line) as [n|].
  { intros [= <-]. eapply keeps_openPage; eassumption. }
  assert (Hrest :
    match search verticalBlockPattern line with
    | Some m => onOpenBlock st false m
    | None =>
        match search closeverticalBlockPattern line with
        | Some _ => Ok (onCloseBlock st)
        | None =>
            match search horizontalBlockPattern line with
            | Some m => onOpenBlock st true m
            | None =>
                match search closehorizontalBlockPattern line with
                | Some _ => Ok (onCloseBlock st)
                | None =>
                    match search elementBlockPattern line with
                    | Some m => onElement st m
                    | None => Ok st
                    end
                end
            end
        end
    end = Ok st' -> P st').
  { destruct (search verticalBlockPattern line) as [m|].
    { intro H. eapply keeps_openBlock; eassumption. }
    destruct (search closeverticalBlockPattern line).
    { intros [= <-]. eapply keeps_closeBlock; eassumption. }
    destruct (search horizontalBlockPattern line) as [m|].
    { intro H. eapply keeps_openBlock; eassumption. }
    destruct (search closehorizontalBlockPattern line).
    { intros [= <-]. eapply keeps_closeBlock; eassumption. }
    destruct (search elementBlockPattern line) as [m|] eqn:E9.
    { intro H. eapply keeps_element; eassumption. }
    intros [= <-]. exact Hst. }
  destruct (search closePagePattern line) as [n|]; [|exact Hrest].
  destruct (State.currentPage st) as [currentPage|] eqn:Ec; [|exact Hrest].
  intros [= <-]. eapply keeps_closePage; eassumption.
Qed.

Lemma parseLines_keeps (lines : list string) (st st' : State.t) :
  P st -> parseLines st lines = Ok st' -> P st'.
Proof.
  revert st. induction lines as [|l lines IH]; intros st Hst; simpl.
  - intros [= <-]. exact Hst.
  - destruct (parseLine st l) as [st1|e] eqn:E; simpl; [|discriminate].
    apply IH. eapply parseLine_keeps; eassumption.
Qed.

(** What holds at the start and is kept by every branch holds of the state
    a model is made from. *)
Lemma parseSyncTex_keeps (text : string) (o : PdfSyncObject.t) :
  P State.initial -> parseSyncTex text = Ok o ->
  exists version st, P st /\ o = finish version st.
Proof.
  intros Hinit. rewrite parseSyncTex_finish.
  destruct (parseLines State.initial (tl (split text))) as [st|e] eqn:E; simpl;
    [|discriminate].
  intros [= <-]. eexists. exists st. split; [|reflexivity].
  eapply parseLines_keeps; eassumption.
Qed.
End Preservation.

(** *** The elements of the index *)

Lemma num_nonneg (n : N) : (0 <= num n)%Q.
Proof.
  unfold num. change 0%Q with (inject_Z 0). rewrite <- Zle_Qle. lia.
Qed.

Lemma scaled_nonneg (n : N) : (0 <= num n / unit_)%Q.
Proof.
  apply Qle_shift_div_l; [reflexivity|]. rewrite Qmult_0_l. apply num_nonneg.
Qed.

Lemma indexForall_impl (Q Q' : string -> N -> N -> Block.t -> Prop)
    (blockNumberLine : BlockNumberLine) :
  (forall f l p e, Q f l p e -> Q' f l p e) ->
  indexForall Q blockNumberLine -> indexForall Q' blockNumberLine.
Proof.
  intros Himp HQ f lpb l pb p blocks e H1 H2 H3 H4.
  apply Himp. exact (HQ _ _ _ _ _ _ _ H1 H2 H3 H4).
Qed.

Lemma bucket_entry (pageBlocks : PageBlocks) (page : N) (e : Block.t) :
  In e (match get page pageBlocks with Some l => l | None => [] end) ->
  exists blocks, In (page, blocks) pageBlocks /\ In e blocks.
Proof.
  destruct (get page pageBlocks) as [blocks|] eqn:E; [|intros []].
  intro Hin. exists blocks. split; [now apply get_entry | exact Hin].
Qed.

(** Entering an element keeps what holds of every element, if it holds of
    the new one under its own file, line and page. *)
Lemma record_forall (Q : string -> N -> N -> Block.t -> Prop)
    (blockNumberLine : BlockNumberLine) (path : string)
    (lineNumber page : N) (elem : Block.t) :
  indexForall Q blockNumberLine ->
  Q path lineNumber page elem ->
  let linePageBlocks := orEmpty (get path blockNumberLine) in
  let pageBlocks := orEmpty (get lineNumber linePageBlocks) in
  let blocks := match get page pageBlocks with Some l => l | None => [] end in
  indexForall Q
    (set path
       (set lineNumber (set page (blocks ++ [elem]) pageBlocks) linePageBlocks)
       blockNumberLine).
Proof.
  intros HQ Helem lpb pb blocks f lpb' l pb' p blocks' e H1 H2 H3 H4.
  apply set_entry in H1. destruct H1 as [[= -> ->] | H1];
    [|exact (HQ _ _ _ _ _ _ _ H1 H2 H3 H4)].
  apply set_entry in H2. destruct H2 as [[= -> ->] | H2].
  - apply set_entry in H3. destruct H3 as [[= -> ->] | H3].
    + apply in_app_or in H4. destruct H4 as [H4 | [<- | []]]; [|exact Helem].
      subst blocks. apply bucket_entry in H4. destruct H4 as (blocks0 & H3 & H4).
      subst pb. apply orEmpty_entry in H3. destruct H3 as (pb0 & H2 & H3).
      subst lpb. apply orEmpty_entry in H2. destruct H2 as (lpb0 & H1 & H2).
      exact (HQ _ _ _ _ _ _ _ H1 H2 H3 H4).
    + subst pb. apply orEmpty_entry in H3. destruct H3 as (pb0 & H2 & H3).
      subst lpb. apply orEmpty_entry in H2. destruct H2 as (lpb0 & H1 & H2).
      exact (HQ _ _ _ _ _ _ _ H1 H2 H3 H4).
  - subst lpb. apply orEmpty_entry in H2. destruct H2 as (lpb0 & H1 & H2).
    exact (HQ _ _ _ _ _ _ _ H1 H2 H3 H4).
Qed.

Lemma recordedElement_more (n n' : N) f l p e :
  (n <= n')%N -> recordedElement n f l p e -> recordedElement n' f l p e.
Proof.
  intros Hn (H1 & H2 & H3). split; [exact H1|]. split; [exact H2 | lia].
Qed.

Lemma elementsState_preserved : Preserved elementsState.
Proof.
  constructor.
  - intros st line m1 m2 H _. exact H.
  - intros st line m1 m2 st' (Hidx & Hx & Hy & Hp) _. unfold onOffset.
    destruct (Ascii.eqb (toLowerCase m1) "x").
    { intros [= <-]. split; [exact Hidx|]. split; [apply scaled_nonneg|].
      split; [exact Hy | exact Hp]. }
    destruct (Ascii.eqb (toLowerCase m1) "y"); [|discriminate].
    intros [= <-]. split; [exact Hidx|]. split; [exact Hx|].
    split; [apply scaled_nonneg | exact Hp].
  - intros st m1 (Hidx & Hx & Hy & Hp). unfold elementsState, onOpenPage. simpl.
    assert (Hmax : (State.numberPages st
                    <= (if (State.numberPages st <? parseInt m1)%N
                        then parseInt m1 else State.numberPages st))%N
                   /\ (parseInt m1
                       <= (if (State.numberPages st <? parseInt m1)%N
                           then parseInt m1 else State.numberPages st))%N).
    { destruct (State.numberPages st <? parseInt m1)%N eqn:E;
        [apply N.ltb_lt in E | apply N.ltb_ge in E]; lia. }
    destruct Hmax as [Hold Hnew].
    split; [|split; [exact Hx | split; [exact Hy|]]].
    + apply (indexForall_impl (Q := recordedElement (State.numberPages st)));
        [|exact Hidx].
      intros f l p e. now apply recordedElement_more.
    + intros p [= <-]. exact Hnew.
  - intros st m1 currentPage (Hidx & Hx & Hy & Hp) _.
    split; [exact Hidx|]. split; [exact Hx|]. split; [exact Hy|]. intros p [=].
  - intros st horizontal m st' (Hidx & Hx & Hy & Hp). unfold onOpenBlock.
    destruct (State.currentPage st) as [currentPage|] eqn:Ec; [|discriminate].
    destruct (State.currentElement st); [|discriminate].
    intros [= <-]. split; [exact Hidx|]. split; [exact Hx|]. split; [exact Hy|].
    simpl. intros p [= <-]. now apply Hp.
  - intros st H. unfold onCloseBlock. destruct (closable st) as [[id pid]|]; exact H.
  - intros st line m st' (Hidx & Hx & Hy & Hp) _. unfold onElement.
    destruct (State.currentPage st) as [currentPage|] eqn:Ec; [|discriminate].
    destruct (State.currentElement st) as [[p|id]|]; try discriminate.
    destruct (nth_error (State.store st) id) as [current|]; [|discriminate].
    simpl.
    destruct (get (numberKey (parseInt (ElementMatch.m2 m))) (State.files st))
      as [file|] eqn:Ef; [|discriminate].
    simpl. intros [= <-]. unfold elementsState. simpl.
    split; [|split; [exact Hx | split; [exact Hy | exact Hp]]].
    apply record_forall; [exact Hidx|].
    split; [|split].
    + simpl. destruct file. repeat split.
    + split; [apply scaled_nonneg|]. split; [apply scaled_nonneg|]. simpl.
      intros w. destruct (ElementMatch.m7 m); simpl; [|discriminate].
      intros [= <-]. apply scaled_nonneg.
    + simpl. now apply Hp.
Qed.

Lemma elementsState_initial : elementsState State.initial.
Proof.
  split; [intros ? ? ? ? ? ? ? []|]. split; [apply Qle_refl|].
  split; [apply Qle_refl|]. intros p [=].
Qed.

(** The elements of the buckets of a parsed model. *)
Lemma parsed_elements (text : string) (o : PdfSyncObject.t)
    (fileName : string) (lineNum pageNum : N) (blocks : list Block.t) (e : Block.t) :
  parseSyncTex text = Ok o ->
  bucketAt (PdfSyncObject.blockNumberLine o) fileName lineNum pageNum blocks ->
  In e blocks ->
  recordedElement (PdfSyncObject.numberPages o) fileName lineNum pageNum e.
Proof.
  intros Hparse (lpb & pb & Hf & Hl & Hp) He.
  destruct (parseSyncTex_keeps elementsState_preserved _ elementsState_initial Hparse)
    as (version & st & (Hidx & _) & ->).
  simpl in *.
  exact (Hidx _ _ _ _ _ _ _ (get_entry _ _ Hf) (get_entry _ _ Hl) (get_entry _ _ Hp) He).
Qed.

Lemma parsed_offset (text : string) (o : PdfSyncObject.t) :
  parseSyncTex text = Ok o ->
  (0 <= Offset.x (PdfSyncObject.offset o))%Q
  /\ (0 <= Offset.y (PdfSyncObject.offset o))%Q.
Proof.
  intros Hparse.
  destruct (parseSyncTex_keeps elementsState_preserved _ elementsState_initial Hparse)
    as (version & st & (_ & Hx & Hy & _) & ->).
  now split.
Qed.

(** X9.  In a parsed model, every element of the bucket of a file, a line
    and a page is an element of that file, that line and that page.  The
    text declares no file under a name inherited from [Object.prototype],
    and its numbers are below [2^53]: outside of these texts the source
    reads through the prototype chain and rounds, which the model does
    not. *)
Theorem parsed_bucket_consistent (text : string) (o : PdfSyncObject.t)
    (fileName : string) (lineNum pageNum : N) (blocks : list Block.t) (e : Block.t) :
  plainPaths text = true ->
  exactNumbers text = true ->
  parseSyncTex text = Ok o ->
  bucketAt (PdfSyncObject.blockNumberLine o) fileName lineNum pageNum blocks ->
  In e blocks ->
  Block.file e = Some {| File.path := fileName |}
  /\ Block.line e = lineNum
  /\ Block.page e = pageNum.
Proof.
  intros _ _ Hparse Hbucket He.
  destruct (@parsed_elements text o fileName lineNum pageNum blocks e Hparse Hbucket He)
    as ((H1 & H2 & H3 & _) & _).
  now repeat split.
Qed.

(** X10.  In a parsed model, the elements of the index have a left
    coordinate, a bottom coordinate and, where present, a width that are not
    negative, whatever signs the synchronisation file holds, and their page
    is at most the number of pages; the offset is not negative either. *)
Theorem parsed_elements_nonnegative (text : string) (o : PdfSyncObject.t)
    (fileName : string) (lineNum pageNum : N) (blocks : list Block.t) (e : Block.t) :
  parseSyncTex text = Ok o ->
  bucketAt (PdfSyncObject.blockNumberLine o) fileName lineNum pageNum blocks ->
  In e blocks ->
  (0 <= Block.left e)%Q /\ (0 <= Block.bottom e)%Q
  /\ (forall w, Block.width e = Some w -> (0 <= w)%Q)
  /\ (Block.page e <= PdfSyncObject.numberPages o)%N
  /\ (0 <= Offset.x (PdfSyncObject.offset o))%Q
  /\ (0 <= Offset.y (PdfSyncObject.offset o))%Q.
Proof.
  intros Hparse Hbucket He.
  destruct (@parsed_elements text o fileName lineNum pageNum blocks e Hparse Hbucket He) as (_ & (H1 & H2 & H3) & H4).
  destruct (@parsed_offset text o Hparse) as [Hx Hy].
  now repeat split.
Qed.

Lemma signedText_parsed : parseSyncTex signedText = Ok signedModel.
Proof. vm_compute. reflexivity. Qed.

Lemma parsed_bucket_consistent_witness :
  Block.file signedElement = Some {| File.path := "/doc/main.tex" |}
  /\ Block.line signedElement = 12%N
  /\ Block.page signedElement = 1%N.
Proof.
  apply (@parsed_bucket_consistent signedText signedModel "/doc/main.tex" 12 1
           [signedElement] signedElement).
  - vm_compute. reflexivity.
  - vm_compute. reflexivity.
  - vm_compute. reflexivity.
  - eexists. eexists. repeat split; reflexivity.
  - now left.
Defined.

Lemma parsed_elements_nonnegative_witness :
  (0 <= Block.left signedElement)%Q /\ (0 <= Block.bottom signedElement)%Q
  /\ (forall w, Block.width signedElement = Some w -> (0 <= w)%Q)
  /\ (Block.page signedElement <= PdfSyncObject.numberPages signedModel)%N
  /\ (0 <= Offset.x (PdfSyncObject.offset signedModel))%Q
  /\ (0 <= Offset.y (PdfSyncObject.offset signedModel))%Q.
Proof.
  apply (@parsed_elements_nonnegative signedText signedModel "/doc/main.tex" 12 1
           [signedElement] signedElement).
  - vm_compute. reflexivity.
  - eexists. eexists. repeat split; reflexivity.
  - now left.
Defined.

(** *** The answers of forward search on a parsed model *)








(** ** The branch taken by a line *)

Lemma isNone_None {A : Type} (o : option A) : o = None -> isNone o = true.
Proof. intros ->. reflexivity. Qed.

Lemma parseLine_taken (st : State.t) (line : string) :
  Taken st line (parseLine st line).
Proof.
  unfold parseLine.
  destruct (search inputPattern line) as [[m1 m2]|] eqn:E1; [now constructor|].
  destruct (search offsetPattern line) as [[a1 a2]|] eqn:E2; [now constructor|].
  destruct (search openPagePattern line) as [n|] eqn:E3; [now constructor|].
  assert (Hrest : (isNone (search closePagePattern line)
                   || isNone (State.currentPage st))%bool = true ->
    Taken st line
      match search verticalBlockPattern line with
      | Some m => onOpenBlock st false m
      | None =>
          match search closeverticalBlockPattern line with
          | Some _ => Ok (onCloseBlock st)
          | None =>
              match search horizontalBlockPattern line with
              | Some m => onOpenBlock st true m
              | None =>
                  match search closehorizontalBlockPattern line with
                  | Some _ => Ok (onCloseBlock st)
                  | None =>
                      match search elementBlockPattern line with
                      | Some m => onElement st m
                      | None => Ok st
                      end
                  end
              end
          end
      end).
  { intro Hpage.
    destruct (search verticalBlockPattern line) as [m|] eqn:E5.
    { now apply (TakenOpenBlock st line false). }
    destruct (search closeverticalBlockPattern line) eqn:E6.
    { apply TakenCloseBlock; [exact E3|]. unfold closeMarker.
      rewrite E1, E2, E3, E5, E6, Hpage. reflexivity. }
    destruct (search horizontalBlockPattern line) as [m|] eqn:E7.
    { now apply (TakenOpenBlock st line true). }
    destruct (search closehorizontalBlockPattern line) eqn:E8.
    { apply TakenCloseBlock; [exact E3|]. unfold closeMarker.
      rewrite E1, E2, E3, E5, E6, E7, E8, Hpage. reflexivity. }
    destruct (search elementBlockPattern line) as [m|] eqn:E9.
    { now constructor. }
    now constructor. }
  destruct (search closePagePattern line) as [n|] eqn:E4; [|now apply Hrest].
  destruct (State.currentPage st) as [currentPage|] eqn:Ec; [|now apply Hrest].
  now apply TakenClosePage with (m1 := n).
Qed.

Lemma offsetPattern_axis (line : string) (m1 : ascii) (m2 : string) :
  search offsetPattern line = Some (m1, m2) -> m1 = "X"%char \/ m1 = "Y"%char.
Proof.
  intro Hs. destruct (search_Some _ _ Hs) as [s Hm].
  unfold offsetPattern, optBind in Hm.
  destruct s as [|c s]; [discriminate|].
  destruct (Ascii.eqb c "X" || Ascii.eqb c "Y")%bool eqn:Ec; [|discriminate].
  destruct (lit " Offset:" s) as [[u s1]|]; [|discriminate].
  destruct (digits s1) as [[d s2]|]; [|discriminate].
  injection Hm as <- _.
  apply orb_prop in Ec. destruct Ec as [E | E]; apply Ascii.eqb_eq in E; auto.
Qed.

Lemma onOffset_Ok (st : State.t) (line : string) (m1 : ascii) (m2 : string) :
  search offsetPattern line = Some (m1, m2) -> exists st', onOffset st m1 m2 = Ok st'.
Proof.
  intro Hs. destruct (offsetPattern_axis _ Hs) as [-> | ->]; eexists; reflexivity.
Qed.

Lemma onOpenBlock_error (st : State.t) (horizontal : bool) (m : BlockMatch.t) (e : Error) :
  onOpenBlock st horizontal m = Err e ->
  e = SyncTexJsError (if horizontal then hBlockMessage else vBlockMessage)
  /\ (State.currentPage st = None \/ State.currentElement st = None).
Proof.
  unfold onOpenBlock.
  destruct (State.currentPage st); [|intros [= <-]; split; [reflexivity | now left]].
  destruct (State.currentElement st); [discriminate|].
  intros [= <-]. split; [reflexivity | now right].
Qed.

Lemma onElement_error (st : State.t) (m : ElementMatch.t) (e : Error) :
  onElement st m = Err e ->
  e = SyncTexJsError elementMessage \/ e = TypeError.
Proof.
  unfold onElement.
  destruct (State.currentPage st); [|intros [= <-]; now left].
  destruct (State.currentElement st) as [[p|id]|]; try (intros [= <-]; now left).
  intro H. right.
  apply bind_error in H. destruct H as [H | (current & _ & H)];
    [exact (defined_error _ H)|].
  apply bind_error in H. destruct H as [H | (file & _ & H)];
    [exact (defined_error _ H) | discriminate H].
Qed.

Lemma parseLine_error (st : State.t) (line : string) (e : Error) :
  parseLine st line = Err e -> contextError e \/ e = TypeError.
Proof.
  intro H. pose proof (parseLine_taken st line) as Ht. rewrite H in Ht.
  inversion Ht;
    repeat match goal with
           | Heq : Err _ = _ |- _ => symmetry in Heq
           end.
  - match goal with Hs : search offsetPattern line = Some _ |- _ =>
      destruct (onOffset_Ok st _ Hs) as [st' Hst'] end.
    congruence.
  - match goal with Ho : onOpenBlock _ _ _ = Err _ |- _ =>
      apply onOpenBlock_error in Ho; destruct Ho as [-> _] end.
    left. destruct horizontal; [right; now left | now left].
  - match goal with Ho : onElement _ _ = Err _ |- _ =>
      apply onElement_error in Ho; destruct Ho as [-> | ->] end;
      [left; right; now right | now right].
Qed.

Lemma parseLines_error (lines : list string) (st : State.t) (e : Error) :
  parseLines st lines = Err e ->
  exists before line after st',
    lines = before ++ line :: after
    /\ parseLines st before = Ok st'
    /\ parseLine st' line = Err e.
Proof.
  revert st. induction lines as [|l lines IH]; intros st; simpl; [discriminate|].
  destruct (parseLine st l) as [st1|e1] eqn:E; simpl.
  - intro H. destruct (IH _ H) as (before & line & after & st' & -> & Hb & Hl).
    exists (l :: before), line, after, st'. split; [reflexivity|].
    split; [|exact Hl]. simpl. rewrite E. exact Hb.
  - intros [= <-]. exists [], l, lines, st. now repeat split.
Qed.

Lemma parseSyncTex_error (text : string) (e : Error) :
  parseSyncTex text = Err e ->
  exists before line after st,
    tl (split text) = before ++ line :: after
    /\ parseLines State.initial before = Ok st
    /\ parseLine st line = Err e.
Proof.
  rewrite parseSyncTex_finish. intro H.
  apply bind_error in H. destruct H as [H | (st & _ & H)]; [|discriminate H].
  exact (parseLines_error _ _ H).
Qed.

(** X12.  The parser raises nothing but the three errors of a line out of
    its context (a vertical block, a horizontal block or an element that is
    not allowed where it stands) and the [TypeError] of an element whose file
    is missing; the error of the offset branch, which the source marks as
    never occurring, never occurs. *)
Theorem parse_error_kinds (text : string) (e : Error) :
  parseSyncTex text = Err e ->
  (e = SyncTexJsError vBlockMessage \/ e = SyncTexJsError hBlockMessage
   \/ e = SyncTexJsError elementMessage \/ e = TypeError)
  /\ e <> SyncTexJsError neverMessage.
Proof.
  intro H. destruct (parseSyncTex_error _ H) as (before & line & after & st & _ & _ & Hl).
  destruct (parseLine_error _ _ Hl) as [[-> | [-> | ->]] | ->];
    (split; [tauto | discriminate]).
Qed.

Lemma parse_error_kinds_witness :
  (SyncTexJsError vBlockMessage = SyncTexJsError vBlockMessage
   \/ SyncTexJsError vBlockMessage = SyncTexJsError hBlockMessage
   \/ SyncTexJsError vBlockMessage = SyncTexJsError elementMessage
   \/ SyncTexJsError vBlockMessage = TypeError)
  /\ SyncTexJsError vBlockMessage <> SyncTexJsError neverMessage.
Proof.
  apply (@parse_error_kinds blockBeforePage). vm_compute. reflexivity.
Defined.

(** ** The page table *)

Lemma pageOk_more (n n' : N) (p : Page.t) : (n <= n')%N -> pageOk n p -> pageOk n' p.
Proof. intros Hn (H1 & H2 & H3). split; [exact H1|]. split; [exact H2 | lia]. Qed.

Lemma pagesState_preserved : Preserved pagesState.
Proof.
  constructor.
  - intros st line m1 m2 H _. exact H.
  - intros st line m1 m2 st' H _. unfold onOffset.
    destruct (Ascii.eqb (toLowerCase m1) "x"); [intros [= <-]; exact H|].
    destruct (Ascii.eqb (toLowerCase m1) "y"); [intros [= <-]; exact H | discriminate].
  - intros st m1 (Hc & Hp). unfold pagesState, onOpenPage. simpl.
    assert (Hmax : (State.numberPages st
                    <= (if (State.numberPages st <? parseInt m1)%N
                        then parseInt m1 else State.numberPages st))%N
                   /\ (parseInt m1
                       <= (if (State.numberPages st <? parseInt m1)%N
                           then parseInt m1 else State.numberPages st))%N).
    { destruct (State.numberPages st <? parseInt m1)%N eqn:E;
        [apply N.ltb_lt in E | apply N.ltb_ge in E]; lia. }
    destruct Hmax as [Hold Hnew]. split.
    + intros p [= <-]. now repeat split.
    + intros k p Hin. exact (pageOk_more Hold (Hp _ _ Hin)).
  - intros st m1 currentPage (Hc & Hp) Ec. split; simpl; [intros p [=]|].
    intros k p Hin. apply set_entry in Hin. destruct Hin as [[= -> ->] | Hin].
    + now apply Hc.
    + exact (Hp _ _ Hin).
  - intros st horizontal m st' (Hc & Hp). unfold onOpenBlock.
    destruct (State.currentPage st) as [currentPage|] eqn:Ec; [|discriminate].
    destruct (State.currentElement st); [|discriminate].
    intros [= <-]. split; simpl; [|exact Hp]. intros p [= <-]. now apply Hc.
  - intros st H. unfold onCloseBlock. destruct (closable st) as [[id pid]|]; exact H.
  - intros st line m st' (Hc & Hp) _. unfold onElement.
    destruct (State.currentPage st) as [currentPage|] eqn:Ec; [|discriminate].
    destruct (State.currentElement st) as [[p|id]|]; try discriminate.
    destruct (nth_error (State.store st) id) as [current|]; [|discriminate].
    simpl.
    destruct (get (numberKey (parseInt (ElementMatch.m2 m))) (State.files st))
      as [file|]; [|discriminate].
    simpl. intros [= <-]. split; simpl; [|exact Hp]. intros p [= <-]. now apply Hc.
Qed.

Lemma pagesState_initial : pagesState State.initial.
Proof. split; [intros p [=] | intros k p []]. Qed.

(** X13.  Every page of the page table of a parsed model has an empty list
    of blocks, the blocks opened at the top of a page being never attached
    to it, and a number that is at most the number of pages. *)
Theorem parsed_pages (text : string) (o : PdfSyncObject.t) (k : string) (p : Page.t) :
  parseSyncTex text = Ok o ->
  get k (PdfSyncObject.pages o) = Some p ->
  Page.blocks p = [] /\ (Page.page p <= PdfSyncObject.numberPages o)%N.
Proof.
  intros Hparse Hget.
  destruct (parseSyncTex_keeps pagesState_preserved _ pagesState_initial Hparse)
    as (version & st & (_ & Hp) & ->).
  simpl in *. destruct (Hp _ _ (get_entry _ _ Hget)) as (H1 & _ & H3). now split.
Qed.

Lemma parsed_pages_witness :
  Page.blocks {| Page.page := 1; Page.blocks := []; Page.type := "page" |} = []
  /\ (Page.page {| Page.page := 1; Page.blocks := []; Page.type := "page" |}
      <= PdfSyncObject.numberPages signedModel)%N.
Proof.
  apply (@parsed_pages signedText signedModel "1").
  - vm_compute. reflexivity.
  - reflexivity.
Defined.

(** ** Lines that need a context *)

Lemma needsContext_fails (st : State.t) (line : string) :
  State.currentPage st = None -> needsContext line = true ->
  exists e, parseLine st line = Err e /\ contextError e.
Proof.
  intros Hc Hn. unfold needsContext in Hn.
  repeat (apply andb_prop in Hn; destruct Hn as [Hn ?]).
  unfold parseLine.
  rewrite (isNone_true _ Hn).
  match goal with H : isNone (search offsetPattern line) = true |- _ =>
    rewrite (isNone_true _ H) end.
  match goal with H : isNone (search openPagePattern line) = true |- _ =>
    rewrite (isNone_true _ H) end.
  assert (Hrest : exists e,
    match search verticalBlockPattern line with
    | Some m => onOpenBlock st false m
    | None =>
        match search closeverticalBlockPattern line with
        | Some _ => Ok (onCloseBlock st)
        | None =>
            match search horizontalBlockPattern line with
            | Some m => onOpenBlock st true m
            | None =>
                match search closehorizontalBlockPattern line with
                | Some _ => Ok (onCloseBlock st)
                | None =>
                    match search elementBlockPattern line with
                    | Some m => onElement st m
                    | None => Ok st
                    end
                end
            end
        end
    end = Err e /\ contextError e).
  { match goal with H : (negb _ || _)%bool = true |- _ => rename H into Hb end.
    destruct (search verticalBlockPattern line) as [m|].
    { unfold onOpenBlock. rewrite Hc. eexists. split; [reflexivity | now left]. }
    simpl in Hb.
    destruct (search closeverticalBlockPattern line); [discriminate Hb|].
    simpl in Hb.
    destruct (search horizontalBlockPattern line) as [m|].
    { unfold onOpenBlock. rewrite Hc. eexists. split; [reflexivity | right; now left]. }
    simpl in Hb.
    destruct (search closehorizontalBlockPattern line); [discriminate Hb|].
    simpl in Hb.
    destruct (search elementBlockPattern line) as [m|]; [|discriminate Hb].
    unfold onElement. rewrite Hc. eexists. split; [reflexivity | right; now right]. }
  destruct (search closePagePattern line); [|exact Hrest].
  rewrite Hc. exact Hrest.
Qed.

Lemma parseLine_noPage (st : State.t) (line : string) :
  noPage st -> search openPagePattern line = None ->
  match parseLine st line with
  | Ok st' => noPage st'
  | Err e => contextError e
  end.
Proof.
  intros [Hc He] Hopen. pose proof (parseLine_taken st line) as Ht.
  destruct (parseLine st line) as [st'|e].
  - inversion Ht; subst; try (split; assumption); try congruence.
    + match goal with Ho : onOffset _ _ _ = Ok _ |- _ => unfold onOffset in Ho;
        destruct (Ascii.eqb (toLowerCase m1) "x");
          [|destruct (Ascii.eqb (toLowerCase m1) "y"); [|discriminate Ho]];
        injection Ho as <- end; split; assumption.
    + match goal with Ho : onOpenBlock _ _ _ = Ok _ |- _ =>
        unfold onOpenBlock in Ho; rewrite Hc in Ho; discriminate Ho end.
    + unfold onCloseBlock, closable. rewrite He. split; assumption.
    + match goal with Ho : onElement _ _ = Ok _ |- _ =>
        unfold onElement in Ho; rewrite Hc in Ho; discriminate Ho end.
  - inversion Ht; subst;
      repeat match goal with Heq : Err _ = _ |- _ => symmetry in Heq end.
    + match goal with Hs : search offsetPattern line = Some _ |- _ =>
        destruct (onOffset_Ok st _ Hs) as [st' Hst'] end.
      congruence.
    + match goal with Ho : onOpenBlock _ _ _ = Err _ |- _ =>
        unfold onOpenBlock in Ho; rewrite Hc in Ho; injection Ho as <- end.
      destruct horizontal; [right; now left | now left].
    + match goal with Ho : onElement _ _ = Err _ |- _ =>
        unfold onElement in Ho; rewrite Hc in Ho; injection Ho as <- end.
      right. now right.
Qed.

Lemma parseLines_noPage (lines : list string) (st : State.t) :
  noPage st -> (forall l, In l lines -> search openPagePattern l = None) ->
  match parseLines st lines with
  | Ok st' => noPage st'
  | Err e => contextError e
  end.
Proof.
  revert st. induction lines as [|l lines IH]; intros st Hst Hlines; simpl.
  - exact Hst.
  - pose proof (parseLine_noPage l Hst (Hlines l (or_introl eq_refl))) as Hl.
    destruct (parseLine st l) as [st1|e]; simpl; [|exact Hl].
    apply IH; [exact Hl|]. intros l' Hl'. apply Hlines. now right.
Qed.

(** X14.  A text in which a line that opens a block or records an element
    comes before every line that opens a page is not parsed: the parser
    raises one of its three errors of a line out of its context. *)
Theorem context_before_page (text version line : string)
    (before after : list string) :
  split text = version :: before ++ line :: after ->
  (forall l, In l before -> search openPagePattern l = None) ->
  needsContext line = true ->
  exists e, parseSyncTex text = Err e /\ contextError e.
Proof.
  intros Hsplit Hbefore Hline.
  rewrite parseSyncTex_finish, Hsplit. simpl tl. rewrite parseLines_app.
  pose proof (@parseLines_noPage before State.initial (conj eq_refl eq_refl) Hbefore)
    as Hb.
  destruct (parseLines State.initial before) as [st|e]; simpl.
  - destruct (needsContext_fails st line (proj1 Hb) Hline) as (e & He & Hk).
    exists e. rewrite He. now split.
  - now exists e.
Qed.

Lemma context_before_page_witness :
  exists e, parseSyncTex blockBeforePage = Err e /\ contextError e.
Proof.
  apply (@context_before_page blockBeforePage "SyncTeX Version:1"
           "[1,12:0,6578176:6578176,6578176,0"
           ["Input:1:/doc/main.tex"%string] ["{1"%string; "}1"%string]).
  - reflexivity.
  - intros l [<- | []]. reflexivity.
  - reflexivity.
Defined.

(** ** Errors are final *)

Lemma split_not_nil (s : string) : split s <> [].
Proof.
  destruct s as [|c s]; simpl; [discriminate|].
  destruct (Ascii.eqb c newline); [discriminate|].
  destruct (split s); discriminate.
Qed.

Lemma split_app (a b : string) :
  split (a ++ String newline b)%string = split a ++ split b.
Proof.
  induction a as [|c a IH]; simpl.
  - reflexivity.
  - destruct (Ascii.eqb c newline); [now rewrite IH|].
    rewrite IH. pose proof (split_not_nil a) as Hne.
    destruct (split a) as [|l ls]; [congruence | reflexivity].
Qed.

(** X15.  An error of the parser is final: when a text is not parsed, no
    line added after it makes it parsed, and the error stays the same. *)
Theorem parse_error_final (text more : string) (e : Error) :
  parseSyncTex text = Err e ->
  parseSyncTex (text ++ String newline more)%string = Err e.
Proof.
  rewrite !parseSyncTex_finish, split_app. intro H.
  apply bind_error in H. destruct H as [H | (st & _ & H)]; [|discriminate H].
  pose proof (split_not_nil text) as Hne.
  destruct (split text) as [|l ls]; [congruence|]. simpl tl in *. simpl app.
  simpl tl. rewrite parseLines_app, H. reflexivity.
Qed.

Lemma parse_error_final_witness :
  parseSyncTex (blockBeforePage ++ String newline "{2")%string
  = Err (SyncTexJsError vBlockMessage).
Proof.
  apply parse_error_final. vm_compute. reflexivity.
Defined.

(** ** The store of blocks is a forest *)

Lemma nth_error_update (i j : nat) (f : Block.t -> Block.t) (store : list Block.t) :
  nth_error (update i f store) j
  = if Nat.eqb i j then option_map f (nth_error store j) else nth_error store j.
Proof.
  revert i j. induction store as [|b store IH]; intros i j; simpl.
  - destruct i, j; simpl; try reflexivity. destruct (Nat.eqb i j); reflexivity.
  - destruct i as [|i]; destruct j as [|j]; simpl; try reflexivity.
    apply IH.
Qed.

Lemma nth_error_snoc (store : list Block.t) (x : Block.t) (j : nat) (c : Block.t) :
  nth_error (store ++ [x]) j = Some c ->
  nth_error store j = Some c \/ (j = List.length store /\ c = x).
Proof.
  intro H. destruct (Nat.lt_ge_cases j (List.length store)) as [Hlt | Hge].
  - left. now rewrite nth_error_app1 in H.
  - right. rewrite nth_error_app2 in H by exact Hge.
    destruct (j - List.length store)%nat as [|n] eqn:E; simpl in H.
    + injection H as <-. split; [lia | reflexivity].
    + destruct n; discriminate.
Qed.

Lemma nth_error_old (store : list Block.t) (x : Block.t) (j : nat) (c : Block.t) :
  nth_error store j = Some c -> nth_error (store ++ [x]) j = Some c.
Proof.
  intro H. rewrite nth_error_app1; [exact H|].
  apply nth_error_Some. congruence.
Qed.

Lemma isBoxAt_snoc (store : list Block.t) (x : Block.t) (id : nat) :
  isBoxAt store id -> isBoxAt (store ++ [x]) id.
Proof. intros (b & Hb & Hbox). exists b. split; [now apply nth_error_old | exact Hbox]. Qed.

Lemma isBoxAt_lt (store : list Block.t) (id : nat) :
  isBoxAt store id -> (id < List.length store)%nat.
Proof. intros (b & Hb & _). apply nth_error_Some. congruence. Qed.

Section Updates.
Variable f : Block.t -> Block.t.
Hypothesis f_shape : forall b, sameShape b (f b).
Variable i : nat.

Lemma update_forth (store : list Block.t) (j : nat) (c : Block.t) :
  nth_error store j = Some c ->
  exists c', nth_error (update i f store) j = Some c' /\ sameShape c c'.
Proof.
  intro H. rewrite nth_error_update, H. destruct (Nat.eqb i j); simpl.
  - exists (f c). split; [reflexivity | apply f_shape].
  - exists c. split; [reflexivity|]. split; [reflexivity|]. split; [tauto | reflexivity].
Qed.

Lemma update_back (store : list Block.t) (j : nat) (c' : Block.t) :
  nth_error (update i f store) j = Some c' ->
  exists c, nth_error store j = Some c /\ sameShape c c'
            /\ ((j = i /\ c' = f c) \/ (j <> i /\ c' = c)).
Proof.
  rewrite nth_error_update. destruct (Nat.eqb i j) eqn:E.
  - apply Nat.eqb_eq in E. subst j.
    destruct (nth_error store i) as [c|]; simpl; [|discriminate].
    intros [= <-]. exists c. split; [reflexivity|]. split; [apply f_shape|].
    left. now split.
  - apply Nat.eqb_neq in E. intro H. exists c'. split; [exact H|].
    split; [split; [reflexivity|]; split; [tauto | reflexivity]|].
    right. split; [congruence | reflexivity].
Qed.

Lemma isBoxAt_update (store : list Block.t) (id : nat) :
  isBoxAt store id -> isBoxAt (update i f store) id.
Proof.
  intros (b & Hb & Hbox). destruct (update_forth _ _ Hb) as (b' & Hb' & _ & Hnone).
  exists b'. split; [exact Hb' | tauto].
Qed.
End Updates.

Lemma pushBlock_shape (child : nat) (b : Block.t) : sameShape b (pushBlock child b).
Proof.
  split; [reflexivity|]. split; [|reflexivity].
  simpl. destruct (Block.blocks b); simpl; split; congruence.
Qed.

Lemma pushElement_shape (child : nat) (b : Block.t) : sameShape b (pushElement child b).
Proof. split; [reflexivity|]. split; [simpl; tauto | reflexivity]. Qed.

Lemma storeOk_snoc (store : list Block.t) (x : Block.t) :
  storeOk store ->
  (forall p, Block.parent x = RefBlock p -> isBoxAt store p) ->
  (forall l, Block.blocks x = Some l -> l = []) ->
  (forall l, Block.elements x = Some l -> l = []) ->
  storeOk (store ++ [x]).
Proof.
  intros (H1 & H2 & H3) Hp Hb He. split; [|split].
  - intros j b p Hj Hpar. apply nth_error_snoc in Hj. destruct Hj as [Hj | [-> ->]].
    + destruct (H1 _ _ _ Hj Hpar) as [Hlt Hbox]. split; [exact Hlt|].
      now apply isBoxAt_snoc.
    + specialize (Hp _ Hpar). split; [now apply isBoxAt_lt | now apply isBoxAt_snoc].
  - intros j b l k Hj Hl Hk. apply nth_error_snoc in Hj. destruct Hj as [Hj | [-> ->]].
    + destruct (H2 _ _ _ _ Hj Hl Hk) as (c & Hc & Hrest). exists c.
      split; [now apply nth_error_old | exact Hrest].
    + rewrite (Hb _ Hl) in Hk. destruct Hk.
  - intros j b l k Hj Hl Hk. apply nth_error_snoc in Hj. destruct Hj as [Hj | [-> ->]].
    + destruct (H3 _ _ _ _ Hj Hl Hk) as (c & Hc & Hrest). exists c.
      split; [now apply nth_error_old | exact Hrest].
    + rewrite (He _ Hl) in Hk. destruct Hk.
Qed.

(** Listing a box under its parent, as a closing line does. *)
Lemma storeOk_pushBlock (store : list Block.t) (pid id : nat) (b : Block.t) :
  storeOk store ->
  nth_error store id = Some b -> Block.parent b = RefBlock pid ->
  Block.blocks b <> None ->
  storeOk (update pid (pushBlock id) store).
Proof.
  intros (H1 & H2 & H3) Hid Hpar Hbox.
  pose proof (pushBlock_shape id) as Hshape. split; [|split].
  - intros j c' p Hj Hp.
    destruct (update_back _ Hshape _ _ _ Hj) as (c & Hc & (Hsp & _) & _).
    rewrite Hsp in Hp. destruct (H1 _ _ _ Hc Hp) as [Hlt Hb]. split; [exact Hlt|].
    now apply isBoxAt_update.
  - intros j c' l k Hj Hl Hk.
    destruct (update_back _ Hshape _ _ _ Hj) as (c & Hc & _ & Hcase).
    assert (Hold : forall l0, Block.blocks c = Some l0 -> In k l0 ->
              exists d', nth_error (update pid (pushBlock id) store) k = Some d'
                         /\ Block.parent d' = RefBlock j /\ Block.blocks d' <> None).
    { intros l0 Hl0 Hk0. destruct (H2 _ _ _ _ Hc Hl0 Hk0) as (d & Hd & Hdp & Hdb).
      destruct (update_forth _ Hshape pid _ _ Hd) as (d' & Hd' & Hsp & Hnone).
      exists d'. split; [exact Hd'|]. split; [congruence | tauto]. }
    destruct Hcase as [[-> ->] | [_ ->]]; [|now apply (Hold l)].
    simpl in Hl. destruct (Block.blocks c) as [l0|] eqn:El0; [|discriminate].
    simpl in Hl. injection Hl as <-. apply in_app_or in Hk.
    destruct Hk as [Hk | [<- | []]]; [now apply (Hold l0)|].
    destruct (update_forth _ Hshape pid _ _ Hid) as (d' & Hd' & Hsp & Hnone).
    exists d'. split; [exact Hd'|]. split; [congruence | tauto].
  - intros j c' l k Hj Hl Hk.
    destruct (update_back _ Hshape _ _ _ Hj) as (c & Hc & _ & Hcase).
    assert (Hel : Block.elements c = Some l).
    { destruct Hcase as [[_ ->] | [_ ->]]; exact Hl. }
    destruct (H3 _ _ _ _ Hc Hel Hk) as (d & Hd & Hdp & Hdb).
    destruct (update_forth _ Hshape pid _ _ Hd) as (d' & Hd' & Hsp & Hnone).
    exists d'. split; [exact Hd'|]. split; [congruence | tauto].
Qed.

(** Listing an element under the current block. *)
Lemma storeOk_pushElement (store : list Block.t) (id elemId : nat) (e : Block.t) :
  storeOk store ->
  nth_error store elemId = Some e -> Block.parent e = RefBlock id ->
  Block.blocks e = None ->
  storeOk (update id (pushElement elemId) store).
Proof.
  intros (H1 & H2 & H3) Hid Hpar Hnone.
  pose proof (pushElement_shape elemId) as Hshape. split; [|split].
  - intros j c' p Hj Hp.
    destruct (update_back _ Hshape _ _ _ Hj) as (c & Hc & (Hsp & _) & _).
    rewrite Hsp in Hp. destruct (H1 _ _ _ Hc Hp) as [Hlt Hb]. split; [exact Hlt|].
    now apply isBoxAt_update.
  - intros j c' l k Hj Hl Hk.
    destruct (update_back _ Hshape _ _ _ Hj) as (c & Hc & _ & Hcase).
    assert (Hbl : Block.blocks c = Some l).
    { destruct Hcase as [[_ ->] | [_ ->]]; exact Hl. }
    destruct (H2 _ _ _ _ Hc Hbl Hk) as (d & Hd & Hdp & Hdb).
    destruct (update_forth _ Hshape id _ _ Hd) as (d' & Hd' & Hsp & Hn).
    exists d'. split; [exact Hd'|]. split; [congruence | tauto].
  - intros j c' l k Hj Hl Hk.
    destruct (update_back _ Hshape _ _ _ Hj) as (c & Hc & _ & Hcase).
    assert (Hold : forall l0, Block.elements c = Some l0 -> In k l0 ->
              exists d', nth_error (update id (pushElement elemId) store) k = Some d'
                         /\ Block.parent d' = RefBlock j /\ Block.blocks d' = None).
    { intros l0 Hl0 Hk0. destruct (H3 _ _ _ _ Hc Hl0 Hk0) as (d & Hd & Hdp & Hdb).
      destruct (update_forth _ Hshape id _ _ Hd) as (d' & Hd' & Hsp & Hn).
      exists d'. split; [exact Hd'|]. split; [congruence | tauto]. }
    destruct Hcase as [[-> ->] | [_ ->]]; [|now apply (Hold l)].
    simpl in Hl. destruct (Block.elements c) as [l0|] eqn:El0; [|discriminate].
    simpl in Hl. injection Hl as <-. apply in_app_or in Hk.
    destruct Hk as [Hk | [<- | []]]; [now apply (Hold l0)|].
    destruct (update_forth _ Hshape id _ _ Hid) as (d' & Hd' & Hsp & Hn).
    exists d'. split; [exact Hd'|]. split; [congruence | tauto].
Qed.

Lemma closable_Some (st : State.t) (id pid : nat) :
  closable st = Some (id, pid) ->
  State.currentElement st = Some (RefBlock id)
  /\ exists b, nth_error (State.store st) id = Some b
               /\ Block.parent b = RefBlock pid
               /\ isBoxAt (State.store st) pid.
Proof.
  unfold closable.
  destruct (State.currentElement st) as [[p|id']|]; try discriminate.
  destruct (nth_error (State.store st) id') as [b|] eqn:Eb; [|discriminate].
  destruct (Block.parent b) as [p|pid'] eqn:Ep; [discriminate|].
  destruct (nth_error (State.store st) pid') as [pb|] eqn:Epb; [|discriminate].
  destruct (Block.blocks pb) as [l|] eqn:El; [|discriminate].
  intros [= <- <-]. split; [reflexivity|]. exists b. split; [exact Eb|].
  split; [exact Ep|]. exists pb. split; [exact Epb | congruence].
Qed.

Lemma nth_error_last (store : list Block.t) (x : Block.t) :
  nth_error (store ++ [x]) (List.length store) = Some x.
Proof. rewrite nth_error_app2 by lia. now rewrite Nat.sub_diag. Qed.

Lemma storeState_preserved : Preserved storeState.
Proof.
  constructor.
  - intros st line m1 m2 H _. exact H.
  - intros st line m1 m2 st' H _. unfold onOffset.
    destruct (Ascii.eqb (toLowerCase m1) "x"); [intros [= <-]; exact H|].
    destruct (Ascii.eqb (toLowerCase m1) "y"); [intros [= <-]; exact H | discriminate].
  - intros st m1 (Hs & _). split; [exact Hs|]. simpl. intros id [=].
  - intros st m1 currentPage H _. exact H.
  - intros st horizontal m st' (Hs & Hc). unfold onOpenBlock.
    destruct (State.currentPage st) as [currentPage|]; [|discriminate].
    destruct (State.currentElement st) as [r|] eqn:Er; [|discriminate].
    intros [= <-]. split; simpl.
    + apply storeOk_snoc; [exact Hs | | |]; simpl.
      * intros p ->. now apply Hc.
      * now intros l [= <-].
      * now intros l [= <-].
    + intros id [= <-]. eexists. split; [apply nth_error_last|]. discriminate.
  - intros st (Hs & Hc). unfold onCloseBlock.
    destruct (closable st) as [[id pid]|] eqn:E; [|now split].
    destruct (closable_Some _ E) as (Hcur & b & Hb & Hp & Hbox).
    split; simpl.
    + eapply storeOk_pushBlock; [exact Hs | exact Hb | exact Hp|].
      destruct (Hc _ Hcur) as (b' & Hb' & Hbox'). congruence.
    + intros id' [= <-]. apply isBoxAt_update; [apply pushBlock_shape | exact Hbox].
  - intros st line m st' (Hs & Hc) _. unfold onElement.
    destruct (State.currentPage st) as [currentPage|]; [|discriminate].
    destruct (State.currentElement st) as [[p|id]|] eqn:Er; try discriminate.
    destruct (nth_error (State.store st) id) as [current|]; [|discriminate].
    simpl.
    destruct (get (numberKey (parseInt (ElementMatch.m2 m))) (State.files st))
      as [file|]; [|discriminate].
    simpl. intros [= <-]. split; simpl.
    + eapply storeOk_pushElement;
        [apply storeOk_snoc; [exact Hs | | |] | apply nth_error_last | |];
        simpl; try reflexivity; try discriminate.
      intros p [= <-]. now apply Hc.
    + intros id' [= <-]. apply isBoxAt_update; [apply pushElement_shape|].
      apply isBoxAt_snoc. now apply Hc.
Qed.

Lemma storeState_initial : storeState State.initial.
Proof.
  split; [|intros id [=]]. split; [|split]; intros [|i] ? ? *; discriminate.
Qed.

Lemma pagesOk_update (f : Block.t -> Block.t) (i : nat) (store : list Block.t) :
  (forall b, sameShape b (f b)) -> pagesOk store -> pagesOk (update i f store).
Proof.
  intros Hf Hok j c' Hj.
  destruct (update_back _ Hf _ _ _ Hj) as (c & Hc & (Hp & _ & Hpg) & _).
  specialize (Hok _ _ Hc). rewrite Hp, Hpg.
  destruct (Block.parent c) as [p|k]; [exact Hok|].
  destruct Hok as (pb & Hpb & Hpage).
  destruct (update_forth _ Hf i _ _ Hpb) as (pb' & Hpb' & _ & _ & Hpg').
  exists pb'. split; [exact Hpb' | congruence].
Qed.

Lemma pagesOk_snoc (store : list Block.t) (x : Block.t) :
  pagesOk store ->
  match Block.parent x with
  | RefPage p => Page.page p = Block.page x
  | RefBlock j => exists pb, nth_error store j = Some pb /\ Block.page pb = Block.page x
  end ->
  pagesOk (store ++ [x]).
Proof.
  intros Hok Hx j c Hj. apply nth_error_snoc in Hj. destruct Hj as [Hj | [-> ->]].
  - specialize (Hok _ _ Hj). destruct (Block.parent c) as [p|k]; [exact Hok|].
    destruct Hok as (pb & Hpb & Hpage). exists pb. split; [now apply nth_error_old | exact Hpage].
  - destruct (Block.parent x) as [p|k]; [exact Hx|].
    destruct Hx as (pb & Hpb & Hpage). exists pb. split; [now apply nth_error_old | exact Hpage].
Qed.

Lemma pageChainState_preserved : Preserved pageChainState.
Proof.
  constructor.
  - intros st line m1 m2 H _. exact H.
  - intros st line m1 m2 st' H _. unfold onOffset.
    destruct (Ascii.eqb (toLowerCase m1) "x"); [intros [= <-]; exact H|].
    destruct (Ascii.eqb (toLowerCase m1) "y"); [intros [= <-]; exact H | discriminate].
  - intros st m1 (Hs & _). split; [exact Hs|]. simpl. intros cp r [= <-] [= <-].
    reflexivity.
  - intros st m1 currentPage (Hs & _) _. split; [exact Hs|]. simpl. intros cp r [=].
  - intros st horizontal m st' (Hs & Hc). unfold onOpenBlock.
    destruct (State.currentPage st) as [currentPage|] eqn:Ec; [|discriminate].
    destruct (State.currentElement st) as [r|] eqn:Er; [|discriminate].
    intros [= <-]. split; simpl.
    + apply pagesOk_snoc; [exact Hs|]. simpl. exact (Hc _ _ eq_refl eq_refl).
    + intros cp r' [= <-] [= <-]. eexists. split; [apply nth_error_last | reflexivity].
  - intros st (Hs & Hc). unfold onCloseBlock.
    destruct (closable st) as [[id pid]|] eqn:E; [|now split].
    destruct (closable_Some _ E) as (Hcur & b & Hb & Hp & _).
    split; simpl.
    + apply pagesOk_update; [apply pushBlock_shape | exact Hs].
    + intros cp r Hcp [= <-].
      destruct (Hc _ _ Hcp Hcur) as (b' & Hb' & Hpage).
      pose proof (Hs _ _ Hb) as Hpar. rewrite Hp in Hpar.
      destruct Hpar as (pb & Hpb & Hpg).
      destruct (update_forth _ (pushBlock_shape id) pid _ _ Hpb) as (pb' & Hpb' & _ & _ & Hpg').
      exists pb'. split; [exact Hpb' | congruence].
  - intros st line m st' (Hs & Hc) _. unfold onElement.
    destruct (State.currentPage st) as [currentPage|] eqn:Ec; [|discriminate].
    destruct (State.currentElement st) as [[p|id]|] eqn:Er; try discriminate.
    destruct (nth_error (State.store st) id) as [current|] eqn:Ecur; [|discriminate].
    simpl.
    destruct (get (numberKey (parseInt (ElementMatch.m2 m))) (State.files st))
      as [file|]; [|discriminate].
    simpl. intros [= <-]. split; simpl.
    + apply pagesOk_update; [apply pushElement_shape|].
      apply pagesOk_snoc; [exact Hs|]. simpl.
      destruct (Hc _ _ eq_refl eq_refl) as (b & Hb & Hpage). now exists b.
    + intros cp r [= <-] [= <-].
      destruct (Hc _ _ eq_refl eq_refl) as (b & Hb & Hpage).
      match goal with |- context [update id ?f (State.store st ++ [?x])] =>
        pose proof (nth_error_old (State.store st) x id Hb) as Hx;
        destruct (update_forth f (pushElement_shape (List.length (State.store st)))
                    id _ _ Hx) as (b' & Hb' & _ & _ & Hpg')
      end.
      exists b'. split; [exact Hb' | congruence].
Qed.

Lemma pageChainState_initial : pageChainState State.initial.
Proof. split; [intros [|i] b; discriminate | intros cp r [=]]. Qed.

Lemma enclosingPage_more (store : list Block.t) (fuel fuel' k : nat) (q : Page.t) :
  (fuel <= fuel')%nat -> enclosingPage fuel store k = Some q ->
  enclosingPage fuel' store k = Some q.
Proof.
  revert fuel' k. induction fuel as [|fuel IH]; intros fuel' k Hle Hq; [discriminate|].
  destruct fuel' as [|fuel']; [lia|]. simpl in *.
  destruct (nth_error store k) as [c|]; [|discriminate].
  destruct (Block.parent c); [exact Hq|]. apply IH; [lia | exact Hq].
Qed.

(** Climbing the parents from a block of a well-ordered store ends at a
    page, and that page has the number of the block. *)
Lemma enclosingPage_ends (store : list Block.t) :
  storeOk store -> pagesOk store ->
  forall i b, nth_error store i = Some b ->
    exists p, enclosingPage (S i) store i = Some p /\ Page.page p = Block.page b.
Proof.
  intros (H1 & _) Hpages i.
  induction i as [i IH] using (well_founded_induction lt_wf).
  intros b Hb. simpl. rewrite Hb.
  pose proof (Hpages _ _ Hb) as Hpar.
  destruct (Block.parent b) as [p|j] eqn:Ep.
  - now exists p.
  - destruct (H1 _ _ _ Hb Ep) as [Hlt _].
    destruct Hpar as (pb & Hpb & Hpage).
    destruct (IH j Hlt pb Hpb) as (p & Hp & Hnum).
    exists p. split; [|congruence].
    apply (enclosingPage_more store (fuel := S j)); [lia | exact Hp].
Qed.

(** X16.  In the store of a parsed model, the chain of parents of every
    block and element ends at a page, within as many steps as the position
    of the block, and that page has the number of the block. *)
Theorem parsed_parent_chain (text : string) (o : PdfSyncObject.t) (i : nat)
    (b : Block.t) :
  parseSyncTex text = Ok o ->
  nth_error (PdfSyncObject.store o) i = Some b ->
  exists p,
    enclosingPage (S i) (PdfSyncObject.store o) i = Some p
    /\ Page.page p = Block.page b.
Proof.
  intros Hparse Hb.
  destruct (parseSyncTex_keeps storeState_preserved _ storeState_initial Hparse)
    as (version & st & (Hs & _) & ->).
  destruct (parseSyncTex_keeps pageChainState_preserved _ pageChainState_initial Hparse)
    as (version' & st' & (Hp & _) & E).
  assert (Hstore : State.store st' = State.store st).
  { change (PdfSyncObject.store (finish version' st')
            = PdfSyncObject.store (finish version st)). now rewrite E. }
  rewrite Hstore in Hp. exact (enclosingPage_ends Hs Hp _ Hb).
Qed.

Lemma parsed_parent_chain_witness :
  exists p,
    enclosingPage 4 nestedStore 3 = Some p
    /\ Page.page p = Block.page (nth 3 nestedStore plainBlock).
Proof.
  apply (@parsed_parent_chain nestedText nestedModel 3 (nth 3 nestedStore plainBlock)).
  - vm_compute. reflexivity.
  - vm_compute. reflexivity.
Defined.

(** X17.  In the store of a parsed model, what a box lists under [blocks]
    are boxes whose parent it is, and what it lists under [elements] are
    elements whose parent it is. *)
Theorem parsed_children (text : string) (o : PdfSyncObject.t) (i : nat) (b : Block.t) :
  parseSyncTex text = Ok o ->
  nth_error (PdfSyncObject.store o) i = Some b ->
  (forall l j, Block.blocks b = Some l -> In j l ->
     exists c, nth_error (PdfSyncObject.store o) j = Some c
               /\ Block.parent c = RefBlock i /\ Block.blocks c <> None)
  /\ (forall l j, Block.elements b = Some l -> In j l ->
        exists c, nth_error (PdfSyncObject.store o) j = Some c
                  /\ Block.parent c = RefBlock i /\ Block.blocks c = None).
Proof.
  intros Hparse Hb.
  destruct (parseSyncTex_keeps storeState_preserved _ storeState_initial Hparse)
    as (version & st & ((_ & H2 & H3) & _) & ->).
  simpl in *. split; intros l j Hl Hj; [exact (H2 _ _ _ _ Hb Hl Hj) | exact (H3 _ _ _ _ Hb Hl Hj)].
Qed.

Lemma parsed_children_witness :
  (forall l j, Block.blocks (nth 0 nestedStore plainBlock) = Some l -> In j l ->
     exists c, nth_error nestedStore j = Some c
               /\ Block.parent c = RefBlock 0 /\ Block.blocks c <> None)
  /\ (forall l j, Block.elements (nth 0 nestedStore plainBlock) = Some l -> In j l ->
        exists c, nth_error nestedStore j = Some c
                  /\ Block.parent c = RefBlock 0 /\ Block.blocks c = None).
Proof.
  apply (@parsed_children nestedText nestedModel 0 (nth 0 nestedStore plainBlock)).
  - vm_compute. reflexivity.
  - vm_compute. reflexivity.
Defined.

(** ** The one way for the parser to raise a TypeError *)

Lemma onElement_TypeError (st : State.t) (m : ElementMatch.t) :
  storeState st -> onElement st m = Err TypeError ->
  get (numberKey (parseInt (ElementMatch.m2 m))) (State.files st) = None.
Proof.
  intros (_ & Hc). unfold onElement.
  destruct (State.currentPage st) as [currentPage|]; [|discriminate].
  destruct (State.currentElement st) as [[p|id]|] eqn:Er; try discriminate.
  destruct (Hc id eq_refl) as (b & Hb & _). rewrite Hb. simpl.
  destruct (get (numberKey (parseInt (ElementMatch.m2 m))) (State.files st));
    [discriminate | reflexivity].
Qed.

Lemma parseLine_TypeError (st : State.t) (line : string) :
  parseLine st line = Err TypeError ->
  exists m, search elementBlockPattern line = Some m /\ onElement st m = Err TypeError.
Proof.
  intro H. pose proof (parseLine_taken st line) as Ht. rewrite H in Ht.
  inversion Ht;
    repeat match goal with Heq : Err _ = _ |- _ => symmetry in Heq end.
  - match goal with Hs : search offsetPattern line = Some _ |- _ =>
      destruct (onOffset_Ok st _ Hs) as [st' Hst'] end.
    congruence.
  - match goal with Ho : onOpenBlock _ _ _ = Err _ |- _ =>
      apply onOpenBlock_error in Ho; destruct Ho as [Hk _];
      destruct horizontal; discriminate Hk end.
  - now exists m.
Qed.

(** X18.  On a text that declares no file under a name inherited from
    [Object.prototype] and whose numbers are below [2^53], the parser raises
    a [TypeError] in one case only: an element whose file number has no
    entry among the files declared by the lines before it. *)
Theorem parse_type_error (text : string) :
  plainPaths text = true ->
  exactNumbers text = true ->
  parseSyncTex text = Err TypeError ->
  exists before line after st m,
    tl (split text) = before ++ line :: after
    /\ parseLines State.initial before = Ok st
    /\ search elementBlockPattern line = Some m
    /\ get (numberKey (parseInt (ElementMatch.m2 m))) (State.files st) = None.
Proof.
  intros _ _ H.
  destruct (parseSyncTex_error _ H) as (before & line & after & st & Hs & Hb & Hl).
  destruct (parseLine_TypeError _ _ Hl) as (m & Hm & He).
  exists before, line, after, st, m. split; [exact Hs|]. split; [exact Hb|].
  split; [exact Hm|]. apply onElement_TypeError; [|exact He].
  eapply (parseLines_keeps storeState_preserved); [apply storeState_initial | exact Hb].
Qed.

Lemma parse_type_error_witness :
  exists before line after st m,
    tl (split undeclaredFile) = before ++ line :: after
    /\ parseLines State.initial before = Ok st
    /\ search elementBlockPattern line = Some m
    /\ get (numberKey (parseInt (ElementMatch.m2 m))) (State.files st) = None.
Proof.
  apply parse_type_error; vm_compute; reflexivity.
Defined.

(** ** The horizontal blocks *)

Lemma positionsFrom_snoc (p : Block.t -> bool) (store : list Block.t) (x : Block.t)
    (i : nat) :
  positionsFrom p i (store ++ [x])
  = positionsFrom p i store ++ (if p x then [(i + List.length store)%nat] else []).
Proof.
  revert i. induction store as [|b store IH]; intro i; simpl.
  - rewrite Nat.add_0_r. now rewrite app_nil_r.
  - rewrite IH, <- app_assoc. do 2 f_equal.
    replace (S i + List.length store)%nat with (i + S (List.length store))%nat by lia.
    reflexivity.
Qed.

Lemma positionsFrom_update (p : Block.t -> bool) (f : Block.t -> Block.t) (k : nat)
    (store : list Block.t) (i : nat) :
  (forall b, p (f b) = p b) ->
  positionsFrom p i (update k f store) = positionsFrom p i store.
Proof.
  intro Hf. revert k i. induction store as [|b store IH]; intros k i.
  - destruct k; reflexivity.
  - destruct k as [|k]; simpl; [now rewrite Hf | now rewrite IH].
Qed.

Lemma hBlocksState_preserved : Preserved hBlocksState.
Proof.
  constructor; unfold hBlocksState.
  - intros st line m1 m2 H _. exact H.
  - intros st line m1 m2 st' H _. unfold onOffset.
    destruct (Ascii.eqb (toLowerCase m1) "x"); [intros [= <-]; exact H|].
    destruct (Ascii.eqb (toLowerCase m1) "y"); [intros [= <-]; exact H | discriminate].
  - intros st m1 H. exact H.
  - intros st m1 currentPage H _. exact H.
  - intros st horizontal m st' H. unfold onOpenBlock.
    destruct (State.currentPage st) as [currentPage|]; [|discriminate].
    destruct (State.currentElement st) as [r|]; [|discriminate].
    intros [= <-]. simpl. unfold positions. rewrite positionsFrom_snoc.
    fold (positions isHorizontal (State.store st)). rewrite <- H.
    destruct horizontal; simpl; [reflexivity | now rewrite app_nil_r].
  - intros st H. unfold onCloseBlock.
    destruct (closable st) as [[id pid]|]; [|exact H]. simpl.
    unfold positions. now rewrite positionsFrom_update.
  - intros st line m st' H _. unfold onElement.
    destruct (State.currentPage st) as [currentPage|]; [|discriminate].
    destruct (State.currentElement st) as [[p|id]|]; try discriminate.
    destruct (nth_error (State.store st) id) as [current|]; [|discriminate].
    simpl.
    destruct (get (numberKey (parseInt (ElementMatch.m2 m))) (State.files st))
      as [file|]; [|discriminate].
    simpl. intros [= <-]. simpl. unfold positions.
    rewrite positionsFrom_update by reflexivity. rewrite positionsFrom_snoc.
    fold (positions isHorizontal (State.store st)). rewrite <- H.
    unfold isHorizontal. simpl.
    destruct (Ascii.eqb (ElementMatch.m1 m) "h"); simpl; now rewrite app_nil_r.
Qed.

(** X19.  The list [hBlocks] of a parsed model holds the positions in the
    store of the horizontal blocks, all of them, each once, in the order in
    which they were opened. *)
Theorem parsed_hBlocks (text : string) (o : PdfSyncObject.t) :
  parseSyncTex text = Ok o ->
  PdfSyncObject.hBlocks o = positions isHorizontal (PdfSyncObject.store o).
Proof.
  intro Hparse.
  destruct (parseSyncTex_keeps hBlocksState_preserved _ eq_refl Hparse)
    as (version & st & H & ->).
  exact H.
Qed.

Lemma parsed_hBlocks_witness :
  PdfSyncObject.hBlocks nestedModel = positions isHorizontal nestedStore.
Proof.
  apply (@parsed_hBlocks nestedText). vm_compute. reflexivity.
Defined.

(** ** The index, read off the store *)

Section GetSet.
Context {K V : Type} `{JSKey K}.

Lemma get_set_same (k : K) (v : V) (o : JSObject K V) : get k (set k v o) = Some v.
Proof.
  induction o as [|[k0 v0] o IH]; simpl.
  - now rewrite key_eqb_refl.
  - destruct (key_eqb k k0) eqn:E; simpl; rewrite E; [reflexivity | exact IH].
Qed.

Lemma get_set_other (k k' : K) (v : V) (o : JSObject K V) :
  k' <> k -> get k' (set k v o) = get k' o.
Proof.
  intro Hne. induction o as [|[k0 v0] o IH]; simpl.
  - destruct (key_eqb k' k) eqn:E; [|reflexivity].
    apply key_eqb_eq in E. contradiction.
  - destruct (key_eqb k k0) eqn:E; simpl.
    + apply key_eqb_eq in E. subst k0.
      destruct (key_eqb k' k) eqn:E'; [|reflexivity].
      apply key_eqb_eq in E'. contradiction.
    + now rewrite IH.
Qed.
End GetSet.

Lemma filter_update (p : Block.t -> bool) (f : Block.t -> Block.t) (k : nat)
    (store : list Block.t) :
  (forall b, nth_error store k = Some b -> p b = false /\ p (f b) = false) ->
  filter p (update k f store) = filter p store.
Proof.
  revert k. induction store as [|b store IH]; intros k Hk.
  - destruct k; reflexivity.
  - destruct k as [|k]; simpl.
    + destruct (Hk b eq_refl) as [-> ->]. reflexivity.
    + rewrite IH; [reflexivity|]. intros c Hc. now apply (Hk c).
Qed.

Lemma isElementOf_box (fileName : string) (lineNum pageNum : N) (b : Block.t) :
  Block.blocks b <> None -> isElementOf fileName lineNum pageNum b = false.
Proof.
  intro Hb. unfold isElementOf. destruct (Block.blocks b); [reflexivity | contradiction].
Qed.

Lemma filter_update_box (fileName : string) (lineNum pageNum : N)
    (f : Block.t -> Block.t) (k : nat) (store : list Block.t) :
  (forall b, sameShape b (f b)) -> isBoxAt store k ->
  filter (isElementOf fileName lineNum pageNum) (update k f store)
  = filter (isElementOf fileName lineNum pageNum) store.
Proof.
  intros Hf (b & Hb & Hbox). apply filter_update. intros b' Hb'.
  assert (b' = b) as -> by congruence.
  split; apply isElementOf_box; [exact Hbox|].
  destruct (Hf b) as (_ & Hn & _). tauto.
Qed.

Lemma indexState_preserved : Preserved indexState.
Proof.
  constructor.
  - intros st line m1 m2 (Hs & H) Hm. split; [|exact H].
    eapply keeps_input; [apply storeState_preserved | exact Hs | exact Hm].
  - intros st line m1 m2 st' (Hs & H) Hm Hst. split.
    + eapply keeps_offset; [apply storeState_preserved | exact Hs | exact Hm | exact Hst].
    + revert Hst. unfold onOffset.
      destruct (Ascii.eqb (toLowerCase m1) "x"); [intros [= <-]; exact H|].
      destruct (Ascii.eqb (toLowerCase m1) "y"); [intros [= <-]; exact H | discriminate].
  - intros st m1 (Hs & H). split; [|exact H].
    eapply keeps_openPage; [apply storeState_preserved | exact Hs].
  - intros st m1 currentPage (Hs & H) Hc. split; [|exact H].
    eapply keeps_closePage; [apply storeState_preserved | exact Hs | exact Hc].
  - intros st horizontal m st' (Hs & H) Hst. split.
    + eapply keeps_openBlock; [apply storeState_preserved | exact Hs | exact Hst].
    + revert Hst. unfold onOpenBlock.
      destruct (State.currentPage st) as [currentPage|]; [|discriminate].
      destruct (State.currentElement st) as [r|]; [|discriminate].
      intros [= <-]. simpl. intros fileName lineNum pageNum.
      rewrite filter_app, H. simpl. now rewrite app_nil_r.
  - intros st (Hs & H). split.
    + eapply keeps_closeBlock; [apply storeState_preserved | exact Hs].
    + unfold onCloseBlock.
      destruct (closable st) as [[id pid]|] eqn:E; [|exact H].
      destruct (closable_Some _ E) as (_ & b & _ & _ & Hbox).
      simpl. intros fileName lineNum pageNum.
      rewrite filter_update_box; [apply H | apply pushBlock_shape | exact Hbox].
  - intros st line m st' (Hs & H) Hm Hst. split.
    + eapply keeps_element; [apply storeState_preserved | exact Hs | exact Hm | exact Hst].
    + revert Hst. unfold onElement. destruct Hs as (_ & Hc).
      destruct (State.currentPage st) as [currentPage|]; [|discriminate].
      destruct (State.currentElement st) as [[p|id]|] eqn:Er; try discriminate.
      destruct (nth_error (State.store st) id) as [current|]; [|discriminate].
      simpl.
      destruct (get (numberKey (parseInt (ElementMatch.m2 m))) (State.files st))
        as [file|]; [|discriminate].
      simpl. intros [= <-]. simpl. intros fileName lineNum pageNum.
      rewrite filter_update_box;
        [| apply pushElement_shape | apply isBoxAt_snoc; now apply Hc].
      rewrite filter_app, <- H. simpl.
      unfold isElementOf at 1. simpl.
      fold (bucketOf (State.blockNumberLine st) (File.path file)
              (parseInt (ElementMatch.m3 m)) (Page.page currentPage)).
      unfold bucketOf at 1.
      destruct (String.eqb_spec (File.path file) fileName) as [<-|Hf]; simpl.
      * rewrite get_set_same. simpl.
        destruct (N.eqb_spec (parseInt (ElementMatch.m3 m)) lineNum) as [<-|Hl]; simpl.
        -- rewrite get_set_same. simpl.
           destruct (N.eqb_spec (Page.page currentPage) pageNum) as [<-|Hp]; simpl.
           ++ now rewrite get_set_same.
           ++ rewrite get_set_other by congruence. rewrite app_nil_r. reflexivity.
        -- rewrite get_set_other by congruence. rewrite app_nil_r. reflexivity.
      * rewrite get_set_other by congruence. rewrite app_nil_r. reflexivity.
Qed.

Lemma indexState_initial : indexState State.initial.
Proof. split; [apply storeState_initial | reflexivity]. Qed.

(** X20.  The index of a parsed model holds nothing that the store does
    not: the bucket of a file path, a line and a page is the list of the
    elements of the store recorded with that file, line and page, in the
    order in which they were read.  The text declares no file under a name
    inherited from [Object.prototype], and its numbers are below [2^53]. *)
Theorem parsed_index_from_store (text : string) (o : PdfSyncObject.t)
    (fileName : string) (lineNum pageNum : N) :
  plainPaths text = true ->
  exactNumbers text = true ->
  parseSyncTex text = Ok o ->
  bucketOf (PdfSyncObject.blockNumberLine o) fileName lineNum pageNum
  = filter (isElementOf fileName lineNum pageNum) (PdfSyncObject.store o).
Proof.
  intros _ _ Hparse.
  destruct (parseSyncTex_keeps indexState_preserved _ indexState_initial Hparse)
    as (version & st & (_ & H) & ->).
  apply H.
Qed.

Lemma parsed_index_from_store_witness :
  bucketOf (PdfSyncObject.blockNumberLine nestedModel) "/doc/main.tex" 13 1
  = filter (isElementOf "/doc/main.tex" 13 1) nestedStore.
Proof.
  apply (@parsed_index_from_store nestedText nestedModel); vm_compute; reflexivity.
Defined.

(** ** The tag of a file as a property key *)

Lemma digitsValue_acc (d : Decimal.uint) (acc : positive) :
  digitsValue (Npos acc) (NilEmpty.string_of_uint d) = Npos (Pos.of_uint_acc d acc).
Proof.
  revert acc.
  induction d; intro acc; cbn [NilEmpty.string_of_uint Pos.of_uint_acc digitsValue];
    try reflexivity; rewrite <- IHd; f_equal;
    match goal with
    | |- context [digitValue ?c] =>
        let v := eval vm_compute in (digitValue c) in change (digitValue c) with v
    end; lia.
Qed.

Lemma digitsValue_uint (d : Decimal.uint) :
  digitsValue 0 (NilEmpty.string_of_uint d) = N.of_uint d.
Proof.
  unfold N.of_uint.
  induction d; cbn [NilEmpty.string_of_uint Pos.of_uint digitsValue];
    try reflexivity; try exact IHd; rewrite <- digitsValue_acc; reflexivity.
Qed.

(** Reading the text of a number gives the number back. *)
Lemma parseInt_numberKey (n : N) : parseInt (numberKey n) = n.
Proof.
  unfold parseInt, numberKey. rewrite digitsValue_uint.
  apply DecimalN.Unsigned.of_to.
Qed.

Lemma allDigits_uint (d : Decimal.uint) : allDigits (NilEmpty.string_of_uint d) = true.
Proof. induction d; simpl; try reflexivity; exact IHd. Qed.

Lemma canonicalNumeric_unorm (d : Decimal.uint) :
  canonicalNumeric (NilEmpty.string_of_uint (Decimal.unorm d)) = true.
Proof.
  unfold Decimal.unorm.
  induction d; simpl; try reflexivity; try apply allDigits_uint. exact IHd.
Qed.

(** The text of a number is in canonical decimal form. *)
Lemma canonicalNumeric_numberKey (n : N) : canonicalNumeric (numberKey n) = true.
Proof.
  unfold numberKey.
  rewrite <- (DecimalN.Unsigned.of_to n) at 1. rewrite DecimalN.Unsigned.to_of.
  apply canonicalNumeric_unorm.
Qed.

Lemma isDigit_cases (c : ascii) :
  isDigit c = true ->
  In c ["0"; "1"; "2"; "3"; "4"; "5"; "6"; "7"; "8"; "9"]%char.
Proof.
  destruct c as [[] [] [] [] [] [] [] []]; vm_compute; intro Hc;
    try discriminate; tauto.
Qed.

Lemma allDigits_uint_inv (s : string) :
  allDigits s = true -> exists d, NilEmpty.string_of_uint d = s.
Proof.
  induction s as [|c s IH]; simpl.
  - exists Decimal.Nil. reflexivity.
  - intro Hs. apply andb_prop in Hs. destruct Hs as [Hc Hs].
    destruct (IH Hs) as (d & <-). apply isDigit_cases in Hc. simpl in Hc.
    destruct Hc as [<-|[<-|[<-|[<-|[<-|[<-|[<-|[<-|[<-|[<-|[]]]]]]]]]]].
    + now exists (Decimal.D0 d).
    + now exists (Decimal.D1 d).
    + now exists (Decimal.D2 d).
    + now exists (Decimal.D3 d).
    + now exists (Decimal.D4 d).
    + now exists (Decimal.D5 d).
    + now exists (Decimal.D6 d).
    + now exists (Decimal.D7 d).
    + now exists (Decimal.D8 d).
    + now exists (Decimal.D9 d).
Qed.

Lemma canonicalNumeric_allDigits (s : string) :
  canonicalNumeric s = true -> allDigits s = true.
Proof.
  destruct s as [|c s]; [discriminate|]. unfold canonicalNumeric.
  destruct (Ascii.eqb_spec c "0") as [->|Hc].
  - destruct s; [reflexivity | discriminate].
  - destruct c as [[] [] [] [] [] [] [] []]; try (intro H; exact H).
    contradiction Hc. reflexivity.
Qed.

Lemma unorm_canonical (d : Decimal.uint) :
  canonicalNumeric (NilEmpty.string_of_uint d) = true -> Decimal.unorm d = d.
Proof.
  destruct d; simpl; try reflexivity; try discriminate.
  destruct d; simpl; try reflexivity; discriminate.
Qed.

(** A text in canonical decimal form is the text of the number it reads as. *)
Lemma numberKey_parseInt (s : string) :
  canonicalNumeric s = true -> numberKey (parseInt s) = s.
Proof.
  intro Hs. destruct (allDigits_uint_inv _ (canonicalNumeric_allDigits _ Hs)) as (d & <-).
  unfold numberKey, parseInt. rewrite digitsValue_uint, DecimalN.Unsigned.to_of.
  now rewrite unorm_canonical.
Qed.

(** X21.  A file declared by an [Input] line is found under a file number
    exactly when the tag of the line is in canonical decimal form, without
    leading zeros, and reads as that number; the declaration changes the
    lookup of no other number.  The file number is taken below [2^53],
    the range in which the numbers of the source are exact and are written
    in plain decimal form. *)
Theorem input_tag_lookup (st : State.t) (m1 path : string) (fileNumber : N) :
  (fileNumber < 2 ^ 53)%N ->
  get (numberKey fileNumber) (State.files (onInput st m1 path))
  = if canonicalNumeric m1 && (parseInt m1 =? fileNumber)%N
    then Some {| File.path := path |}
    else get (numberKey fileNumber) (State.files st).
Proof.
  intros _. simpl.
  destruct (canonicalNumeric m1 && (parseInt m1 =? fileNumber)%N) eqn:E.
  - apply andb_prop in E. destruct E as [Hc Hn]. apply N.eqb_eq in Hn. subst fileNumber.
    rewrite numberKey_parseInt by exact Hc. apply get_set_same.
  - apply get_set_other. intros <-.
    rewrite canonicalNumeric_numberKey, parseInt_numberKey, N.eqb_refl in E.
    discriminate.
Qed.

Lemma input_tag_lookup_witness :
  get (numberKey 1) (State.files (onInput State.initial "01" "/doc/main.tex"))
  = if canonicalNumeric "01" && (parseInt "01" =? 1)%N
    then Some {| File.path := "/doc/main.tex" |}
    else get (numberKey 1) (State.files State.initial).
Proof.
  apply (@input_tag_lookup State.initial "01" "/doc/main.tex" 1). vm_compute. reflexivity.
Defined.
